(* ===== verification/_CoqProject ===== *)
-Q . S2P
Prelude.v
Text.v
ModInt.v
Points.v
Curve.v
ScalarMult.v
BitReversal.v
Oracles.v
Primes.v
Lenstra.v
Rounds.v
Reduction.v
Repair.v
Factor.v
Termination.v
Dict.v
Report.v
Output.v
Run.v
