(* ===== verification/Prelude.v ===== *)
(** * Lenstra elliptic-curve factorisation (src/main.py): a verification library

    ** The program

    [src/main.py] factors an integer with Lenstra's elliptic-curve method.
    Its parts, leaves first:

    - [inverse] (line 7): the modular inverse, Python's [pow(a, -1, n)].
    - class [Point] (lines 11-25): an affine point [(x, y)] with [__eq__]
      and [__repr__]; the value [None] stands both for the point at
      infinity and for "the addition failed".
    - class [EllipticCurve] (lines 28-85): the parameters [a], [b], [N] of
      y^2 = x^3 + a x + b over Z/NZ and a mutable field [div], 1 at
      construction.  [sum] adds two points by the chord and tangent rules;
      when the slope's denominator is not invertible modulo [N] it stores
      the gcd in [div] and returns [None].  [mult] builds the table
      p, 2p, 4p, ... by repeated [sum] and then adds the entries selected by
      the characters of [bin(k)[2:]].
    - [lenstra] (lines 88-137): draws [a], [b], [A] at random, builds the
      curve through [(a, b)], and multiplies the point by 2, 3, 4, ... while
      [div] is 1; returns [div].
    - [get_next] and [factorization] (lines 140-186): the recursive driver;
      it retries [lenstra] while the divisor equals [N], then recurses on
      the divisor and the cofactor, with [sympy.isprime] as oracle.
    - [to_dict] and the script body (lines 189-201): the primes with their
      multiplicities, as a dict sorted by key, printed when N is not prime.

    ** The model, file by file

    - [Prelude] (this file): what the components share.  Python exceptions
      are values of [exn]; a run of Python code is an [outcome]: [Ret] (a
      value), [Raise] (an exception) or [OutOfFuel] (the fuel given to an
      unbounded loop ran out).  Code that reads and writes an object is a
      state-passing command [cmd S A = S -> outcome (A * S)] with [ret],
      [bind], [get], [put], [raise], [lift] and the notation [x <- c ;; k]
      of scope [py_scope].  [wpg] is the predicate transformer the theorems
      are stated with ([wp]: the command returns and the postcondition
      holds; [wlp]: the same unless the fuel runs out; both exclude an
      exception); its rules, the tactics [wp_step], [wp_auto] and
      [case_test], the hint databases [wp] and [lenstra], the notion
      [fuel_mono] of a fuel-indexed command whose results more fuel does
      not change, and generic lemmas on lists are here too.
    - [Text]: [int_str], the decimal text of an integer as [str] and the
      f-strings produce it (on top of the Stdlib's [DecimalString]),
      [int_of_str] which reads it back, and the tools of the two parsers
      ([strip_prefix], [split_at], [split_all], [join], [absent]).
    - [ModInt]: the integer operations of the program on [Z]: [py_mod]
      ([%], raising ZeroDivisionError on 0), [py_floordiv] ([//]),
      [math_gcd] ([math.gcd]), [inverse] ([pow(a, -1, n)] with its
      ValueError cases, on top of the Stdlib's [Z.invmod]).  Congruence
      modulo N is the relation [cong N], an equivalence with [Proper]
      instances for the ring operations, so that the curve proofs rewrite
      with congruences; [cong_lin2] and [cong_lin3] turn a polynomial
      identity into a congruence.  Theorem [inverse_correct]: every
      outcome of [inverse]; it returns the one reduced inverse exactly
      when there is an inverse and raises ValueError otherwise.
    - [Points]: the record [Point] with fields [x], [y]; [Point_eq] is
      [Point.__eq__] (against a point or [None]); [py_eq] is [==] on values
      that may be [None]; [Point_repr] is [Point.__repr__].  Theorem: the
      parser [Point_of_repr] inverts [Point_repr].
    - [Curve]: the record [EllipticCurve] of the object's fields,
      [EllipticCurve_init] ([__init__]), [set_div] (the assignment to
      [div]) and [sum] as a command over the curve object, branch for
      branch.  Its reference is the pure function [sum_pure] (the value and
      the value assigned to [div], if any), built on [sum_point];
      [sum_points_run] and [sum_run] are the refinement.  Theorems:
      commutativity (value, state and exceptions), a failure reports a gcd
      that divides N and is not 1, no exception when N is not 0, the
      result stays on the curve for any modulus, coordinates are reduced,
      only [div] is ever written, a point plus its negative is reported as
      a failure with [div] = |N|, and the exception path of N = 0.
      Objects that differ only in [div] are related by [same_params], an
      equivalence that [sum_pure] and [on_curve] respect ([Proper]
      instances), so that proofs rewrite an object after an assignment to
      [div] into the object before it.
    - [ScalarMult]: [bin] and [binary_expansion] (the expansion as a list
      of characters, negative [k] included), the table loop [powers_loop],
      the selection loop [select_loop] with its early return, and [mult].
      The pure functions [powers_pure], [select_pure], [mult_pure] are the
      reference; [mult_run] proves the command equal to it.  Theorems:
      [mult(P, 2k)] returns what [mult(P, k)] returns and [mult(P, 2^n)]
      returns [P] (the digits are read most significant first against a
      table indexed least significant first), every outcome of [mult]
      ([mult_every_outcome]: no exception, only [div] written, a [None]
      result means [div] was set), a failed doubling does not stop
      [mult] and a later failure overwrites its divisor
      ([mult_keeps_last_divisor]), the curve equation is preserved, the
      expansion denotes [k], the shape of the table.  A negative [k] is
      not rejected: [bin(k)[2:]] keeps the letter "b", which shifts
      every digit one table entry up, and [mult(P, k)] runs as
      [mult(sum(P, P), -k)] ([mult_negative_scalar]).
      The pure functions respect [same_params] too.
    - [BitReversal]: what [mult] computes.  [mult_intended] is
      double-and-add with the digits read least significant first, the
      algorithm of the specification; [bit_reverse k] is the number whose
      binary digits are those of [k] in reverse order.  Theorem: for
      k > 0, [mult(P, k)] returns the value of [mult_intended] for
      [bit_reverse k]; the reversal is an involution on odd numbers and
      forgets trailing zeros.
    - [Oracles]: what the program asks of its libraries, as classes.
      [RandomSource] is [random.randint] (a value within the inclusive
      bounds, ValueError on an empty range), with the scripted instance
      [script_source]; [PrimeOracle] is [sympy.isprime] (an exact test of
      [Z.prime]), with the instance [trial_division_oracle].  The theorems
      of [Lenstra], [Factor] and [Report] are proved against the classes;
      the instances make the model run.  Two instances of [PrimeOracle]
      are the same function ([isprime_unique]).
    - [Primes]: an exact primality test that runs on the factors of the
      number of line 199.  [odd_steps] is trial division by 3, 5, 7, ...
      on the kernel's 63-bit integers, [odd_steps_Z] the same loop on
      [Z]; [fast_isprime] uses the first below [machine_bound] = 2^60
      and the second above.  [candidate] is the loop invariant (no
      divisor below the candidate, whose predecessor's square is at most
      n).  Theorems: the loop on [Z] decides primality
      ([odd_steps_Z_decides]), the machine loop computes what the loop on
      [Z] computes because no product or sum overflows below the bound
      ([odd_steps_refines]), the test is exact ([fast_isprime_spec]) and
      so an instance of [PrimeOracle] ([fast_oracle]); [Z.prime] is
      decidable.
    - [Lenstra]: [draws] (the three calls of [randint]), [curve_of_draws]
      (base point and curve), [lenstra_loop] (the [while] loop, with fuel),
      [search] (the loop and the final read of [div]) and [lenstra],
      generic in the random source.  [loop_inv] is the loop invariant.
      The loop reaches [mult] through an interface: [MultContract] says
      what it relies on (the method returns, writes only [div], writes
      there the gcd of a failed addition, and returns [None] only after
      such a write), [lenstra_loop_with] and [search_with] are the loop
      and the search over a method, the invariant and the divisor
      property are proved against the class ([lenstra_loop_with_wlp],
      [search_under_contract]), and [mult] is an instance.
      The loop is also a transition system: [loop_state] holds the
      variables [point], [i] and the object, [loop_step] is one
      iteration, [loop_exit] the states in which the loop is left.
      Theorems: the base point is on the generated curve, the [break] of
      line 132 is unreachable (the loop equals [lenstra_loop_no_break]),
      the command computes exactly the runs of the transition system
      that reach an exit state within the fuel, every reachable state
      satisfies the invariant and is not stuck, the running point of
      every reachable state lies on the generated curve
      ([loop_point_on_curve]), every returned value
      divides N and lies in 2..N, no exception once N >= 1, ValueError
      for N < 1 ([lenstra_every_outcome]), divergence for N = 1, fuel
      monotonicity, a complete
      run on 91, and liveness on even N: whatever is drawn, the first
      doubling fails on the common factor 2 and [lenstra] returns an even
      divisor within two iterations ([lenstra_even_returns]).
    - [Rounds]: the multipliers the loop applies.  [reversed_rounds] is
      the intended algorithm run round after round with the reversed
      multipliers; [smooth_multiplier] is the product i (i + 1) ... that
      the method accumulates, [applied_multiplier] the product of the
      reversals.  Theorems: along every run of the loop the point is
      [reversed_rounds] of the start ([loop_applies_reversed]); every
      applied multiplier is odd, so from the second round on the loop
      never applies the multiplier of the method.
    - [Reduction]: the computation modulo N against the computation
      modulo a divisor p of N.  [reduce_point], [reduce_curve] and
      [reduce_state] reduce a point, the object and a state of the loop
      modulo p.  Theorems: a successful [sum] commutes with the
      reduction ([sum_reduces]: same branch, and the inverse modulo N is
      an inverse modulo p); a [sum] that fails modulo p fails modulo N
      with a [div] that is a multiple of the one found modulo p
      ([sum_failure_lifts]); a [sum] that fails modulo N and not
      modulo p, on the same branch, stores a proper divisor, coprime to
      p ([sum_failure_proper]), and without the proviso it can store N
      ([sum_failure_improper]); a [mult] that leaves [div] at 1 commutes
      with the reduction; the loop modulo N simulates the loop modulo p
      step for step while [div] is 1 ([loop_reduces]); and the search
      modulo N returns within the fuel within which the search modulo p
      returns ([search_returns_with_divisor]).
    - [Repair]: the one-expression repair of [mult], which is not code
      of the program: [mult_repaired] enumerates the digits from the
      least significant one.  Theorems: it computes [mult_intended], on
      2^n it returns the n-th doubling ([doubling]) where [mult] returns
      its argument, [mult(P, k)] is the repaired method on the reversal
      of k, and it is an instance of [MultContract], so the search of the
      repaired program returns only divisors too.
    - [Factor]: the driver.  [factorization] returns the integer N on a
      prime and a list otherwise, so its result is a [pyval] ([VInt] or
      [VList]); [iadd] is [+=] on the list, TypeError on an integer;
      [retry_loop] is [while div == N]; [get_next_with] is [get_next] with
      the function it calls as a parameter, and [get_next] ties it to
      [factorization].  [factors_of] is the promise: a list of primes
      whose product is N.  [factorization_wlp] proves it by induction on
      the fuel with the rules of [wpg]; [factorization_outcome] lists
      every outcome.  Theorems: the returned list consists of primes and
      multiplies to N, for [factorization] on a composite and for
      [get_next] on anything; the only exception is the ValueError of
      N < 1; a prime input gives the bare integer; the test
      [if not numb == 1] never fails (the function equals
      [factorization_no_test]); fuel monotonicity; divergence on 1; the
      run on 91; the dynamic type of the result ([type_of]: an int on a
      prime, a list otherwise); and liveness on twice a prime: 2 p is
      factored into [2; p] with fuel 3 whenever the second draw is not a
      multiple of p ([factorization_twice_prime]).
      [factorization_split] is one round of the driver: a search that
      returns a proper divisor, then the two calls of [get_next].  The
      driver run with two oracles is the same command
      ([factorization_oracle]).
    - [Termination]: what the end of the driver depends on.
      [draw_script] is the list of numbers on which the scripted source
      draws a given [b], [lucky_script] the script of a run of searches;
      [max_source] is the instance of [RandomSource]
      that always returns the upper bound; [diverges] says that no fuel
      is enough.  Theorems: for every N >= 2 that is not prime there are
      finitely many draws and a fuel with which [factorization] returns
      the prime factors ([factorization_can_return], by induction on N:
      a draw with 1 < gcd(2 b, N) < N splits N in the first doubling);
      with [max_source] it diverges on every N >= 1 that is not prime
      ([factorization_max_diverges]: every search returns N); with any
      source the retry loop diverges on a prime
      ([retry_loop_prime_diverges]), which is why the driver tests
      primality first.
    - [Dict]: Python dicts from integers to counts as association lists
      in insertion order: [dict_setitem] ([d[k] = v]), [dict_get]
      ([d.get(k)]), [dict_of_items] ([dict(items)]).  Theorems: no
      operation introduces a repeated key ([dict_wf]), [get] after [set],
      and [dict(items)] binds every key to the last value given.
    - [Report]: [to_dict] and the script body.  [to_dict_from] is
      the body of [to_dict] for one enumeration of [set(data)],
      [to_dict_list] fixes the enumeration, [to_dict] adds the TypeError
      of [set] on an integer; [main] is the script for a given N and
      returns the dict it prints.  Theorems: [to_dict] returns the
      distinct elements in strictly ascending order with their counts,
      and expands back to the list; the enumeration order of the set is
      irrelevant; a dict with ascending keys and positive counts is
      [to_dict] of its expansion ([to_dict_list_expand]), so N has one
      table of prime powers ([prime_power_table_unique], with
      [prime_factors_unique]); what the script prints is that table and
      does not depend on the random draws; the script raises only for
      N < 1; [to_dict] of [factorization] of a prime raises TypeError.
    - [Output]: the text.  [dict_repr] is the [repr] of a dict, [print]
      appends the newline, [script] is the script body as the text it
      writes to the standard output.  Theorems: the parser [dict_of_repr]
      inverts [dict_repr], so the printed line determines the
      factorisation; the script writes nothing on a prime and otherwise
      one line, the text of the table of prime powers; the script does
      not depend on the oracle instance ([script_oracle]); the run on 91
      writes "{7: 1, 13: 1}" and the run on 4 writes "{2: 2}".
    - [Run]: the script as it stands.  [script_N] is the number of line
      199 and [script_run] the script body on it.  The number is
      13 * 43 * 167 * 383 * 121188227 * 284923350497477
      ([script_table_spec]; [Primes] checks the factors).  Theorems:
      whatever is drawn, if the script writes anything it writes
      "{13: 1, 43: 1, 167: 1, 383: 1, 121188227: 1, 284923350497477: 1}"
      ([script_run_prints]); on the draws [script_draws], one search for
      each of the five splits, it does so with any fuel from 7 on
      ([script_run_lucky]); on the draws [curve_draws] four of the five
      searches run the loop on a curve, [factorization] returns the
      primes in the order in which src/main.py returns them on the same
      numbers ([factorization_curves]), and the script prints with any
      fuel from 34 on ([script_run_curves]).

    ** Integers, failure and fuel

    Python integers are unbounded: they are [Z] and nothing is truncated.
    The one place with machine integers is the primality test of
    [Primes], which is not code of the program but an instance of its
    oracle: below 2^60 a candidate divisor d keeps (d - 2)^2 <= n, so
    d < 2^31 and neither d * d nor d + 2 reaches 2^63; the loop is
    structured by depth (depth k runs 2^k candidates), [machine_depth]
    = 29 reaches every odd number up to 2^30, the square root of the
    bound, and the loop on [Z] gets depth log2 n, which covers the
    square root of n.
    [%] and [//] are Python's floor operations, which agree with [Z.modulo]
    and [Z.div] except for a zero divisor, where Python raises; the model
    raises too.  Loops whose trip count the source fixes ([for] over
    [range(m - 1)] and over [enumerate]) are structural recursions and
    need no fuel.  Three things are unbounded in the source, because
    termination is probabilistic: the loop [while E.div == 1] of
    [lenstra], the loop [while div == N] of [factorization], and the
    recursion of [factorization] through [get_next].  [lenstra_loop] takes
    the number of iterations allowed; [factorization fuel] allows
    recursion depth [fuel], and gives [fuel - 1] to each search and to
    the retry loop beneath it; beyond the bound the answer is [OutOfFuel].
    One number is enough because every bound only has to be large
    enough: results are monotone in the fuel ([fuel_mono],
    [lenstra_fuel_mono], [factorization_fuel_le]).  No theorem confuses
    the two readings: partial statements are written with
    [... = Ret _ -> ...] or [wlp], and statements that a result is
    produced exhibit the fuel ([lenstra_91_returns_7]: fuel 7 on that
    input, for six iterations with the multipliers 2 to 7 and the test
    that leaves the loop; [factorization_91] and [script_91]: fuel 9;
    [factorization_twice_prime]: fuel 3; [script_run_lucky]: fuel 7,
    the depth of the five splits plus the searches beneath them;
    [script_run_curves]: fuel 34, the least with which that run ends)
    and hold for every larger fuel, or are stated with [wp], which is
    false on [OutOfFuel] ([lenstra_even_returns]).
    [search_modulus_1_diverges] and [factorization_modulus_1_diverges]
    show that for N = 1 no fuel is enough, whatever is drawn.  For the
    other inputs the end depends on the draws: [Termination] exhibits
    draws on which the driver returns (the fuel it needs is the depth of
    the splitting, found by the induction) and a source on which no fuel
    is enough.  That the program terminates with probability 1 on a
    composite N is a statement about the distribution of the draws and is
    not stated.

    ** Not modelled

    The generator behind [random.randint] and the algorithm of
    [sympy.isprime] (libraries, consumed through their contracts, the
    classes of [Oracles]; [Primes] gives the oracle an executable
    instance, not sympy's algorithm); the import of [numpy], which the
    program never uses.  The run of the script on the number of line 199
    is stated for chosen draws and for every exact oracle; which draws a
    seeded generator produces, and so how long the program as shipped
    runs, is outside the model.  [Point_of_repr], [dict_of_repr] and
    [int_of_str] are not code of the program: they are the readers with
    which the round trips of its printers are stated.  Python's
    built-ins ([pow], [math.gcd], [%], [//], [bin], [set], [sorted],
    [dict], [list.count], [repr], [str], [print]) are not code of the
    program either: they are modelled from their documented contracts,
    and the lemmas that are about them alone (those of [Text] and
    [Dict], the round trip of [dict_repr]) validate these models, not
    the program.  The same holds of [lenstra_loop_refines_steps], which
    relates the two presentations of the loop, the fuel-indexed command
    and the transition system.  The proofs of
    [Primes] and [Run] evaluate the machine loop and so rest on the
    Standard Library's axioms for the kernel's 63-bit integers. *)

From Stdlib Require Import ZArith Lia Morphisms.
From stdpp Require Import base tactics option list.

Declare Scope py_scope.
Delimit Scope py_scope with py.

(** ** Python exceptions and outcomes *)

Inductive exn : Type :=
| ValueError
| ZeroDivisionError
| TypeError
| IndexError.

#[export] Instance exn_eq_dec : EqDecision exn.
Proof. solve_decision. Defined.

Inductive outcome (A : Type) : Type :=
| Ret (a : A)
| Raise (e : exn)
| OutOfFuel.

Arguments Ret {A} a.
Arguments Raise {A} e.
Arguments OutOfFuel {A}.

(** ** Commands over a mutable object of type [S] *)

Definition cmd (S A : Type) : Type := S -> outcome (A * S).

Definition ret {S A : Type} (a : A) : cmd S A :=
  fun s => Ret (a, s).

Definition bind {S A B : Type} (c : cmd S A) (k : A -> cmd S B) : cmd S B :=
  fun s =>
    match c s with
    | Ret (a, s') => k a s'
    | Raise e => Raise e
    | OutOfFuel => OutOfFuel
    end.

Definition get {S : Type} : cmd S S :=
  fun s => Ret (s, s).

Definition put {S : Type} (s : S) : cmd S unit :=
  fun _ => Ret (tt, s).

Definition raise {S A : Type} (e : exn) : cmd S A :=
  fun _ => Raise e.

Definition out_of_fuel {S A : Type} : cmd S A :=
  fun _ => OutOfFuel.

(** A pure computation that may raise, run inside a command. *)
Definition lift {S A : Type} (o : outcome A) : cmd S A :=
  fun s =>
    match o with
    | Ret a => Ret (a, s)
    | Raise e => Raise e
    | OutOfFuel => OutOfFuel
    end.

Notation "x <- c ;; k" := (bind c (fun x => k))
  (at level 100, c at next level, right associativity) : py_scope.
Notation "c ;; k" := (bind c (fun _ => k))
  (at level 100, right associativity) : py_scope.

(** ** Predicate transformers

    [wpg F c Q s]: running [c] from [s] returns a value and a state that
    satisfy [Q]; an exception falsifies it; running out of fuel gives [F]. *)

Definition wpg {S A : Type} (F : Prop) (c : cmd S A) (Q : A -> S -> Prop)
  (s : S) : Prop :=
  match c s with
  | Ret (a, s') => Q a s'
  | Raise _ => False
  | OutOfFuel => F
  end.

Abbreviation wp := (wpg False).
Abbreviation wlp := (wpg True).

(** The command returns the value [a] in state [s']. *)
Definition returns {S A : Type} (c : cmd S A) (s : S) (a : A) (s' : S) : Prop :=
  c s = Ret (a, s').

(** The command raises [e]. *)
Definition raises {S A : Type} (c : cmd S A) (s : S) (e : exn) : Prop :=
  c s = Raise e.

Create HintDb wp discriminated.
Create HintDb lenstra discriminated.

(** ** Tactics *)

(** Case analysis on the test of the first [if] or [match] of the goal,
    keeping the equation. *)
Ltac case_test :=
  match goal with
  | |- context [if ?b then _ else _] =>
      let E := fresh "Hguard" in destruct b eqn:E
  | |- context [match ?o with Some _ => _ | None => _ end] =>
      let E := fresh "Hopt" in destruct o eqn:E
  end.

(** ** Monad laws *)

Section Laws.
Context {S A B C : Type}.

Lemma bind_ret_l (a : A) (k : A -> cmd S B) (s : S) :
  bind (ret a) k s = k a s.
Proof. reflexivity. Qed.

Lemma bind_ret_r (c : cmd S A) (s : S) :
  bind c ret s = c s.
Proof. unfold bind, ret. destruct (c s) as [[a s']| |]; reflexivity. Qed.

Lemma bind_assoc (c : cmd S A) (k : A -> cmd S B) (h : B -> cmd S C) (s : S) :
  bind (bind c k) h s = bind c (fun a => bind (k a) h) s.
Proof. unfold bind. destruct (c s) as [[a s']| |]; reflexivity. Qed.

Lemma bind_lift_Ret (a : A) (k : A -> cmd S B) (s : S) :
  bind (lift (Ret a)) k s = k a s.
Proof. reflexivity. Qed.

Lemma bind_returns (c : cmd S A) (k : A -> cmd S B) s a s' :
  returns c s a s' -> bind c k s = k a s'.
Proof. unfold returns, bind. intros ->. reflexivity. Qed.

Lemma bind_raises (c : cmd S A) (k : A -> cmd S B) s e :
  raises c s e -> raises (bind c k) s e.
Proof. unfold raises, bind. intros ->. reflexivity. Qed.

End Laws.

(** ** Rules of the predicate transformer *)

Section Rules.
Context {S : Type} (F : Prop).

Lemma wpg_ret {A} (a : A) (Q : A -> S -> Prop) s :
  Q a s -> wpg F (ret a) Q s.
Proof. intros H. exact H. Qed.

Lemma wpg_bind {A B} (c : cmd S A) (k : A -> cmd S B) (Q : B -> S -> Prop) s :
  wpg F c (fun a s' => wpg F (k a) Q s') s -> wpg F (bind c k) Q s.
Proof. unfold wpg, bind. destruct (c s) as [[a s']| |]; auto. Qed.

Lemma wpg_get (Q : S -> S -> Prop) s :
  Q s s -> wpg F get Q s.
Proof. intros H. exact H. Qed.

Lemma wpg_put (Q : unit -> S -> Prop) s s' :
  Q tt s' -> wpg F (put s') Q s.
Proof. intros H. exact H. Qed.

Lemma wpg_lift_ret {A} (a : A) (Q : A -> S -> Prop) s :
  Q a s -> wpg F (lift (Ret a)) Q s.
Proof. intros H. exact H. Qed.

Lemma wpg_out_of_fuel {A} (Q : A -> S -> Prop) s :
  F -> wpg F out_of_fuel Q s.
Proof. intros H. exact H. Qed.

Lemma wpg_mono {A} (c : cmd S A) (Q Q' : A -> S -> Prop) s :
  (forall a s', Q a s' -> Q' a s') -> wpg F c Q s -> wpg F c Q' s.
Proof. unfold wpg. destruct (c s) as [[a s']| |]; auto. Qed.

Lemma wpg_conj {A} (c : cmd S A) (Q Q' : A -> S -> Prop) s :
  wpg F c Q s -> wpg F c Q' s -> wpg F c (fun a s' => Q a s' /\ Q' a s') s.
Proof. unfold wpg. destruct (c s) as [[a s']| |]; auto. Qed.

Lemma wpg_returns {A} (c : cmd S A) (Q : A -> S -> Prop) s a s' :
  wpg F c Q s -> returns c s a s' -> Q a s'.
Proof. unfold wpg, returns. intros H E. rewrite E in H. exact H. Qed.

Lemma wpg_not_raises {A} (c : cmd S A) (Q : A -> S -> Prop) s e :
  wpg F c Q s -> ~ raises c s e.
Proof. unfold wpg, raises. intros H E. rewrite E in H. exact H. Qed.

End Rules.

(** [wp] is [wlp] plus termination within the fuel. *)
Lemma wp_wlp {S A} (c : cmd S A) (Q : A -> S -> Prop) s :
  wp c Q s -> wlp c Q s.
Proof. unfold wpg. destruct (c s) as [[a s']| |]; auto. Qed.

Lemma wp_iff_returns {S A} (c : cmd S A) (Q : A -> S -> Prop) s :
  wp c Q s <-> exists a s', returns c s a s' /\ Q a s'.
Proof.
  unfold wpg, returns. destruct (c s) as [[a s']| |]; split.
  - eauto.
  - intros (a0 & s0 & E & HQ). by simplify_eq.
  - intros [].
  - intros (? & ? & ? & ?). discriminate.
  - intros [].
  - intros (? & ? & ? & ?). discriminate.
Qed.

(** Postconditions may be weakened under [wpg]: setoid rewriting with
    pointwise implication. *)
#[export] Instance wpg_proper {S A} (F : Prop) (c : cmd S A) :
  Proper (pointwise_relation A (pointwise_relation S impl) ==> eq ==> impl)
    (wpg F c).
Proof.
  intros Q Q' HQ s ? <- H. eapply wpg_mono; [|exact H].
  intros a s' HQa. exact (HQ a s' HQa).
Qed.

#[export] Hint Resolve wpg_ret wpg_get wpg_put wpg_lift_ret : wp.

(** One rule of the transformer, syntax directed. *)
Ltac wp_step :=
  first
    [ apply wpg_bind
    | apply wpg_ret
    | apply wpg_get
    | apply wpg_put
    | apply wpg_lift_ret ].

Ltac wp_auto := repeat wp_step; simpl.

(** ** Fuel

    A fuel-indexed command is monotone when more fuel never changes a
    result it has already given. *)

Definition fuel_mono {S A : Type} (f : nat -> cmd S A) : Prop :=
  forall n m s a s', (n <= m)%nat -> f n s = Ret (a, s') -> f m s = Ret (a, s').

Section Fuel.
Context {S A B : Type}.

Lemma bind_inv_Ret (c : cmd S A) (k : A -> cmd S B) s b s2 :
  bind c k s = Ret (b, s2) ->
  exists a s1, c s = Ret (a, s1) /\ k a s1 = Ret (b, s2).
Proof. unfold bind. destruct (c s) as [[a s1]| |]; [eauto|done..]. Qed.

(** A command that is monotone step by step is monotone. *)
Lemma fuel_mono_S (f : nat -> cmd S A) :
  (forall n s a s', f n s = Ret (a, s') -> f (Datatypes.S n) s = Ret (a, s')) ->
  fuel_mono f.
Proof. intros Hstep n m s a s' Hle. induction Hle; auto. Qed.

Lemma fuel_mono_const (c : cmd S A) : fuel_mono (fun _ => c).
Proof. by intros n m s a s' _. Qed.

Lemma fuel_mono_bind (f : nat -> cmd S A) (k : nat -> A -> cmd S B) :
  fuel_mono f -> (forall a, fuel_mono (fun n => k n a)) ->
  fuel_mono (fun n => bind (f n) (k n)).
Proof.
  intros Hf Hk n m s b s2 Hle (a & s1 & Hc & Hka)%bind_inv_Ret.
  rewrite (bind_returns _ _ _ _ _ (Hf n m s a s1 Hle Hc)).
  by apply (Hk a n m).
Qed.

Lemma bind_ext (c : cmd S A) (k k' : A -> cmd S B) s :
  (forall a s', k a s' = k' a s') -> bind c k s = bind c k' s.
Proof. unfold bind. destruct (c s) as [[a s']| |]; auto. Qed.

(** Two continuations that agree on what the first command can return
    give the same command. *)
Lemma bind_ext_wlp (c : cmd S A) (k k' : A -> cmd S B) (Q : A -> S -> Prop) s :
  wlp c Q s -> (forall a s', Q a s' -> k a s' = k' a s') ->
  bind c k s = bind c k' s.
Proof. unfold wpg, bind. destruct (c s) as [[a s']| |]; auto. Qed.

End Fuel.

(** ** Generic lemmas on lists and options *)

Section Lists.
Context {A : Type}.

Lemma last_app_singleton (l : list A) (a : A) : last (l ++ [a]) = Some a.
Proof. apply last_snoc. Qed.

Lemma last_is_Some (l : list A) : l <> [] -> is_Some (last l).
Proof.
  intros H. destruct l as [|a l] using rev_ind; [done|].
  rewrite last_snoc. eauto.
Qed.

Lemma lookup_snoc_length (l : list A) (a : A) : (l ++ [a]) !! length l = Some a.
Proof. rewrite lookup_app_r by lia. by rewrite Nat.sub_diag. Qed.

(** A filter that keeps everything, and one that keeps nothing. *)
Lemma filter_Forall_id (P : A -> Prop) `{!forall a, Decision (P a)} (l : list A) :
  Forall P l -> filter P l = l.
Proof.
  induction 1 as [|a l Ha Hl IH]; [done|].
  by rewrite filter_cons_True, IH.
Qed.

Lemma filter_Forall_nil (P : A -> Prop) `{!forall a, Decision (P a)} (l : list A) :
  Forall (fun a => ~ P a) l -> filter P l = [].
Proof.
  induction 1 as [|a l Ha Hl IH]; [done|].
  by rewrite filter_cons_False.
Qed.

End Lists.
