(* ===== verification/Text.v ===== *)
(** * Text: Python's conversion of integers to text, and tools to read text

    [int_str] is [str(n)] on an [int], the conversion that an f-string
    applies to an integer field and that the [repr] of a dict applies to
    its keys and values: decimal digits, a leading "-" for a negative
    number, no leading zeros.  [int_of_str] reads such text back.  The
    rest is what the parsers of [Points] and [Report] share: removing a
    prefix, splitting at a character, and the fact that the text of an
    integer holds only digits and "-". *)

From Stdlib Require Import ZArith String Ascii Decimal DecimalString DecimalZ
  DecimalPos Lia.
From stdpp Require Import base tactics option list strings.
From S2P Require Import Prelude.

Local Open Scope Z_scope.

(** ** Definitions *)

(** [str(n)]. *)
Definition int_str (n : Z) : string := NilZero.string_of_int (Z.to_int n).

(** The integer that a decimal text denotes, if it is one. *)
Definition int_of_str (s : string) : option Z :=
  Z.of_int <$> NilZero.int_of_string s.

(** [s.removeprefix(p)], with [None] when [p] is not a prefix of [s]. *)
Fixpoint strip_prefix (p s : string) : option string :=
  match p, s with
  | EmptyString, _ => Some s
  | String a p', String b s' => if decide (a = b) then strip_prefix p' s' else None
  | String _ _, EmptyString => None
  end.

(** [s.partition(c)]: the text before the first [c] and the text after it;
    [None] when [c] does not occur. *)
Fixpoint split_at (c : ascii) (s : string) : option (string * string) :=
  match s with
  | EmptyString => None
  | String a s' =>
      if decide (a = c) then Some (EmptyString, s')
      else '(l, r) ← split_at c s'; Some (String a l, r)
  end.

(** [s.split(c)]. *)
Fixpoint split_all (c : ascii) (s : string) : list string :=
  match s with
  | EmptyString => [EmptyString]
  | String a s' =>
      if decide (a = c) then EmptyString :: split_all c s'
      else match split_all c s' with
           | h :: t => String a h :: t
           | [] => [String a EmptyString]
           end
  end.

(** [sep.join(l)]. *)
Fixpoint join (sep : string) (l : list string) : string :=
  match l with
  | [] => EmptyString
  | [s] => s
  | s :: l' => s +:+ sep +:+ join sep l'
  end.

(** The character [c] does not occur in [s]. *)
Fixpoint absent (c : ascii) (s : string) : Prop :=
  match s with
  | EmptyString => True
  | String a s' => a <> c /\ absent c s'
  end.

(** The characters of the text of an integer. *)
Definition int_char (c : ascii) : Prop :=
  c ∈ ["0"; "1"; "2"; "3"; "4"; "5"; "6"; "7"; "8"; "9"; "-"]%char.

(** Every character of [s] satisfies [P]. *)
Fixpoint all_chars (P : ascii -> Prop) (s : string) : Prop :=
  match s with
  | EmptyString => True
  | String a s' => P a /\ all_chars P s'
  end.

(** ** Strings *)

Lemma append_nil_l (s : string) : EmptyString +:+ s = s.
Proof. reflexivity. Qed.

Lemma append_cons (a : ascii) (s1 s2 : string) :
  String a s1 +:+ s2 = String a (s1 +:+ s2).
Proof. reflexivity. Qed.

Lemma append_assoc (s1 s2 s3 : string) : (s1 +:+ s2) +:+ s3 = s1 +:+ (s2 +:+ s3).
Proof.
  induction s1 as [|a s1 IH]; [done|]. by rewrite !append_cons, IH.
Qed.

Lemma join_cons (sep s t : string) (l : list string) :
  join sep (s :: t :: l) = s +:+ sep +:+ join sep (t :: l).
Proof. reflexivity. Qed.

Lemma strip_prefix_app (p s : string) : strip_prefix p (p +:+ s) = Some s.
Proof.
  induction p as [|a p IH]; [by rewrite append_nil_l|].
  rewrite append_cons. cbn. by rewrite decide_True.
Qed.

Lemma all_chars_absent (P : ascii -> Prop) (c : ascii) (s : string) :
  ~ P c -> all_chars P s -> absent c s.
Proof.
  intros Hc. induction s as [|a s IH]; [done|]. intros [Ha Hs].
  split; [by intros ->|by apply IH].
Qed.

Lemma absent_app (c : ascii) (s1 s2 : string) :
  absent c (s1 +:+ s2) <-> absent c s1 /\ absent c s2.
Proof.
  induction s1 as [|a s1 IH]; [rewrite append_nil_l; cbn; tauto|].
  rewrite append_cons. cbn. rewrite IH. tauto.
Qed.

Lemma split_at_app (c : ascii) (s1 s2 : string) :
  absent c s1 -> split_at c (s1 +:+ String c s2) = Some (s1, s2).
Proof.
  induction s1 as [|a s1 IH];
    [intros _; rewrite append_nil_l; cbn; by rewrite decide_True|].
  intros [Ha Hs]. rewrite append_cons. cbn.
  rewrite decide_False by done. by rewrite IH.
Qed.

Lemma split_at_app_sep (c : ascii) (s1 sep s2 : string) :
  absent c s1 -> split_at c (s1 +:+ String c sep +:+ s2) = Some (s1, sep +:+ s2).
Proof. intros Hs. rewrite append_cons. by apply split_at_app. Qed.

Lemma split_all_absent (c : ascii) (s : string) :
  absent c s -> split_all c s = [s].
Proof.
  induction s as [|a s IH]; [done|]. intros [Ha Hs]. cbn.
  rewrite decide_False by done. by rewrite IH.
Qed.

Lemma split_all_app (c : ascii) (s1 s2 : string) :
  absent c s1 -> split_all c (s1 +:+ String c s2) = s1 :: split_all c s2.
Proof.
  induction s1 as [|a s1 IH];
    [intros _; rewrite append_nil_l; cbn; by rewrite decide_True|].
  intros [Ha Hs]. rewrite append_cons. cbn.
  rewrite decide_False by done. by rewrite IH.
Qed.

(** ** The text of an integer *)

(** Decides a closed statement on characters. *)
Ltac solve_char := apply (bool_decide_unpack _); vm_compute; exact I.

Lemma string_of_uint_chars (d : uint) :
  all_chars int_char (NilEmpty.string_of_uint d).
Proof. induction d; cbn; [done|split; [solve_char|done]..]. Qed.

Lemma int_str_chars (n : Z) : all_chars int_char (int_str n).
Proof.
  assert (Hu : forall d, all_chars int_char (NilZero.string_of_uint d)).
  { intros d. pose proof (string_of_uint_chars d).
    destruct d; [split; [solve_char|done]|done..]. }
  unfold int_str. destruct (Z.to_int n) as [d|d]; cbn; [done|].
  split; [solve_char|done].
Qed.

Lemma int_str_absent (c : ascii) (n : Z) : ~ int_char c -> absent c (int_str n).
Proof. intros Hc. eapply all_chars_absent; [done|apply int_str_chars]. Qed.

(** Reading the text of an integer gives the integer. *)
Lemma int_of_str_int_str (n : Z) : int_of_str (int_str n) = Some n.
Proof.
  unfold int_of_str, int_str. rewrite NilZero.isi.
  - cbn. by rewrite DecimalZ.of_to.
  - destruct n; cbn; [done| |done]. intros [= E]. by apply Unsigned.to_uint_nonnil in E.
  - destruct n; cbn; [done|done|]. intros [= E]. by apply Unsigned.to_uint_nonnil in E.
Qed.

#[export] Instance int_str_inj : Inj (=) (=) int_str.
Proof.
  intros n m E. apply (f_equal int_of_str) in E.
  rewrite !int_of_str_int_str in E. by injection E.
Qed.

Lemma int_str_nonempty (n : Z) : int_str n <> EmptyString.
Proof.
  intros E. pose proof (int_of_str_int_str n) as H. by rewrite E in H.
Qed.
