(* ===== verification/ModInt.v ===== *)
(** * ModInt: Python's integer operations as the program uses them

    [py_mod] and [py_floordiv] are [%] and [//] on unbounded integers,
    [math_gcd] is [math.gcd], [inverse] is the function of src/main.py
    line 7, [pow(a, -1, n)].  The second half relates congruence modulo N
    ([cong N]) to divisibility, and proves what the curve
    arithmetic needs of the inverse: it is an inverse, it is reduced, it is
    unique, and it commutes with negation up to congruence. *)

From Stdlib Require Import ZArith Zdiv Znumtheory Zdivisibility Zcong Lia Morphisms.
From stdpp Require Import base tactics.
From S2P Require Import Prelude.

Local Open Scope Z_scope.

(** ** Definitions *)

(** [a % n]: the remainder with the sign of [n]; ZeroDivisionError on 0. *)
Definition py_mod (a n : Z) : outcome Z :=
  if decide (n = 0) then Raise ZeroDivisionError else Ret (a mod n).

(** [a // n]: floor division; ZeroDivisionError on 0. *)
Definition py_floordiv (a n : Z) : outcome Z :=
  if decide (n = 0) then Raise ZeroDivisionError else Ret (a / n).

(** [math.gcd(a, b)]: the non-negative greatest common divisor. *)
Definition math_gcd (a b : Z) : Z := Z.gcd a b.

(** [pow(a, -1, n)]: ValueError when [n] is 0 and when [a] is not
    invertible modulo [n]; otherwise the inverse reduced modulo [n], with
    the sign of [n]. *)
Definition inverse (a n : Z) : outcome Z :=
  if decide (n = 0) then Raise ValueError
  else if decide (math_gcd a n = 1) then Ret (Z.invmod a n)
  else Raise ValueError.

(** [reduced n r]: [r] is a remainder modulo [n] as Python's [%] gives it. *)
Definition reduced (n r : Z) : Prop :=
  (0 < n -> 0 <= r < n) /\ (n < 0 -> n < r <= 0).

(** Congruence modulo [N]: [a % N == b % N] without the exception, so that
    it is an equivalence for every [N] (equality when [N] is 0). *)
Definition cong (N a b : Z) : Prop := a mod N = b mod N.

Notation "a ≡[ N ] b" := (cong N a b)
  (at level 70, no associativity) : py_scope.

Local Open Scope py_scope.

#[export] Instance cong_equivalence N : Equivalence (cong N).
Proof. unfold cong. split; red; intros; congruence. Qed.

#[export] Instance cong_add N : Proper (cong N ==> cong N ==> cong N) Z.add.
Proof.
  unfold cong. intros a a' Ha b b' Hb.
  by rewrite Zplus_mod, Ha, Hb, <- Zplus_mod.
Qed.

#[export] Instance cong_mul N : Proper (cong N ==> cong N ==> cong N) Z.mul.
Proof.
  unfold cong. intros a a' Ha b b' Hb.
  by rewrite Zmult_mod, Ha, Hb, <- Zmult_mod.
Qed.

#[export] Instance cong_opp N : Proper (cong N ==> cong N) Z.opp.
Proof.
  intros a a' Ha. rewrite <- (Z.mul_1_l a), <- (Z.mul_1_l a'), <- !Z.mul_opp_l.
  by rewrite Ha.
Qed.

#[export] Instance cong_sub N : Proper (cong N ==> cong N ==> cong N) Z.sub.
Proof. intros a a' Ha b b' Hb. rewrite <- !Z.add_opp_r. by rewrite Ha, Hb. Qed.

(** ** Congruence and divisibility *)

Section Congruence.
Context (N : Z).

Lemma cong_divide (a b : Z) : a ≡[N] b <-> (N | a - b).
Proof. unfold cong. rewrite Z.cong_iff_ex. reflexivity. Qed.

Lemma cong_of_eq_add (a b k : Z) : a = b + k * N -> a ≡[N] b.
Proof. intros ->. apply cong_divide. exists k. ring. Qed.

Lemma cong_mod_l (a : Z) : a mod N ≡[N] a.
Proof. unfold cong. apply Zmod_mod. Qed.

Lemma cong_0_divide (a : Z) : a ≡[N] 0 <-> (N | a).
Proof. rewrite cong_divide. by rewrite Z.sub_0_r. Qed.

Lemma cong_sub_0 (a b : Z) : a ≡[N] b <-> a - b ≡[N] 0.
Proof. by rewrite cong_0_divide, cong_divide. Qed.

Lemma cong_residual (a b : Z) : a ≡[N] b -> a - b ≡[N] 0.
Proof. apply cong_sub_0. Qed.

Lemma cong_of_residual (a b : Z) : a - b ≡[N] 0 -> a ≡[N] b.
Proof. apply cong_sub_0. Qed.

Lemma cong_mod_eq (a b : Z) : a ≡[N] b -> a mod N = b mod N.
Proof. intros H. exact H. Qed.

(** A unit may be cancelled: if [d] has an inverse [i] then [d * u == 0]
    forces [u == 0]. *)
Lemma cong_unit_cancel (d i u : Z) :
  d * i ≡[N] 1 -> d * u ≡[N] 0 -> u ≡[N] 0.
Proof.
  intros Hi Hu.
  assert (E : u ≡[N] i * (d * u)).
  { replace (i * (d * u)) with ((d * i) * u) by ring. rewrite Hi.
    by rewrite Z.mul_1_l. }
  rewrite E, Hu. by rewrite Z.mul_0_r.
Qed.

Lemma cong_inverse_unique (d i j : Z) :
  d * i ≡[N] 1 -> d * j ≡[N] 1 -> i ≡[N] j.
Proof.
  intros Hi Hj. apply cong_of_residual. apply (cong_unit_cancel d i); [done|].
  replace (d * (i - j)) with (d * i - d * j) by ring.
  rewrite Hi, Hj. reflexivity.
Qed.

Lemma cong_eq (a b : Z) : a = b -> a ≡[N] b.
Proof. by intros ->. Qed.

(** A combination of terms that vanish modulo [N] vanishes: the form in
    which the polynomial identities of the curve formulas are used. *)
Lemma cong_lin3 (u1 u2 u3 c1 c2 c3 t : Z) :
  u1 ≡[N] 0 -> u2 ≡[N] 0 -> u3 ≡[N] 0 ->
  t = c1 * u1 + c2 * u2 + c3 * u3 -> t ≡[N] 0.
Proof. intros H1 H2 H3 ->. rewrite H1, H2, H3. by apply cong_eq; ring. Qed.

Lemma cong_lin2 (u1 u2 c1 c2 t : Z) :
  u1 ≡[N] 0 -> u2 ≡[N] 0 -> t = c1 * u1 + c2 * u2 -> t ≡[N] 0.
Proof.
  intros H1 H2 ->. apply (cong_lin3 u1 u2 0 c1 c2 0); [done..|ring].
Qed.

Lemma reduced_mod (a : Z) : N <> 0 -> reduced N (a mod N).
Proof.
  intros HN. split; intros H.
  - by apply Z.mod_pos_bound.
  - by apply Z.mod_neg_bound.
Qed.

Lemma reduced_cong_eq (r r' : Z) :
  reduced N r -> reduced N r' -> r ≡[N] r' -> r = r'.
Proof.
  intros [Hp Hn] [Hp' Hn'] H. unfold cong in H.
  destruct (decide (N = 0)) as [->|HN]; [by rewrite !Z.mod_0_r in H|].
  assert (Hr : r mod N = r) by (apply Z.mod_small_iff; lia).
  assert (Hr' : r' mod N = r') by (apply Z.mod_small_iff; lia).
  congruence.
Qed.

End Congruence.

(** ** gcd as the program uses it *)

Lemma math_gcd_divide_r (a n : Z) : (math_gcd a n | n).
Proof. apply Z.gcd_divide_r. Qed.

Lemma math_gcd_nonneg (a n : Z) : 0 <= math_gcd a n.
Proof. apply Z.gcd_nonneg. Qed.

Lemma math_gcd_opp_l (a n : Z) : math_gcd (- a) n = math_gcd a n.
Proof. apply Z.gcd_opp_l. Qed.

Lemma math_gcd_0_l (n : Z) : math_gcd 0 n = Z.abs n.
Proof. apply Z.gcd_0_l. Qed.

(** A gcd with [n] that is not 1 is a divisor of [n] in [2 .. |n|], or is 0
    when [n] is 0. *)
Lemma math_gcd_bounds (a n : Z) :
  n <> 0 -> math_gcd a n <> 1 -> 1 < math_gcd a n <= Z.abs n.
Proof.
  intros Hn H1. pose proof (math_gcd_nonneg a n) as H0.
  pose proof (math_gcd_divide_r a n) as Hd.
  assert (math_gcd a n <> 0).
  { intros E. apply Z.gcd_eq_0_r in E. done. }
  split; [lia|].
  apply Z.divide_abs_r in Hd. apply Z.divide_pos_le in Hd; lia.
Qed.

#[export] Hint Resolve math_gcd_divide_r math_gcd_nonneg : lenstra.

(** ** The modular inverse *)

Lemma inverse_Ret_iff (a n i : Z) :
  inverse a n = Ret i <-> n <> 0 /\ math_gcd a n = 1 /\ i = Z.invmod a n.
Proof.
  unfold inverse. repeat case_decide; split; try naive_solver.
Qed.

Lemma inverse_coprime (a n : Z) :
  n <> 0 -> math_gcd a n = 1 -> inverse a n = Ret (Z.invmod a n).
Proof. intros. by apply inverse_Ret_iff. Qed.

Lemma inverse_zero (a : Z) : inverse a 0 = Raise ValueError.
Proof. reflexivity. Qed.

Lemma py_mod_nonzero (a n : Z) : n <> 0 -> py_mod a n = Ret (a mod n).
Proof. intros H. unfold py_mod. by rewrite decide_False. Qed.

Lemma py_floordiv_nonzero (a n : Z) : n <> 0 -> py_floordiv a n = Ret (a / n).
Proof. intros H. unfold py_floordiv. by rewrite decide_False. Qed.

Lemma py_mod_zero (a : Z) : py_mod a 0 = Raise ZeroDivisionError.
Proof. reflexivity. Qed.

Lemma inverse_Raise_iff (a n : Z) (e : exn) :
  inverse a n = Raise e <-> e = ValueError /\ (n = 0 \/ math_gcd a n <> 1).
Proof.
  unfold inverse. repeat case_decide; split; try naive_solver.
Qed.

Lemma inverse_not_OutOfFuel (a n : Z) : inverse a n <> OutOfFuel.
Proof. unfold inverse. by repeat case_decide. Qed.

Lemma invmod_cong (a n : Z) : math_gcd a n = 1 -> a * Z.invmod a n ≡[n] 1.
Proof.
  intros H. unfold cong. rewrite Z.mul_comm. by apply Z.invmod_coprime'.
Qed.

Lemma invmod_reduced (a n : Z) : n <> 0 -> reduced n (Z.invmod a n).
Proof. intros H. rewrite <- Z.mod_invmod. by apply reduced_mod. Qed.

Lemma invmod_opp_cong (a n : Z) :
  math_gcd a n = 1 -> Z.invmod (- a) n ≡[n] - Z.invmod a n.
Proof.
  intros H. apply (cong_inverse_unique n (- a)).
  - apply invmod_cong. by rewrite math_gcd_opp_l.
  - replace (- a * - Z.invmod a n) with (a * Z.invmod a n) by ring.
    by apply invmod_cong.
Qed.

(** An element with an inverse modulo [n] is coprime to [n]. *)
Lemma unit_coprime (a j n : Z) : a * j ≡[n] 1 -> math_gcd a n = 1.
Proof.
  intros Hj%cong_divide. unfold math_gcd.
  apply Z.gcd_unique; [lia|apply Z.divide_1_l..|].
  intros q Ha Hn. replace 1 with (a * j - (a * j - 1)) by ring.
  apply Z.divide_sub_r; [by apply Z.divide_mul_l|by apply (Z.divide_trans _ n)].
Qed.

(** ** Theorems *)

(** C9. [inverse(a, n)], every outcome.  It returns exactly when [n] is not
    0 and [a] has an inverse modulo [n]; what it returns is the inverse
    that is a remainder modulo [n] (in [0, n) for a positive [n], with the
    sign of [n] otherwise), and it is the only one.  It raises ValueError
    exactly when [n] is 0 or [a] shares a factor with [n], and then, for
    [n] other than 0, no inverse exists. *)
Theorem inverse_correct (a n : Z) :
  match inverse a n with
  | Ret i =>
      n <> 0 /\ reduced n i /\ a * i ≡[n] 1 /\
      forall j, reduced n j -> a * j ≡[n] 1 -> j = i
  | Raise e =>
      e = ValueError /\ (n = 0 \/ math_gcd a n <> 1) /\
      (n <> 0 -> forall j, ~ a * j ≡[n] 1)
  | OutOfFuel => False
  end.
Proof.
  unfold inverse. case_decide as Hn.
  { split_and!; [done|by left|done]. }
  case_decide as Hg.
  - pose proof (invmod_cong a n Hg) as Hi.
    split_and!; [done|by apply invmod_reduced|done|].
    intros j Hj Haj. apply (reduced_cong_eq n); [done|by apply invmod_reduced|].
    by apply (cong_inverse_unique n a).
  - split_and!; [done|by right|]. intros _ j Hj. by apply Hg, (unit_coprime a j).
Qed.

Lemma inverse_correct_witness :
  (inverse 3 7 = Ret 5 /\ forall j, reduced 7 j -> 3 * j ≡[7] 1 -> j = 5) /\
  (inverse 2 4 = Raise ValueError /\ forall j, ~ 2 * j ≡[4] 1).
Proof.
  split; (split; [reflexivity|]).
  - exact (proj2 (proj2 (proj2 (inverse_correct 3 7)))).
  - exact (proj2 (proj2 (inverse_correct 2 4)) ltac:(lia)).
Defined.
