(* ===== verification/Points.v ===== *)
(** * Points: the class [Point] of src/main.py

    A point is a pair of integers; Python's [None] is [None] of
    [option Point].  [Point_eq] is the method [__eq__], whose first
    conjunct compares the types of its arguments and so answers [False]
    against [None]; [py_eq] is the operator [==] as the program applies it
    to values that may be [None]; [Point_repr] is the method [__repr__],
    and [Point_of_repr] reads its text back. *)

From Stdlib Require Import ZArith String Ascii Lia.
From stdpp Require Import base tactics option strings.
From S2P Require Import Prelude Text.

Local Open Scope Z_scope.

(** ** Definitions *)

(** [class Point] with [__init__(self, x, y)]. *)
Record Point : Type := mkPoint { x : Z; y : Z }.

#[export] Instance Point_eq_dec : EqDecision Point.
Proof. solve_decision. Defined.

(** [Point.__eq__(self, other)]:
    [type(self) == type(other) and self.x == other.x and self.y == other.y]. *)
Definition Point_eq (self : Point) (other : option Point) : bool :=
  match other with
  | Some o => bool_decide (x self = x o) && bool_decide (y self = y o)
  | None => false
  end.

(** [p == q] where either side may be [None]: a point dispatches to
    [__eq__]; [None == None] is true; [None == q] falls back on the
    reflected [q.__eq__(None)]. *)
Definition py_eq (p q : option Point) : bool :=
  match p, q with
  | Some s, _ => Point_eq s q
  | None, None => true
  | None, Some o => Point_eq o None
  end.

(** [Point.__repr__(self)]: [f"(x,y) = ({self.x}, {self.y})"]. *)
Definition Point_repr (self : Point) : string :=
  "(x,y) = (" +:+ int_str (x self) +:+ ", " +:+ int_str (y self) +:+ ")".

(** Reads the text of a point: the prefix, the first integer up to the
    comma, a space, the second integer up to the closing parenthesis, and
    nothing after it. *)
Definition Point_of_repr (s : string) : option Point :=
  s1 ← strip_prefix "(x,y) = (" s;
  '(sx, s2) ← split_at "," s1;
  s3 ← strip_prefix " " s2;
  '(sy, s4) ← split_at ")" s3;
  x0 ← int_of_str sx;
  y0 ← int_of_str sy;
  if decide (s4 = EmptyString) then Some (mkPoint x0 y0) else None.

(** ** Equality is structural *)

Lemma Point_eq_Some (s o : Point) : Point_eq s (Some o) = true <-> s = o.
Proof.
  destruct s as [sx sy], o as [ox oy]. simpl.
  rewrite andb_true_iff, !bool_decide_eq_true. naive_solver.
Qed.

Lemma Point_eq_refl (s : Point) : Point_eq s (Some s) = true.
Proof. by apply Point_eq_Some. Qed.

Lemma Point_eq_sym (s o : Point) : Point_eq s (Some o) = Point_eq o (Some s).
Proof.
  apply eq_true_iff_eq. rewrite !Point_eq_Some. naive_solver.
Qed.

Lemma Point_eq_None (s : Point) : Point_eq s None = false.
Proof. reflexivity. Qed.

Lemma py_eq_true (p q : option Point) : py_eq p q = true <-> p = q.
Proof.
  destruct p as [s|], q as [o|]; simpl; try (split; congruence).
  change (Point_eq s (Some o) = true <-> Some s = Some o).
  rewrite Point_eq_Some. naive_solver.
Qed.

Lemma py_eq_None_r (p : option Point) : py_eq p None = true <-> p = None.
Proof. by destruct p. Qed.

(** ** The text of a point *)

(** Reading the text that [__repr__] gives for a point returns the
    point: the text determines both coordinates, negative ones included. *)
Theorem Point_repr_roundtrip (p : Point) : Point_of_repr (Point_repr p) = Some p.
Proof.
  unfold Point_of_repr, Point_repr. rewrite strip_prefix_app. cbn [mbind option_bind].
  rewrite split_at_app_sep by (apply int_str_absent; solve_char).
  cbn [mbind option_bind]. rewrite strip_prefix_app. cbn [mbind option_bind].
  rewrite split_at_app by (apply int_str_absent; solve_char).
  cbn [mbind option_bind]. rewrite !int_of_str_int_str. cbn. by destruct p.
Qed.
