(* ===== verification/Curve.v ===== *)
(** * Curve: the class [EllipticCurve] of src/main.py, constructor and [sum]

    The object's fields are the record [EllipticCurve]; [a], [b] and [N] are
    written once by [__init__], [div] is the only field [sum] assigns.
    [sum] is a command over the object: it reads [N] and [a], may assign
    [div], and returns a point or [None]. *)

From Stdlib Require Import ZArith Lia Morphisms.
From stdpp Require Import base tactics option.
From S2P Require Import Prelude ModInt Points.

Local Open Scope Z_scope.
Local Open Scope py_scope.

(** ** Definitions *)

(** The fields of an [EllipticCurve] object. *)
Record EllipticCurve : Type := mkCurve { a : Z; b : Z; N : Z; div : Z }.

(** [EllipticCurve.__init__(self, a, b, N)]: [div] starts at 1. *)
Definition EllipticCurve_init (a0 b0 N0 : Z) : EllipticCurve :=
  {| a := a0; b := b0; N := N0; div := 1 |}.

(** The assignment [self.div = g]. *)
Definition set_div (g : Z) : cmd EllipticCurve unit :=
  fun self => Ret (tt, {| a := a self; b := b self; N := N self; div := g |}).

(** [EllipticCurve.sum(self, p, q)]. *)
Definition sum (p q : option Point) : cmd EllipticCurve (option Point) :=
  match p, q with
  | None, _ => ret q
  | Some _, None => ret p
  | Some P, Some Q =>
      self <- get ;;
      if Point_eq P q then
        if decide (math_gcd (2 * y P) (N self) <> 1) then
          set_div (math_gcd (2 * y P) (N self)) ;;
          ret None
        else
          i <- lift (inverse (2 * y P) (N self)) ;;
          let slope := (3 * x P * x P + a self) * i in
          x' <- lift (py_mod (slope * slope - 2 * x P) (N self)) ;;
          y' <- lift (py_mod (slope * (x P - x') - y P) (N self)) ;;
          ret (Some (mkPoint x' y'))
      else
        if decide (math_gcd (x Q - x P) (N self) <> 1) then
          set_div (math_gcd (x Q - x P) (N self)) ;;
          ret None
        else
          i <- lift (inverse (x Q - x P) (N self)) ;;
          let slope := (y Q - y P) * i in
          x3 <- lift (py_mod (slope * slope - x P - x Q) (N self)) ;;
          y3 <- lift (py_mod (slope * (x P - x3) - y P) (N self)) ;;
          ret (Some (mkPoint x3 y3))
  end.

(** ** Specification vocabulary *)

(** The point satisfies y^2 = x^3 + a x + b modulo N; [None] does. *)
Definition on_curve (E : EllipticCurve) (p : option Point) : Prop :=
  match p with
  | None => True
  | Some P => y P * y P ≡[N E] x P * x P * x P + a E * x P + b E
  end.

(** Both coordinates are remainders modulo N. *)
Definition reduced_point (E : EllipticCurve) (p : option Point) : Prop :=
  match p with
  | None => True
  | Some P => reduced (N E) (x P) /\ reduced (N E) (y P)
  end.

(** [E'] is [E] with possibly another [div]. *)
Definition same_params (E E' : EllipticCurve) : Prop :=
  a E' = a E /\ b E' = b E /\ N E' = N E.

(** The invariant of the [div] field: a non-negative divisor of N. *)
Definition div_ok (E : EllipticCurve) : Prop :=
  0 <= div E /\ (div E | N E).

(** What [sum] does on two points, as a function of the gcd test:
    [chord_tangent E P Q] is the denominator of the slope and its
    numerator. *)
Definition slope_den (P Q : Point) : Z :=
  if Point_eq P (Some Q) then 2 * y P else x Q - x P.

Definition slope_num (E : EllipticCurve) (P Q : Point) : Z :=
  if Point_eq P (Some Q) then 3 * x P * x P + a E else y Q - y P.

(** The reference result of an addition that does not fail. *)
Definition sum_point (E : EllipticCurve) (P Q : Point) : Point :=
  let slope := slope_num E P Q * Z.invmod (slope_den P Q) (N E) in
  let x3 := (slope * slope - x P - x Q) mod N E in
  {| x := x3; y := (slope * (x P - x3) - y P) mod N E |}.

(** The object after [self.div = g]. *)
Definition with_div (E : EllipticCurve) (g : Z) : EllipticCurve :=
  {| a := a E; b := b E; N := N E; div := g |}.

(** The object after an optional assignment to [div]. *)
Definition write (w : option Z) (E : EllipticCurve) : EllipticCurve :=
  match w with
  | Some g => with_div E g
  | None => E
  end.

(** Of two assignments in program order, the later one is the one seen. *)
Definition later (w1 w2 : option Z) : option Z :=
  match w2 with
  | Some _ => w2
  | None => w1
  end.

(** [sum] as a pure function of [a] and [N]: the value returned and the
    value assigned to [div], if any.  This is the tagged result the
    specification asks for: a point, the identity, or a failure carrying
    the gcd. *)
Definition sum_pure (E : EllipticCurve) (p q : option Point) :
  option Point * option Z :=
  match p, q with
  | None, _ => (q, None)
  | Some _, None => (p, None)
  | Some P, Some Q =>
      let g := math_gcd (slope_den P Q) (N E) in
      if decide (g <> 1) then (None, Some g)
      else (Some (sum_point E P Q), None)
  end.

(** A curve and a point of it used by the concrete instances below:
    y^2 = x^3 + 5 x + 82 over Z/91Z and the point (2, 3). *)
Definition E91 : EllipticCurve := EllipticCurve_init 5 82 91.
Definition P23 : Point := {| x := 2; y := 3 |}.

(** ** [sum] against its reference *)

Section SumRuns.
Context (E : EllipticCurve).

Lemma sum_None_l_run (q : option Point) : sum None q E = Ret (q, E).
Proof. reflexivity. Qed.

Lemma sum_None_r_run (p : option Point) : sum p None E = Ret (p, E).
Proof. by destruct p. Qed.

(** On two points [sum] is the gcd test followed by the reference formula;
    with a zero modulus the inverse raises. *)
Lemma sum_points_run (P Q : Point) :
  sum (Some P) (Some Q) E =
    if decide (math_gcd (slope_den P Q) (N E) <> 1)
    then Ret (None, with_div E (math_gcd (slope_den P Q) (N E)))
    else if decide (N E = 0) then Raise ValueError
    else Ret (Some (sum_point E P Q), E).
Proof.
  unfold sum, sum_point, slope_den, slope_num, bind, get.
  destruct (Point_eq P (Some Q)) eqn:HPQ;
    (case_decide as Hg; [reflexivity|]; case_decide as HN;
     [ by rewrite HN, inverse_zero
     | rewrite inverse_coprime by done; simpl;
       repeat (rewrite py_mod_nonzero by done; simpl) ]); [|reflexivity].
  apply Point_eq_Some in HPQ as <-.
  set (s := (3 * x P * x P + a E) * Z.invmod (2 * y P) (N E)).
  by replace (s * s - x P - x P) with (s * s - 2 * x P) by ring.
Qed.

End SumRuns.

(** ** Arithmetic of the chord and tangent formulas *)

Section Formulas.
Context (E : EllipticCurve) (P Q : Point).
Context (Hunit : math_gcd (slope_den P Q) (N E) = 1).

(** The inverse the code computes is an inverse of the denominator. *)
Lemma slope_den_inverse :
  slope_den P Q * Z.invmod (slope_den P Q) (N E) - 1 ≡[N E] 0.
Proof. apply cong_residual. by apply invmod_cong. Qed.

Lemma on_curve_residual (R : Point) :
  on_curve E (Some R) ->
  x R * x R * x R + a E * x R + b E - y R * y R ≡[N E] 0.
Proof. intros H. apply cong_residual. symmetry. exact H. Qed.

(** The result of a successful addition is on the curve. *)
Lemma sum_point_on_curve :
  on_curve E (Some P) -> on_curve E (Some Q) ->
  on_curve E (Some (sum_point E P Q)).
Proof.
  intros HP%on_curve_residual HQ%on_curve_residual.
  pose proof slope_den_inverse as Hi.
  unfold on_curve, sum_point. cbn [x y]. rewrite !cong_mod_l.
  apply cong_of_residual. revert Hi. unfold slope_den, slope_num.
  destruct (Point_eq P (Some Q)) eqn:HPQ; intros Hi.
  - apply Point_eq_Some in HPQ as <-.
    set (i := Z.invmod (2 * y P) (N E)) in *.
    set (s := (3 * x P * x P + a E) * i).
    apply (cong_lin2 _ _ _ (-1)
             ((3 * x P * x P + a E) * (s * s - x P - x P - x P)) _ HP Hi).
    subst s. ring.
  - set (d := x Q - x P) in *. set (i := Z.invmod d (N E)) in *.
    set (s := (y Q - y P) * i).
    apply (cong_unit_cancel (N E) d i); [by apply cong_of_residual|].
    set (X := s * s - x P - x Q).
    apply (cong_lin3 _ _ _ _ (X - x P - d) (- (X - x P))
             ((y Q - y P) * (s * d + y P + y Q) * (X - x P)) _ HP HQ Hi).
    subst X s d. ring.
Qed.

End Formulas.

(** ** Symmetry of the formulas *)

Section Symmetry.
Context (E : EllipticCurve) (P Q : Point).

Lemma slope_den_swap :
  Point_eq P (Some Q) = false -> slope_den Q P = - slope_den P Q.
Proof.
  intros H. unfold slope_den. rewrite (Point_eq_sym Q P), H. ring.
Qed.

Lemma math_gcd_slope_den_swap :
  math_gcd (slope_den Q P) (N E) = math_gcd (slope_den P Q) (N E).
Proof.
  destruct (Point_eq P (Some Q)) eqn:H.
  - by apply Point_eq_Some in H as <-.
  - by rewrite slope_den_swap, math_gcd_opp_l.
Qed.

(** Swapping the arguments negates numerator and denominator of the slope,
    so the slopes are congruent and the reduced coordinates equal. *)
Lemma sum_point_comm :
  math_gcd (slope_den P Q) (N E) = 1 -> sum_point E P Q = sum_point E Q P.
Proof.
  intros Hunit. destruct (Point_eq P (Some Q)) eqn:HPQ.
  { by apply Point_eq_Some in HPQ as <-. }
  pose proof (slope_den_inverse E P Q Hunit) as Hi.
  pose proof (cong_residual _ _ _ (invmod_opp_cong _ _ Hunit)) as Hopp.
  unfold sum_point. rewrite (slope_den_swap HPQ). revert Hi Hopp.
  unfold slope_den, slope_num. rewrite (Point_eq_sym Q P), HPQ.
  set (d := x Q - x P). set (i := Z.invmod d (N E)).
  set (i' := Z.invmod (- d) (N E)). intros Hi Hopp.
  assert (Hx : ((y Q - y P) * i * ((y Q - y P) * i) - x P - x Q) mod N E =
               ((y P - y Q) * i' * ((y P - y Q) * i') - x Q - x P) mod N E).
  { apply cong_mod_eq, cong_of_residual.
    apply (cong_lin2 _ _ _ ((y Q - y P) * (y Q - y P) * (i - i')) 0 _ Hopp Hi).
    ring. }
  rewrite <- Hx. f_equal. apply cong_mod_eq, cong_of_residual.
  set (X := (_ - x Q) mod N E).
  apply (cong_lin2 _ _ _ (- (y P - y Q) * (x Q - X)) (- (y Q - y P)) _ Hopp Hi).
  subst d. ring.
Qed.

End Symmetry.

(** ** Case analysis shared by the theorems on [sum] *)

Lemma sum_points_cases (E : EllipticCurve) (P Q : Point) :
  N E <> 0 ->
  let g := math_gcd (slope_den P Q) (N E) in
  (g <> 1 /\ sum (Some P) (Some Q) E = Ret (None, with_div E g)) \/
  (g = 1 /\ sum (Some P) (Some Q) E = Ret (Some (sum_point E P Q), E)).
Proof.
  intros HN g. rewrite sum_points_run. fold g.
  destruct (decide (g <> 1)) as [Hg|Hg]; [by left|right].
  rewrite decide_False by done. split; [|done].
  by destruct (decide (g = 1)).
Qed.

(** Every outcome of [sum] with a non-zero modulus: the object is
    untouched, or [None] is returned with [div] set to a gcd other than 1. *)
Lemma sum_outcome (E : EllipticCurve) (p q : option Point) :
  N E <> 0 ->
  exists r E', sum p q E = Ret (r, E') /\
    (E' = E \/
     exists P Q, p = Some P /\ q = Some Q /\ r = None /\
       math_gcd (slope_den P Q) (N E) <> 1 /\
       E' = with_div E (math_gcd (slope_den P Q) (N E))).
Proof.
  intros HN. destruct p as [P|], q as [Q|];
    try (eexists _, _; split; [reflexivity|by left]).
  destruct (sum_points_cases E P Q HN) as [[Hg ->]|[Hg ->]].
  - eexists _, _. split; [done|]. right. by exists P, Q.
  - eexists _, _. split; [done|]. by left.
Qed.

(** The command and the pure function agree: the refinement the loops of
    [mult] are analysed through. *)
Lemma sum_run (E : EllipticCurve) (p q : option Point) :
  N E <> 0 ->
  sum p q E = Ret (fst (sum_pure E p q), write (snd (sum_pure E p q)) E).
Proof.
  intros HN. destruct p as [P|], q as [Q|]; try reflexivity.
  rewrite sum_points_run. unfold sum_pure.
  case_decide; [done|]. by rewrite decide_False.
Qed.

Lemma same_params_refl (E : EllipticCurve) : same_params E E.
Proof. done. Qed.

Lemma same_params_trans (E1 E2 E3 : EllipticCurve) :
  same_params E1 E2 -> same_params E2 E3 -> same_params E1 E3.
Proof. unfold same_params. naive_solver congruence. Qed.

Lemma same_params_write (w : option Z) (E : EllipticCurve) :
  same_params E (write w E).
Proof. by destruct w. Qed.

Lemma same_params_write_l (w : option Z) (E : EllipticCurve) :
  same_params (write w E) E.
Proof. by destruct w. Qed.

Lemma later_None (w1 w2 : option Z) : later w1 w2 = None -> w1 = None /\ w2 = None.
Proof. by destruct w2. Qed.

Lemma later_is_Some (w1 w2 : option Z) :
  is_Some w1 \/ is_Some w2 -> is_Some (later w1 w2).
Proof. destruct w2; [by eauto|]. by intros [?|[? [=]]]. Qed.

Lemma write_later (w1 w2 : option Z) (E : EllipticCurve) :
  write w2 (write w1 E) = write (later w1 w2) E.
Proof. by destruct w1, w2. Qed.

(** The pure function reads only [a] and [N]. *)
Lemma sum_pure_params (E1 E2 : EllipticCurve) (p q : option Point) :
  same_params E1 E2 -> sum_pure E1 p q = sum_pure E2 p q.
Proof.
  intros (Ha & _ & HN). unfold sum_pure, sum_point, slope_num.
  by rewrite Ha, HN.
Qed.

(** Objects that differ at most in [div] are interchangeable wherever only
    the parameters are read. *)
#[export] Instance same_params_equivalence : Equivalence same_params.
Proof.
  split; [exact same_params_refl| |exact same_params_trans].
  intros E1 E2 (Ha & Hb & HN). by repeat split.
Qed.

#[export] Instance sum_pure_proper :
  Proper (same_params ==> eq ==> eq ==> eq) sum_pure.
Proof. intros E1 E2 HE p ? <- q ? <-. by apply sum_pure_params. Qed.

#[export] Instance on_curve_proper : Proper (same_params ==> eq ==> iff) on_curve.
Proof.
  intros E1 E2 (Ha & Hb & HN) p ? <-. destruct p as [P|]; [|done].
  cbn. by rewrite Ha, Hb, HN.
Qed.

#[export] Hint Resolve same_params_refl same_params_write same_params_write_l : lenstra.

(** ** Theorems on [sum] *)

(** [sum(None, p)] and [sum(p, None)] return [p] and leave the curve
    object as it was: [None] is a two-sided identity of [sum]. *)
Theorem sum_identity (E : EllipticCurve) (p : option Point) :
  sum None p E = Ret (p, E) /\ sum p None E = Ret (p, E).
Proof. split; [apply sum_None_l_run | apply sum_None_r_run]. Qed.

(** C1. [sum] is commutative as a whole: for every curve object and every
    two arguments, [sum(p, q)] and [sum(q, p)] return the same point (or
    both [None]), leave the same value in [div], or raise the same
    exception. *)
Theorem sum_comm (E : EllipticCurve) (p q : option Point) :
  sum p q E = sum q p E.
Proof.
  destruct p as [P|], q as [Q|]; try reflexivity.
  rewrite !sum_points_run, (math_gcd_slope_den_swap E P Q).
  repeat case_decide; try done. by rewrite sum_point_comm.
Qed.

(** C2. When [sum] on two points returns [None], it has assigned to [div]
    the gcd of the slope's denominator with N: a non-negative divisor of N
    other than 1, hence in 2..|N| when N is not 0; [a], [b] and [N] are
    unchanged. *)
Theorem sum_failure_divisor (E E' : EllipticCurve) (P Q : Point) :
  sum (Some P) (Some Q) E = Ret (None, E') ->
  E' = with_div E (math_gcd (slope_den P Q) (N E)) /\
  div E' <> 1 /\ (div E' | N E) /\
  (N E <> 0 -> 1 < div E' <= Z.abs (N E)).
Proof.
  rewrite sum_points_run. case_decide as Hg; [|by case_decide].
  intros [= <-]. cbn [div with_div]. split_and!; auto with lenstra.
  intros HN. by apply math_gcd_bounds.
Qed.

Lemma sum_failure_divisor_witness :
  div (with_div E91 7) <> 1 /\ (div (with_div E91 7) | 91).
Proof.
  pose proof (sum_failure_divisor E91 (with_div E91 7)
                {| x := 1; y := 7 |} {| x := 1; y := 7 |} eq_refl) as H.
  split; apply H.
Defined.

(** C15. With a non-zero modulus [sum] never raises: the inverse is only
    computed behind the gcd test.  It returns, and either the object is
    untouched or the result is [None] with [div] set to a value other
    than 1. *)
Theorem sum_never_raises (E : EllipticCurve) (p q : option Point) :
  N E <> 0 ->
  wp (sum p q)
     (fun r E' => E' = E \/ (r = None /\ div E' <> 1 /\ same_params E E')) E.
Proof.
  intros HN. apply wp_iff_returns.
  destruct (sum_outcome E p q HN) as (r & E' & Hrun & [->|H]).
  - exists r, E. split; [done|by left].
  - destruct H as (P & Q & -> & -> & -> & Hg & ->).
    eexists _, _. split; [exact Hrun|]. right. by repeat split.
Qed.

Lemma sum_never_raises_witness :
  wp (sum (Some P23) (Some P23))
     (fun r E' => E' = E91 \/ (r = None /\ div E' <> 1 /\ same_params E91 E'))
     E91.
Proof. apply sum_never_raises. vm_compute. discriminate. Defined.

(** C40. With modulus 0 the code has an exception path: if the slope's
    denominator is 1 or -1 the gcd test passes and [pow(_, -1, 0)] raises
    ValueError; otherwise the gcd, the absolute value of the denominator,
    is stored in [div]. *)
Theorem sum_zero_modulus (E : EllipticCurve) (P Q : Point) :
  N E = 0 ->
  sum (Some P) (Some Q) E =
    if decide (Z.abs (slope_den P Q) = 1) then Raise ValueError
    else Ret (None, with_div E (Z.abs (slope_den P Q))).
Proof.
  intros HN. rewrite sum_points_run, HN. unfold math_gcd.
  rewrite Z.gcd_0_r. by repeat case_decide.
Qed.

Lemma sum_zero_modulus_witness :
  sum (Some P23) (Some {| x := 3; y := 0 |}) (EllipticCurve_init 5 82 0) =
    Raise ValueError.
Proof.
  exact (sum_zero_modulus (EllipticCurve_init 5 82 0) P23 {| x := 3; y := 0 |}
           eq_refl).
Defined.

(** C39. A point returned by [sum] on two points has both coordinates
    reduced modulo N: in [0, N) for a positive modulus. *)
Theorem sum_reduced (E E' : EllipticCurve) (P Q R : Point) :
  0 < N E ->
  sum (Some P) (Some Q) E = Ret (Some R, E') ->
  0 <= x R < N E /\ 0 <= y R < N E.
Proof.
  intros HN. rewrite sum_points_run. repeat case_decide; try done.
  intros [= <- <-]. unfold sum_point. cbn [x y].
  split; apply Z.mod_pos_bound; done.
Qed.

Lemma sum_reduced_witness :
  0 <= x (sum_point E91 P23 P23) < 91 /\ 0 <= y (sum_point E91 P23 P23) < 91.
Proof.
  apply (sum_reduced E91 E91 P23 P23); [reflexivity|].
  vm_compute. reflexivity.
Defined.

(** C7. [sum] preserves the curve equation: if both arguments satisfy
    y^2 = x^3 + a x + b modulo N, so does every point it returns, for any
    modulus (prime or not). *)
Theorem sum_on_curve (E E' : EllipticCurve) (p q r : option Point) :
  on_curve E p -> on_curve E q ->
  sum p q E = Ret (r, E') ->
  on_curve E' r.
Proof.
  intros Hp Hq. destruct p as [P|], q as [Q|]; try by intros [= <- <-].
  rewrite sum_points_run. repeat case_decide; try done.
  - by intros [= <- <-].
  - intros [= <- <-]. by apply sum_point_on_curve.
Qed.

Lemma sum_on_curve_witness : on_curve E91 (Some (sum_point E91 P23 P23)).
Proof.
  apply (sum_on_curve E91 E91 (Some P23) (Some P23));
    vm_compute; reflexivity.
Defined.

(** [sum] keeps the invariant of the object: [a], [b], [N] are never
    written and [div] stays a non-negative divisor of N. *)
Theorem sum_preserves_div_ok (E E' : EllipticCurve) (p q r : option Point) :
  div_ok E ->
  sum p q E = Ret (r, E') ->
  div_ok E' /\ same_params E E'.
Proof.
  intros Hok. destruct p as [P|], q as [Q|]; try by intros [= <- <-].
  rewrite sum_points_run. repeat case_decide; try done.
  - intros [= <- <-]. split; [|done]. split; cbn; auto with lenstra.
  - by intros [= <- <-].
Qed.

Lemma sum_preserves_div_ok_witness :
  div_ok (with_div E91 7) /\ same_params E91 (with_div E91 7).
Proof.
  apply (sum_preserves_div_ok E91 (with_div E91 7)
           (Some {| x := 1; y := 7 |}) (Some {| x := 1; y := 7 |}) None).
  - split; [vm_compute; discriminate|]. exists 91. reflexivity.
  - vm_compute. reflexivity.
Defined.

(** C35. The point at infinity is never returned from two points: adding
    two distinct points with the same [x] (a point and its negative) is
    reported as a failure with [div] equal to |N|, as long as |N| is
    not 1. *)
Theorem sum_vertical_is_failure (E : EllipticCurve) (P Q : Point) :
  x P = x Q -> y P <> y Q -> Z.abs (N E) <> 1 ->
  sum (Some P) (Some Q) E = Ret (None, with_div E (Z.abs (N E))).
Proof.
  intros Hx Hy HN. rewrite sum_points_run.
  assert (Hden : slope_den P Q = 0).
  { unfold slope_den. destruct (Point_eq P (Some Q)) eqn:H; [|lia].
    apply Point_eq_Some in H. by subst. }
  rewrite Hden, math_gcd_0_l. by rewrite decide_True.
Qed.

Lemma sum_vertical_is_failure_witness :
  sum (Some P23) (Some {| x := 2; y := 88 |}) E91 =
    Ret (None, with_div E91 91).
Proof.
  apply (sum_vertical_is_failure E91 P23 {| x := 2; y := 88 |});
    vm_compute; congruence.
Defined.
