(* ===== verification/ScalarMult.v ===== *)
(** * ScalarMult: the method [EllipticCurve.mult] of src/main.py

    [mult] writes [k] in binary ([bin(k)[2:]], most significant digit
    first), builds the table [p, 2p, 4p, ...] with one entry per digit by
    repeated [sum], then walks the digits from the left and adds
    [powers_of_two[i]] for every digit "1" at position [i].  The two [for]
    loops are the recursive commands [powers_loop] and [select_loop]; the
    early [return None] of the second loop ends the command.

    The pure functions [powers_pure], [select_pure] and [mult_pure] give the
    value and the last assignment to [div]; the command is proved to
    compute exactly these, and the properties of [mult] are proved on
    them. *)

From Stdlib Require Import ZArith Lia Ascii.
From stdpp Require Import base tactics option list strings.
From S2P Require Import Prelude ModInt Points Curve.

Local Open Scope Z_scope.
Local Open Scope py_scope.

(** ** Definitions *)

(** The binary digits of a positive number, most significant first. *)
Fixpoint pos_bits (p : positive) : list ascii :=
  match p with
  | xH => ["1"%char]
  | xO p' => pos_bits p' ++ ["0"%char]
  | xI p' => pos_bits p' ++ ["1"%char]
  end.

(** [bin(k)]: "0b..." for k >= 0 and "-0b..." for k < 0. *)
Definition bin (k : Z) : list ascii :=
  match k with
  | Z0 => ["0"; "b"; "0"]%char
  | Zpos p => ["0"; "b"]%char ++ pos_bits p
  | Zneg p => ["-"; "0"; "b"]%char ++ pos_bits p
  end.

(** [binary_expansion = bin(k)[2:]]. *)
Definition binary_expansion (k : Z) : list ascii := drop 2 (bin k).

(** The first loop of [mult]: [n] times, append the double of the last
    entry.  [powers_of_two[-1]] raises IndexError on an empty list. *)
Fixpoint powers_loop (n : nat) (powers_of_two : list (option Point)) :
  cmd EllipticCurve (list (option Point)) :=
  match n with
  | O => ret powers_of_two
  | S n' =>
      match last powers_of_two with
      | None => raise IndexError
      | Some top =>
          new_point <- sum top top ;;
          powers_loop n' (powers_of_two ++ [new_point])
      end
  end.

(** The second loop of [mult], from position [i] on, with accumulator [q].
    [powers_of_two[i]] raises IndexError out of range. *)
Fixpoint select_loop (powers_of_two : list (option Point)) (i : nat)
  (digits : list ascii) (q : option Point) :
  cmd EllipticCurve (option Point) :=
  match digits with
  | [] => ret q
  | v :: rest =>
      if decide (v = "1"%char) then
        match powers_of_two !! i with
        | None => raise IndexError
        | Some entry =>
            q' <- sum entry q ;;
            if py_eq q' None then ret None
            else select_loop powers_of_two (S i) rest q'
        end
      else select_loop powers_of_two (S i) rest q
  end.

(** [EllipticCurve.mult(self, p, k)]. *)
Definition mult (p : option Point) (k : Z) : cmd EllipticCurve (option Point) :=
  if py_eq p None then ret None
  else
    let m := length (binary_expansion k) in
    powers_of_two <- powers_loop (m - 1) [p] ;;
    select_loop powers_of_two 0 (binary_expansion k) None.

(** ** Reference definitions *)

(** The number a digit string denotes, most significant digit first. *)
Fixpoint parse_bits (acc : Z) (digits : list ascii) : Z :=
  match digits with
  | [] => acc
  | v :: rest => parse_bits (2 * acc + (if decide (v = "1"%char) then 1 else 0)) rest
  end.

(** The table loop as a pure function: the table and the last value
    assigned to [div]. *)
Fixpoint powers_pure (E : EllipticCurve) (n : nat) (top : option Point) :
  list (option Point) * option Z :=
  match n with
  | O => ([], None)
  | S n' =>
      let r := sum_pure E top top in
      let rest := powers_pure E n' (fst r) in
      (fst r :: fst rest, later (snd r) (snd rest))
  end.

(** The selection loop as a pure function. *)
Fixpoint select_pure (E : EllipticCurve) (powers_of_two : list (option Point))
  (i : nat) (digits : list ascii) (q : option Point) :
  option Point * option Z :=
  match digits with
  | [] => (q, None)
  | v :: rest =>
      if decide (v = "1"%char) then
        let entry := match powers_of_two !! i with Some e => e | None => None end in
        let r := sum_pure E entry q in
        match fst r with
        | None => (None, snd r)
        | Some _ =>
            let r' := select_pure E powers_of_two (S i) rest (fst r) in
            (fst r', later (snd r) (snd r'))
        end
      else select_pure E powers_of_two (S i) rest q
  end.

(** [mult] as a pure function of [a], [N], [p] and [k]. *)
Definition mult_pure (E : EllipticCurve) (p : option Point) (k : Z) :
  option Point * option Z :=
  match p with
  | None => (None, None)
  | Some _ =>
      let digits := binary_expansion k in
      let t := powers_pure E (length digits - 1) p in
      let r := select_pure E (p :: fst t) 0 digits None in
      (fst r, later (snd t) (snd r))
  end.

(** An assignment made by [sum]: a gcd with N other than 1. *)
Definition good_write (E : EllipticCurve) (w : option Z) : Prop :=
  match w with
  | Some g => g <> 1 /\ 0 <= g /\ (g | N E)
  | None => True
  end.

(** ** The pure functions read only [a] and [N] *)

Section Params.
Context (E1 E2 : EllipticCurve) (Hparams : same_params E1 E2).

Lemma powers_pure_params (n : nat) (top : option Point) :
  powers_pure E1 n top = powers_pure E2 n top.
Proof.
  revert top. induction n as [|n IH]; intros top; [done|].
  cbn. by rewrite (sum_pure_params E1 E2), IH.
Qed.

Lemma select_pure_params (t : list (option Point)) (i : nat)
  (digits : list ascii) (q : option Point) :
  select_pure E1 t i digits q = select_pure E2 t i digits q.
Proof.
  revert i q. induction digits as [|v rest IH]; intros i q; [done|].
  cbn. case_decide; [|done].
  rewrite (sum_pure_params E1 E2) by done.
  destruct (fst (sum_pure E2 _ q)); [|done]. by rewrite IH.
Qed.

Lemma mult_pure_params (p : option Point) (k : Z) :
  mult_pure E1 p k = mult_pure E2 p k.
Proof.
  destruct p as [P|]; [|done]. unfold mult_pure.
  by rewrite powers_pure_params, select_pure_params.
Qed.

End Params.

#[export] Instance powers_pure_proper :
  Proper (same_params ==> eq ==> eq ==> eq) powers_pure.
Proof. intros E1 E2 HE n ? <- top ? <-. by apply powers_pure_params. Qed.

#[export] Instance select_pure_proper :
  Proper (same_params ==> eq ==> eq ==> eq ==> eq ==> eq) select_pure.
Proof. intros E1 E2 HE t ? <- i ? <- ds ? <- q ? <-. by apply select_pure_params. Qed.

#[export] Instance mult_pure_proper :
  Proper (same_params ==> eq ==> eq ==> eq) mult_pure.
Proof. intros E1 E2 HE p ? <- k ? <-. by apply mult_pure_params. Qed.

(** ** The commands compute the pure functions *)

Section Runs.
Context (E : EllipticCurve) (HN : N E <> 0).

Lemma N_write (w : option Z) : N (write w E) <> 0.
Proof. by destruct w. Qed.

Lemma length_powers_pure (E0 : EllipticCurve) (n : nat) (top : option Point) :
  length (fst (powers_pure E0 n top)) = n.
Proof. revert top. induction n as [|n IH]; intros top; cbn; [done|]. by rewrite IH. Qed.

End Runs.

Lemma powers_loop_run (E : EllipticCurve) (n : nat) (t : list (option Point))
  (top : option Point) :
  N E <> 0 -> last t = Some top ->
  powers_loop n t E =
    Ret (t ++ fst (powers_pure E n top), write (snd (powers_pure E n top)) E).
Proof.
  revert E t top. induction n as [|n IH]; intros E t top HN Hlast.
  { cbn. unfold ret. by rewrite app_nil_r. }
  cbn [powers_loop powers_pure]. rewrite Hlast. unfold bind.
  rewrite sum_run by done. set (r := sum_pure E top top).
  rewrite (IH _ _ (fst r)); [|by apply N_write|apply last_snoc].
  rewrite write_later, (same_params_write_l (snd r) E).
  cbn [fst snd]. by rewrite <- app_assoc.
Qed.

Lemma select_loop_run (E : EllipticCurve) (t : list (option Point)) (i : nat)
  (digits : list ascii) (q : option Point) :
  N E <> 0 -> (i + length digits <= length t)%nat ->
  select_loop t i digits q E =
    Ret (fst (select_pure E t i digits q),
         write (snd (select_pure E t i digits q)) E).
Proof.
  revert E i q. induction digits as [|v rest IH]; intros E i q HN Hlen; [done|].
  cbn [select_loop select_pure]. cbn [length] in Hlen.
  case_decide; [|apply IH; [done|lia]].
  destruct (lookup_lt_is_Some_2 t i ltac:(lia)) as [entry Hentry].
  rewrite Hentry. cbn zeta. unfold bind. rewrite sum_run by done.
  set (r := sum_pure E entry q). destruct (fst r) as [R|] eqn:Hr; [|done].
  cbn [py_eq Point_eq]. rewrite IH; [|by apply N_write|lia].
  by rewrite write_later, (same_params_write_l (snd r) E).
Qed.

Lemma mult_run (E : EllipticCurve) (p : option Point) (k : Z) :
  N E <> 0 ->
  mult p k E = Ret (fst (mult_pure E p k), write (snd (mult_pure E p k)) E).
Proof.
  intros HN. destruct p as [P|]; [|done].
  unfold mult, mult_pure. cbn [py_eq Point_eq]. unfold bind.
  rewrite (powers_loop_run E _ [Some P] (Some P)) by done.
  set (t := powers_pure E _ (Some P)).
  rewrite select_loop_run; [|by apply N_write|].
  - by rewrite write_later, (same_params_write_l (snd t) E).
  - subst t. cbn [app length]. rewrite length_powers_pure. lia.
Qed.

(** ** Binary expansions *)

Lemma binary_expansion_pos (p : positive) :
  binary_expansion (Zpos p) = pos_bits p.
Proof. reflexivity. Qed.

Lemma pos_bits_head (p : positive) :
  exists rest, pos_bits p = "1"%char :: rest.
Proof.
  induction p as [p [rest IH]|p [rest IH]|]; cbn; rewrite ?IH; eauto.
Qed.

Lemma binary_expansion_head (k : Z) :
  0 < k -> exists rest, binary_expansion k = "1"%char :: rest.
Proof. destruct k as [|p|p]; try lia. intros _. apply pos_bits_head. Qed.

Lemma binary_expansion_double (k : Z) :
  0 < k -> binary_expansion (2 * k) = binary_expansion k ++ ["0"%char].
Proof. destruct k as [|p|p]; try lia. reflexivity. Qed.

Lemma binary_expansion_succ_double (k : Z) :
  0 < k -> binary_expansion (2 * k + 1) = binary_expansion k ++ ["1"%char].
Proof. destruct k as [|p|p]; try lia. reflexivity. Qed.

Lemma parse_bits_snoc (acc : Z) (digits : list ascii) (v : ascii) :
  parse_bits acc (digits ++ [v]) =
    2 * parse_bits acc digits + (if decide (v = "1"%char) then 1 else 0).
Proof. revert acc. induction digits as [|d ds IH]; intros acc; cbn; [done|]. apply IH. Qed.

Lemma parse_pos_bits (p : positive) : parse_bits 0 (pos_bits p) = Zpos p.
Proof.
  induction p as [p IH|p IH|]; cbn [pos_bits]; rewrite ?parse_bits_snoc, ?IH;
    try done; by case_decide.
Qed.

(** ** The selection loop and the table *)

Section Select.
Context (E : EllipticCurve).

Lemma select_pure_snoc_0 (t : list (option Point)) (i : nat)
  (digits : list ascii) (q : option Point) :
  select_pure E t i (digits ++ ["0"%char]) q = select_pure E t i digits q.
Proof.
  revert i q. induction digits as [|v rest IH]; intros i q; [done|].
  cbn. case_decide; [|apply IH].
  destruct (fst (sum_pure E _ q)); [|done]. by rewrite IH.
Qed.

Lemma select_pure_table_app (t t' : list (option Point)) (i : nat)
  (digits : list ascii) (q : option Point) :
  (i + length digits <= length t)%nat ->
  select_pure E (t ++ t') i digits q = select_pure E t i digits q.
Proof.
  revert i q. induction digits as [|v rest IH]; intros i q Hlen; [done|].
  cbn [length] in Hlen. cbn. rewrite lookup_app_l by lia.
  case_decide; [|apply IH; lia].
  destruct (fst (sum_pure E _ q)); [|done]. by rewrite IH by lia.
Qed.

Lemma powers_pure_snoc (n : nat) (top : option Point) :
  exists entry, fst (powers_pure E (S n) top) = fst (powers_pure E n top) ++ [entry].
Proof.
  revert top. induction n as [|n IH]; intros top; [by eexists|].
  destruct (IH (fst (sum_pure E top top))) as [entry Hentry].
  exists entry. cbn [powers_pure fst] in *. by rewrite Hentry.
Qed.

(** A trailing digit "0" changes nothing of the value: the table is one
    entry longer, and that entry is never selected. *)
Lemma mult_pure_double (P : Point) (k : Z) :
  0 < k ->
  fst (mult_pure E (Some P) (2 * k)) = fst (mult_pure E (Some P) k).
Proof.
  intros Hk. unfold mult_pure. rewrite binary_expansion_double by done.
  destruct (binary_expansion_head k Hk) as [rest Hd]. rewrite Hd.
  cbn [length app fst]. rewrite length_app, Nat.add_1_r.
  replace (S (S (length rest)) - 1)%nat with (S (length rest)) by lia.
  replace (S (length rest) - 1)%nat with (length rest) by lia.
  destruct (powers_pure_snoc (length rest) (Some P)) as [entry ->].
  change (Some P :: ?l ++ [entry]) with ((Some P :: l) ++ [entry]).
  rewrite (select_pure_snoc_0 _ 0 ("1"%char :: rest)).
  apply f_equal, select_pure_table_app. cbn. rewrite length_powers_pure. lia.
Qed.

End Select.

(** ** What is assigned to [div] *)

Section Writes.
Context (E : EllipticCurve).

Lemma good_write_later (w1 w2 : option Z) :
  good_write E w1 -> good_write E w2 -> good_write E (later w1 w2).
Proof. by destruct w2. Qed.

Lemma sum_pure_good_write (p q : option Point) :
  good_write E (snd (sum_pure E p q)).
Proof.
  destruct p as [P|], q as [Q|]; try done. unfold sum_pure.
  case_decide; [|done]. cbn. auto with lenstra.
Qed.

Lemma powers_pure_good_write (n : nat) (top : option Point) :
  good_write E (snd (powers_pure E n top)).
Proof.
  revert top. induction n as [|n IH]; intros top; [done|].
  apply good_write_later; [apply sum_pure_good_write|apply IH].
Qed.

Lemma select_pure_good_write (t : list (option Point)) (i : nat)
  (digits : list ascii) (q : option Point) :
  good_write E (snd (select_pure E t i digits q)).
Proof.
  revert i q. induction digits as [|v rest IH]; intros i q; [done|].
  cbn. case_decide; [|apply IH].
  destruct (fst (sum_pure E _ q)); [|apply sum_pure_good_write].
  apply good_write_later; [apply sum_pure_good_write|apply IH].
Qed.

Lemma mult_pure_good_write (p : option Point) (k : Z) :
  good_write E (snd (mult_pure E p k)).
Proof.
  destruct p as [P|]; [|done].
  apply good_write_later;
    [apply powers_pure_good_write|apply select_pure_good_write].
Qed.

(** [sum] returns [None] on a point and an accumulator that is not [None]
    only by failing, and then it assigns [div]. *)
Lemma sum_pure_None_write (p q : option Point) :
  q <> None -> fst (sum_pure E p q) = None -> is_Some (snd (sum_pure E p q)).
Proof.
  destruct p as [P|], q as [Q|]; try done. unfold sum_pure.
  by case_decide.
Qed.

Lemma select_pure_None_write (t : list (option Point)) (i : nat)
  (digits : list ascii) (q : option Point) :
  q <> None -> fst (select_pure E t i digits q) = None ->
  is_Some (snd (select_pure E t i digits q)).
Proof.
  revert i q. induction digits as [|v rest IH]; intros i q Hq; [done|].
  cbn. case_decide; [|by apply IH].
  destruct (fst (sum_pure E _ q)) as [R|] eqn:Hr.
  - cbn. intros Hnone.
    destruct (IH (S i) (Some R) ltac:(done) Hnone) as [g ->]. done.
  - intros _. by apply sum_pure_None_write.
Qed.

(** The leading digit "1" selects [p] itself: the accumulator becomes [p]
    and nothing is assigned. *)
Lemma select_pure_first (t : list (option Point)) (P : Point)
  (rest : list ascii) :
  select_pure E (Some P :: t) 0 ("1"%char :: rest) None =
    select_pure E (Some P :: t) 1 rest (Some P).
Proof.
  cbn. rewrite decide_True by done.
  by destruct (select_pure E _ 1 rest (Some P)) as [v [g|]].
Qed.

(** For a positive [k], [mult] on a point returns [None] only after an
    assignment to [div]. *)
Lemma mult_pure_None_write (P : Point) (k : Z) :
  0 < k -> fst (mult_pure E (Some P) k) = None ->
  is_Some (snd (mult_pure E (Some P) k)).
Proof.
  intros Hk. unfold mult_pure. destruct (binary_expansion_head k Hk) as [rest ->].
  rewrite select_pure_first. cbn [fst snd]. intros Hnone.
  destruct (select_pure_None_write _ _ _ (Some P) ltac:(done) Hnone) as [g ->].
  cbn. eauto.
Qed.

End Writes.

(** ** The curve equation through the loops *)

Section OnCurve.
Context (E : EllipticCurve).

Lemma sum_pure_on_curve (p q : option Point) :
  on_curve E p -> on_curve E q -> on_curve E (fst (sum_pure E p q)).
Proof.
  intros Hp Hq. destruct p as [P|], q as [Q|]; try done. unfold sum_pure.
  case_decide as Hg; [done|]. by apply sum_point_on_curve.
Qed.

Lemma powers_pure_on_curve (n : nat) (top : option Point) :
  on_curve E top -> Forall (on_curve E) (fst (powers_pure E n top)).
Proof.
  revert top. induction n as [|n IH]; intros top Htop; [by constructor|].
  cbn. constructor; [|apply IH]; by apply sum_pure_on_curve.
Qed.

Lemma select_pure_on_curve (t : list (option Point)) (i : nat)
  (digits : list ascii) (q : option Point) :
  Forall (on_curve E) t -> on_curve E q ->
  on_curve E (fst (select_pure E t i digits q)).
Proof.
  intros Ht. revert i q. induction digits as [|v rest IH]; intros i q Hq; [done|].
  cbn. case_decide; [|by apply IH].
  assert (Hentry : on_curve E match t !! i with Some e => e | None => None end).
  { destruct (t !! i) as [e|] eqn:He; [|done].
    by apply (Forall_lookup_1 _ _ _ _ Ht He). }
  pose proof (sum_pure_on_curve _ q Hentry Hq) as Hr.
  destruct (fst (sum_pure E _ q)); [|done]. by apply IH.
Qed.

Lemma mult_pure_on_curve (p : option Point) (k : Z) :
  on_curve E p -> on_curve E (fst (mult_pure E p k)).
Proof.
  intros Hp. destruct p as [P|]; [|done].
  apply select_pure_on_curve; [|done].
  constructor; [done|]. by apply powers_pure_on_curve.
Qed.

End OnCurve.

(** ** The doubling table *)

Lemma powers_pure_double (E : EllipticCurve) (n j : nat)
  (top e : option Point) :
  (j < n)%nat -> (top :: fst (powers_pure E n top)) !! j = Some e ->
  (top :: fst (powers_pure E n top)) !! S j = Some (fst (sum_pure E e e)).
Proof.
  revert top j. induction n as [|n IH]; intros top j Hj; [lia|].
  destruct j as [|j]; cbn.
  - by intros [= <-].
  - intros He. apply (IH _ j); [lia|done].
Qed.

(** ** Powers of two *)

Lemma mult_pure_pow2 (E : EllipticCurve) (P : Point) (n : nat) :
  fst (mult_pure E (Some P) (2 ^ Z.of_nat n)) = Some P.
Proof.
  induction n as [|n IH]; [done|].
  rewrite Nat2Z.inj_succ, Z.pow_succ_r by lia.
  rewrite mult_pure_double; [done|]. apply Z.pow_pos_nonneg; lia.
Qed.

(** ** Negative multipliers *)

(** For k < 0 the digits are [bin(k)[2:]] = "b" followed by the digits of
    [-k]: the letter selects nothing and moves every digit one entry up
    the table. *)
Section Negative.
Context (E : EllipticCurve).

Lemma select_pure_shift (e : option Point) (t : list (option Point))
  (i : nat) (digits : list ascii) (q : option Point) :
  select_pure E (e :: t) (S i) digits q = select_pure E t i digits q.
Proof.
  revert i q. induction digits as [|v rest IH]; intros i q; [done|].
  cbn. case_decide; [|apply IH].
  destruct (fst (sum_pure E _ q)); [|done]. by rewrite IH.
Qed.

Lemma powers_pure_None (n : nat) :
  powers_pure E n None = (replicate n None, None).
Proof. induction n as [|n IH]; [done|]. cbn. by rewrite IH. Qed.

Lemma mult_pure_neg (P : Point) (p : positive) :
  let r := sum_pure E (Some P) (Some P) in
  let r' := mult_pure E (fst r) (Zpos p) in
  mult_pure E (Some P) (Zneg p) = (fst r', later (snd r) (snd r')).
Proof.
  intros r r'. subst r'. destruct (pos_bits_head p) as [rest Hp].
  unfold mult_pure. change (binary_expansion (Zneg p)) with ("b"%char :: pos_bits p).
  rewrite binary_expansion_pos, Hp. cbn [length Nat.sub powers_pure].
  rewrite Nat.sub_0_r. fold r. cbn [fst snd select_pure].
  rewrite decide_False, select_pure_shift by done.
  destruct (fst r) as [Q|] eqn:HQ.
  - cbn [fst snd]. f_equal. by destruct (snd r), (snd (powers_pure _ _ _)),
      (snd (select_pure _ _ _ _ _)).
  - rewrite powers_pure_None. cbn. by rewrite decide_True.
Qed.

End Negative.

(** ** Theorems on [mult] *)

(** When 2 y is not invertible modulo N, [mult(P, 2)] fails its only
    doubling, stores the gcd in [div] and returns [P]. *)
Lemma mult_2_failed_doubling (E : EllipticCurve) (P : Point) :
  N E <> 0 -> math_gcd (2 * y P) (N E) <> 1 ->
  mult (Some P) 2 E = Ret (Some P, with_div E (math_gcd (2 * y P) (N E))).
Proof.
  intros HN Hg. rewrite mult_run by done. unfold mult_pure. cbn.
  unfold slope_den. rewrite Point_eq_refl.
  rewrite (decide_False (P := "0"%char = "1"%char)) by done.
  rewrite !decide_True by done. reflexivity.
Qed.

(** [mult] multiplies by the number whose binary digits are those of
    [k] read backwards: a trailing zero digit is ignored.  For k > 0,
    [mult(P, 2k)] returns the same value as [mult(P, k)] (the table has one
    more doubling, whose entry is never selected); only [div] may differ. *)
Theorem mult_ignores_trailing_zero (E : EllipticCurve) (P : Point) (k : Z) :
  N E <> 0 -> 0 < k ->
  exists r E1 E2,
    mult (Some P) k E = Ret (r, E1) /\
    mult (Some P) (2 * k) E = Ret (r, E2) /\
    same_params E1 E2.
Proof.
  intros HN Hk. eexists _, _, _. rewrite !mult_run by done.
  rewrite mult_pure_double by done. split_and!; [done..|].
  eapply same_params_trans; [apply same_params_write_l|apply same_params_write].
Qed.

Lemma mult_ignores_trailing_zero_witness :
  exists r E1 E2,
    mult (Some P23) 3 E91 = Ret (r, E1) /\
    mult (Some P23) (2 * 3) E91 = Ret (r, E2) /\
    same_params E1 E2.
Proof. apply mult_ignores_trailing_zero; [vm_compute; discriminate|lia]. Defined.

(** C5. For every power of two, [mult(P, 2^n)] returns [P] itself, not
    2^n P: the expansion "10...0" is read from the left against a table
    indexed from the least significant bit, so only [powers_of_two[0]] is
    added. *)
Theorem mult_power_of_two (E : EllipticCurve) (P : Point) (n : nat) :
  N E <> 0 ->
  exists E', mult (Some P) (2 ^ Z.of_nat n) E = Ret (Some P, E') /\
             same_params E E'.
Proof.
  intros HN. eexists. rewrite mult_run, mult_pure_pow2 by done.
  split; [done|apply same_params_write].
Qed.

Lemma mult_power_of_two_witness :
  exists E', mult (Some P23) (2 ^ Z.of_nat 1) E91 = Ret (Some P23, E') /\
             same_params E91 E'.
Proof. apply mult_power_of_two. vm_compute. discriminate. Defined.

(** [mult(P, 1)] returns [P] and does not touch the curve object, for
    every curve (no addition of two points is performed). *)
Lemma mult_one (E : EllipticCurve) (P : Point) :
  mult (Some P) 1 E = Ret (Some P, E).
Proof. reflexivity. Qed.

(** [mult(None, k)] returns [None] at once and does not touch the curve
    object; so does [mult(P, 0)], whose expansion "0" selects nothing. *)
Lemma mult_None (E : EllipticCurve) (k : Z) :
  mult None k E = Ret (None, E).
Proof. reflexivity. Qed.

Lemma mult_zero (E : EllipticCurve) (P : Point) :
  mult (Some P) 0 E = Ret (None, E).
Proof. reflexivity. Qed.

(** C8. [mult], every outcome with a non-zero modulus.  It returns: it
    raises neither the IndexError of the table accesses nor the
    ValueError of [pow].  [a], [b], [N] are unchanged, and [div] is
    either untouched or a non-negative divisor of N other than 1.  For
    k > 0, when [mult] on a point returns [None] an addition has failed
    and [div] holds its gcd. *)
Theorem mult_every_outcome (E : EllipticCurve) (p : option Point) (k : Z) :
  N E <> 0 ->
  wp (mult p k)
     (fun v E' => same_params E E' /\
        (E' = E \/ (div E' <> 1 /\ 0 <= div E' /\ (div E' | N E))) /\
        (v = None -> p <> None -> 0 < k -> div E' <> 1)) E.
Proof.
  intros HN. unfold wpg. rewrite mult_run by done.
  pose proof (mult_pure_good_write E p k) as Hgood.
  split_and!; [apply same_params_write| |].
  - destruct (snd (mult_pure E p k)) as [g|]; [by right|by left].
  - intros Hv Hp Hk. destruct p as [P|]; [|done].
    destruct (mult_pure_None_write E P k Hk Hv) as [g Hg].
    rewrite Hg in *. by destruct Hgood.
Qed.

Lemma mult_every_outcome_witness :
  wp (mult (Some P23) 7)
     (fun v E' => same_params E91 E' /\
        (E' = E91 \/ (div E' <> 1 /\ 0 <= div E' /\ (div E' | N E91))) /\
        (v = None -> Some P23 <> None -> 0 < 7 -> div E' <> 1)) E91.
Proof. apply mult_every_outcome. vm_compute. discriminate. Defined.

(** [mult] preserves the curve equation: if [p] satisfies
    y^2 = x^3 + a x + b modulo N then so does the value returned. *)
Theorem mult_on_curve (E E' : EllipticCurve) (p r : option Point) (k : Z) :
  N E <> 0 -> on_curve E p ->
  mult p k E = Ret (r, E') ->
  on_curve E' r.
Proof.
  intros HN Hp Hrun. rewrite mult_run in Hrun by done.
  injection Hrun as <- <-. rewrite (same_params_write_l _ E).
  by apply mult_pure_on_curve.
Qed.

Lemma mult_on_curve_witness :
  on_curve E91 (Some {| x := 19; y := 22 |}).
Proof.
  apply (mult_on_curve E91 E91 (Some P23) _ 5);
    [vm_compute; discriminate|vm_compute; reflexivity|vm_compute; reflexivity].
Defined.

(** C36. A failed doubling in the table loop does not stop [mult]: when
    2 y is not invertible modulo N, [mult(P, 3)] stores the gcd in [div]
    and still returns the point [P] (the table entry [None] is added as if
    it were the identity). *)
Theorem mult_continues_after_failed_doubling (E : EllipticCurve) (P : Point) :
  N E <> 0 -> math_gcd (2 * y P) (N E) <> 1 ->
  mult (Some P) 3 E = Ret (Some P, with_div E (math_gcd (2 * y P) (N E))).
Proof.
  intros HN Hg. rewrite mult_run by done. unfold mult_pure. cbn.
  unfold slope_den. rewrite Point_eq_refl, !decide_True by done. done.
Qed.

Lemma mult_continues_after_failed_doubling_witness :
  mult (Some {| x := 1; y := 7 |}) 3 E91 =
    Ret (Some {| x := 1; y := 7 |}, with_div E91 7).
Proof.
  apply (mult_continues_after_failed_doubling E91 {| x := 1; y := 7 |});
    vm_compute; discriminate.
Defined.

(** A later failure overwrites an earlier one.  On the curve
    y^2 = x^3 + x + 6 over Z/15Z, [mult((2, 1), 6)] fails twice: the
    table loop finds the factor 3 in its second doubling, the selection
    loop then finds 5 when it adds the first two entries, and [div] ends
    at 5. *)
Example mult_keeps_last_divisor :
  let E := EllipticCurve_init 1 6 15 in
  let P := {| x := 2; y := 1 |} in
  snd (powers_pure E 2 (Some P)) = Some 3 /\
  snd (select_pure E (Some P :: fst (powers_pure E 2 (Some P))) 0
         (binary_expansion 6) None) = Some 5 /\
  mult (Some P) 6 E = Ret (None, with_div E 5).
Proof. split_and!; vm_compute; reflexivity. Qed.

(** [bin(k)[2:]] denotes [k]: reading the digits of the expansion
    most significant first gives back every k >= 0. *)
Theorem binary_expansion_roundtrip (k : Z) :
  0 <= k -> parse_bits 0 (binary_expansion k) = k.
Proof.
  destruct k as [|p|p]; try lia; intros _; [done|].
  rewrite binary_expansion_pos. apply parse_pos_bits.
Qed.

Lemma binary_expansion_roundtrip_witness :
  parse_bits 0 (binary_expansion 6) = 6.
Proof. apply binary_expansion_roundtrip. lia. Defined.

(** The first loop of [mult] builds a table of [n + 1] entries that
    starts with [p] and in which every entry is the [sum] of the previous
    one with itself. *)
Theorem powers_loop_table (E : EllipticCurve) (p : option Point) (n : nat) :
  N E <> 0 ->
  exists t E', powers_loop n [p] E = Ret (t, E') /\
    length t = S n /\ t !! 0%nat = Some p /\
    forall j e, (j < n)%nat -> t !! j = Some e ->
      t !! S j = Some (fst (sum_pure E e e)).
Proof.
  intros HN. eexists _, _. rewrite (powers_loop_run E n [p] p) by done.
  split_and!; [done| |done|].
  - cbn. by rewrite length_powers_pure.
  - intros j e. apply powers_pure_double.
Qed.

Lemma powers_loop_table_witness :
  exists t E', powers_loop 2 [Some P23] E91 = Ret (t, E') /\
    length t = 3%nat /\ t !! 0%nat = Some (Some P23) /\
    forall j e, (j < 2)%nat -> t !! j = Some e ->
      t !! S j = Some (fst (sum_pure E91 e e)).
Proof. apply powers_loop_table. vm_compute. discriminate. Defined.

(** C37. Negative multipliers are not rejected: for k < 0, [mult(P, k)]
    runs as [mult(sum(P, P), -k)] does, with the same value and the same
    final object.  The letter "b" that [bin(k)[2:]] keeps in front of the
    digits takes the place of the table entry [P]. *)
Theorem mult_negative_scalar (E : EllipticCurve) (P : Point) (k : Z) :
  N E <> 0 -> k < 0 ->
  mult (Some P) k E = (P2 <- sum (Some P) (Some P) ;; mult P2 (- k)) E.
Proof.
  intros HN Hk. destruct k as [|p|p]; try lia. unfold bind.
  rewrite mult_run, sum_run, mult_run, write_later by (done || by apply N_write).
  set (r := sum_pure E (Some P) (Some P)).
  by rewrite (same_params_write_l (snd r) E), mult_pure_neg.
Qed.

Lemma mult_negative_scalar_witness :
  mult (Some P23) (-5) E91 = (P2 <- sum (Some P23) (Some P23) ;; mult P2 5) E91.
Proof. apply (mult_negative_scalar E91 P23 (-5)); [vm_compute; discriminate|lia]. Defined.
