(* ===== verification/BitReversal.v ===== *)
(** * BitReversal: the multiplier that [mult] really applies

    [mult] walks the digits of [bin(k)[2:]] from the most significant one
    and adds the table entry of the same index, but the table holds
    [2^i p] at index [i]: the digit at position [i] from the left selects
    the power that belongs to position [i] from the right.
    [mult_intended] is the algorithm with the digits read least
    significant first, as a double-and-add is meant to; [bit_reverse k] is
    the number whose binary digits are those of [k] in reverse order.  The
    file proves that [mult(p, k)] returns what the intended algorithm
    returns for [bit_reverse k]. *)

From Stdlib Require Import ZArith Lia Ascii.
From stdpp Require Import base tactics option list strings.
From S2P Require Import Prelude ModInt Points Curve ScalarMult.

Local Open Scope Z_scope.

(** ** Definitions *)

(** The number whose binary digits are those of [k], reversed. *)
Definition bit_reverse (k : Z) : Z :=
  parse_bits 0 (reverse (binary_expansion k)).

(** Double-and-add with the digits read least significant first: the digit
    at position [i] selects [2^i p]. *)
Definition mult_intended (E : EllipticCurve) (p : option Point) (k : Z) :
  option Point * option Z :=
  match p with
  | None => (None, None)
  | Some _ =>
      let digits := binary_expansion k in
      let t := powers_pure E (length digits - 1) p in
      let r := select_pure E (p :: fst t) 0 (reverse digits) None in
      (fst r, later (snd t) (snd r))
  end.

(** A binary digit. *)
Definition bit (v : ascii) : Prop := v = "0"%char \/ v = "1"%char.

(** ** Digits *)

Lemma pos_bits_bit (p : positive) : Forall bit (pos_bits p).
Proof.
  induction p as [p IH|p IH|]; cbn [pos_bits]; rewrite ?Forall_app, ?Forall_singleton;
    unfold bit; auto.
Qed.

Lemma parse_bits_ge (acc : Z) (ds : list ascii) :
  0 <= acc -> acc <= parse_bits acc ds.
Proof.
  revert acc. induction ds as [|v ds IH]; intros acc Hacc; cbn; [lia|].
  case_decide; [pose proof (IH (2 * acc + 1))|pose proof (IH (2 * acc + 0))]; lia.
Qed.

Lemma parse_bits_zeros (n : nat) (ds : list ascii) :
  parse_bits 0 (replicate n "0"%char ++ ds) = parse_bits 0 ds.
Proof. induction n as [|n IH]; [done|]. cbn. by rewrite decide_False. Qed.

(** Printing what was parsed: a digit list that starts with "1" is the
    expansion of the number it denotes. *)
Lemma binary_expansion_parse (rest : list ascii) :
  Forall bit rest ->
  binary_expansion (parse_bits 0 ("1"%char :: rest)) = "1"%char :: rest.
Proof.
  induction rest as [|v rest IH] using rev_ind; [done|].
  rewrite Forall_app, Forall_singleton. intros [Hrest Hv].
  rewrite app_comm_cons, parse_bits_snoc.
  assert (0 < parse_bits 0 ("1"%char :: rest)).
  { change (0 < parse_bits 1 rest). pose proof (parse_bits_ge 1 rest). lia. }
  destruct Hv as [Hv|Hv]; subst v.
  - rewrite decide_False, Z.add_0_r by done.
    by rewrite binary_expansion_double, IH.
  - rewrite decide_True by done. by rewrite binary_expansion_succ_double, IH.
Qed.

(** A digit list is a run of zeros followed by nothing or by a list that
    starts with "1". *)
Lemma leading_zeros (ds : list ascii) :
  Forall bit ds ->
  exists n core, ds = replicate n "0"%char ++ core /\
    (core = [] \/ exists rest, core = "1"%char :: rest /\ Forall bit rest).
Proof.
  induction 1 as [|v ds [-> | ->] Hds (n & core & -> & Hcore)].
  - exists 0%nat, []. auto.
  - exists (S n), core. auto.
  - exists 0%nat, ("1"%char :: replicate n "0"%char ++ core). split; [done|].
    right. eexists. split; [done|]. done.
Qed.

(** The digits of a positive [k], reversed, are zeros followed by the
    expansion of [bit_reverse k]. *)
Lemma reverse_binary_expansion (k : Z) :
  0 < k ->
  exists n, reverse (binary_expansion k) =
    replicate n "0"%char ++ binary_expansion (bit_reverse k).
Proof.
  destruct k as [|p|p]; try lia. intros _. unfold bit_reverse.
  rewrite binary_expansion_pos.
  assert (Hbits : Forall bit (reverse (pos_bits p))).
  { apply Forall_reverse, pos_bits_bit. }
  destruct (leading_zeros _ Hbits) as (n & core & Hrev & [->|(rest & -> & Hrest)]).
  - destruct (pos_bits_head p) as [r Hp]. rewrite Hp, reverse_cons in Hrev.
    rewrite app_nil_r in Hrev. destruct n; [by destruct (reverse r)|].
    rewrite replicate_S_end in Hrev. by apply app_inj_tail in Hrev as [_ [=]].
  - exists n. rewrite Hrev, parse_bits_zeros. by rewrite binary_expansion_parse.
Qed.

(** ** The table and the selection *)

Section Select.
Context (E : EllipticCurve).

(** A longer table extends a shorter one. *)
Lemma powers_pure_prefix (n m : nat) (top : option Point) :
  exists extra,
    fst (powers_pure E (n + m) top) = fst (powers_pure E n top) ++ extra.
Proof.
  induction m as [|m [extra IH]]; [exists []; by rewrite Nat.add_0_r, app_nil_r|].
  destruct (powers_pure_snoc E (n + m) top) as [entry Hentry].
  exists (extra ++ [entry]). by rewrite Nat.add_succ_r, Hentry, IH, app_assoc.
Qed.

(** Trailing digits "0" select nothing. *)
Lemma select_pure_zeros (t : list (option Point)) (i n : nat)
  (digits : list ascii) (q : option Point) :
  select_pure E t i (digits ++ replicate n "0"%char) q = select_pure E t i digits q.
Proof.
  induction n as [|n IH]; [by rewrite app_nil_r|].
  by rewrite replicate_S_end, app_assoc, select_pure_snoc_0.
Qed.

(** The value [mult] computes for [k] is the value of the intended
    algorithm for [bit_reverse k]. *)
Lemma mult_pure_bit_reverse (P : Point) (k : Z) :
  0 < k ->
  fst (mult_pure E (Some P) k) = fst (mult_intended E (Some P) (bit_reverse k)).
Proof.
  intros Hk. destruct (reverse_binary_expansion k Hk) as [n Hrev].
  assert (Hd : binary_expansion k =
               reverse (binary_expansion (bit_reverse k)) ++ replicate n "0"%char).
  { by rewrite <- (reverse_involutive (binary_expansion k)), Hrev, reverse_app,
      reverse_replicate. }
  unfold mult_pure, mult_intended. cbn [fst]. rewrite Hd, select_pure_zeros.
  set (core := binary_expansion (bit_reverse k)).
  assert (Hc : (0 < length core)%nat).
  { destruct core eqn:Hcore; [|cbn; lia]. subst core. rewrite Hcore in Hd.
    destruct (binary_expansion_head k Hk) as [r Hr]. rewrite Hr in Hd.
    destruct n; [done|]. by rewrite reverse_nil, app_nil_l, replicate_S in Hd. }
  rewrite length_app, length_reverse, length_replicate.
  replace (length core + n - 1)%nat with ((length core - 1) + n)%nat by lia.
  destruct (powers_pure_prefix (length core - 1) n (Some P)) as [extra ->].
  rewrite app_comm_cons. apply f_equal, select_pure_table_app.
  cbn. rewrite length_powers_pure, length_reverse. lia.
Qed.

End Select.

(** ** The reversal *)

Lemma bit_reverse_double (k : Z) : 0 < k -> bit_reverse (2 * k) = bit_reverse k.
Proof.
  intros Hk. unfold bit_reverse.
  rewrite binary_expansion_double, reverse_snoc by done.
  apply (parse_bits_zeros 1).
Qed.

(** The multiplier that [mult] applies is always odd: the reversed digits
    end with the leading "1" of k.  No power of 2 ever enters the product
    of the multipliers of the loop of [lenstra]. *)
Lemma bit_reverse_odd (k : Z) : 0 < k -> Z.odd (bit_reverse k) = true.
Proof.
  intros Hk. destruct (binary_expansion_head k Hk) as [rest Hd].
  unfold bit_reverse. rewrite Hd, reverse_cons, parse_bits_snoc.
  rewrite decide_True, Z.add_comm, Z.odd_add_mul_2 by done. done.
Qed.

(** On odd numbers the reversal is an involution: only trailing zeros are
    lost. *)
Lemma bit_reverse_odd_involutive (k : Z) :
  0 < k -> Z.odd k = true -> bit_reverse (bit_reverse k) = k.
Proof.
  destruct k as [|[p|p|]|p]; try done; intros _ _.
  destruct (reverse_binary_expansion (Zpos p~1) ltac:(lia)) as [n Hrev].
  rewrite binary_expansion_pos in Hrev. cbn [pos_bits] in Hrev.
  rewrite reverse_snoc in Hrev. destruct n as [|n]; [|done].
  cbn [replicate app] in Hrev. unfold bit_reverse at 1.
  rewrite <- Hrev, <- reverse_snoc, reverse_involutive.
  apply (parse_pos_bits p~1).
Qed.

(** ** Theorems *)

(** C6. What [mult] computes: for k > 0, [mult(P, k)] returns the value
    that double-and-add with the digits read least significant first
    returns for the bit reversal of k, not for k.  The two agree only
    when the binary expansion of k is a palindrome. *)
Theorem mult_is_bit_reversed (E : EllipticCurve) (P : Point) (k : Z) :
  N E <> 0 -> 0 < k ->
  exists E',
    mult (Some P) k E = Ret (fst (mult_intended E (Some P) (bit_reverse k)), E') /\
    same_params E E'.
Proof.
  intros HN Hk. eexists. rewrite mult_run, mult_pure_bit_reverse by done.
  split; [done|apply same_params_write].
Qed.

Lemma mult_is_bit_reversed_witness :
  exists E',
    mult (Some P23) 6 E91 = Ret (fst (mult_intended E91 (Some P23) 3), E') /\
    same_params E91 E'.
Proof. apply (mult_is_bit_reversed E91 P23 6); [vm_compute; discriminate|lia]. Defined.
