(* ===== verification/Oracles.v ===== *)
(** * Oracles: what the program asks of its libraries

    [random.randint] is consumed through the interface [RandomSource]: a
    command over the generator's state that returns an integer within the
    inclusive bounds, and raises ValueError on an empty range, as Python's
    does.  The theorems of [Lenstra] are proved against the interface; the
    instance [script_source] (a list of pre-drawn numbers, folded into the
    range) discharges it and makes the model run.

    [sympy.isprime] is consumed through the interface [PrimeOracle]: a
    deterministic test that is exact ([Z.prime] of the Stdlib, which
    excludes everything below 2).  The instance [trial_division_oracle]
    tries every candidate divisor from 2 to n - 1. *)

From Stdlib Require Import ZArith Zdivisibility Lia.
From stdpp Require Import base tactics option list.
From S2P Require Import Prelude.

Local Open Scope Z_scope.

(** ** The interface of the random source *)

Class RandomSource (R : Type) : Type := {
  randint : Z -> Z -> cmd R Z;
  randint_range : forall lo hi r,
    lo <= hi -> wp (randint lo hi) (fun v _ => lo <= v <= hi) r;
  randint_empty : forall lo hi r,
    hi < lo -> raises (randint lo hi) r ValueError
}.

(** ** The interface of the primality oracle *)

Class PrimeOracle : Type := {
  isprime : Z -> bool;
  isprime_spec : forall n, isprime n = true <-> Z.prime n
}.

(** [no_divisor count d n]: none of [d], [d + 1], ..., [d + count - 1]
    divides [n]. *)
Fixpoint no_divisor (count : nat) (d n : Z) : bool :=
  match count with
  | O => true
  | S count' => negb (n mod d =? 0) && no_divisor count' (d + 1) n
  end.

(** Primality by trial division. *)
Definition trial_division (n : Z) : bool :=
  (1 <? n) && no_divisor (Z.to_nat (n - 2)) 2 n.

(** ** A scripted source *)

(** [randint] from a script: the next number of the list, folded into
    [lo .. hi]; [lo] once the script is used up. *)
Definition script_randint (lo hi : Z) : cmd (list Z) Z :=
  fun r =>
    if decide (hi < lo) then Raise ValueError
    else match r with
         | [] => Ret (lo, [])
         | v :: r' => Ret (lo + v mod (hi - lo + 1), r')
         end.

Lemma script_randint_range (lo hi : Z) (r : list Z) :
  lo <= hi -> wp (script_randint lo hi) (fun v _ => lo <= v <= hi) r.
Proof.
  intros H. unfold wpg, script_randint. rewrite decide_False by lia.
  destruct r as [|v r']; [lia|].
  pose proof (Z.mod_pos_bound v (hi - lo + 1)). lia.
Qed.

Lemma script_randint_empty (lo hi : Z) (r : list Z) :
  hi < lo -> raises (script_randint lo hi) r ValueError.
Proof. intros H. unfold raises, script_randint. by rewrite decide_True. Qed.

#[export] Instance script_source : RandomSource (list Z) := {
  randint := script_randint;
  randint_range := script_randint_range;
  randint_empty := script_randint_empty
}.

(** A script whose numbers are already in range is replayed as it is. *)
Lemma script_randint_in_range (lo hi v : Z) (r : list Z) :
  lo <= v <= hi -> script_randint lo hi (v - lo :: r) = Ret (v, r).
Proof.
  intros H. unfold script_randint. rewrite decide_False by lia.
  rewrite Z.mod_small by lia. do 2 f_equal. lia.
Qed.

(** ** Trial division is exact *)

Lemma no_divisor_spec (count : nat) (d n : Z) :
  0 < d ->
  no_divisor count d n = true <->
  forall m, d <= m < d + Z.of_nat count -> ~ (m | n).
Proof.
  revert d. induction count as [|count IH]; intros d Hd; cbn [no_divisor].
  { split; [intros _ m Hm; lia|done]. }
  rewrite andb_true_iff, negb_true_iff, Z.eqb_neq, IH by lia. split.
  - intros [Hd0 Hrest] m Hm Hdiv. destruct (decide (m = d)) as [->|].
    + apply Hd0. apply Z.mod_divide; [lia|done].
    + apply (Hrest m); [lia|done].
  - intros Hall. split; [|intros m Hm; apply Hall; lia].
    intros Hmod. apply (Hall d); [lia|]. apply Z.mod_divide; [lia|done].
Qed.

Lemma trial_division_spec (n : Z) : trial_division n = true <-> Z.prime n.
Proof.
  unfold trial_division, Z.prime.
  rewrite andb_true_iff, Z.ltb_lt, no_divisor_spec by lia.
  split; intros [Hn Hall]; (split; [done|]); intros m Hm; apply Hall; lia.
Qed.

#[export] Instance trial_division_oracle : PrimeOracle := {
  isprime := trial_division;
  isprime_spec := trial_division_spec
}.

(** What the driver uses of an oracle. *)
Section OracleFacts.
Context `{PrimeOracle}.

Lemma isprime_false (n : Z) : isprime n = false <-> ~ Z.prime n.
Proof. rewrite <- isprime_spec. by destruct (isprime n). Qed.

Lemma isprime_ge_2 (n : Z) : isprime n = true -> 2 <= n.
Proof. rewrite isprime_spec. apply Z.prime_ge_2. Qed.

End OracleFacts.

(** Any two oracles agree: the interface determines the function. *)
Lemma isprime_unique (O1 O2 : PrimeOracle) (n : Z) :
  @isprime O1 n = @isprime O2 n.
Proof. apply eq_true_iff_eq. by rewrite !isprime_spec. Qed.
