(* ===== verification/Primes.v ===== *)
(** * Primes: an exact primality test that runs on large numbers

    The instance [trial_division_oracle] of [Oracles] tries every
    candidate below n, with one unit of unary fuel for each: it is the
    reference, and it cannot run on the number in the script or on its
    factors.  [fast_isprime] is a second instance of the interface
    [PrimeOracle].  It tries the odd candidates d = 3, 5, 7, ... until
    d * d exceeds n:

    - [odd_steps_Z] is the loop on unbounded integers; depth [k] allows
      [2 ^ (k + 1)] candidates, one call inside the other, so that the
      depth [Z.log2 n] is enough for every n and no fuel is ever built in
      unary;
    - [odd_steps] is the same loop on 63-bit machine integers ([Uint63]),
      used below [2 ^ 60].  Overflow is where its proof has to look: the
      candidate is squared in 63 bits.  The invariant [candidate] bounds
      it by the square root of n, and under the invariant the machine
      loop computes what the loop on [Z] computes ([odd_steps_refines]).

    Theorems: the verdicts of the loop on [Z] are right and it keeps its
    invariant ([odd_steps_Z_spec]); the depth is always enough
    ([odd_steps_Z_decides]); the test is exact ([fast_isprime_spec]) and
    agrees with the reference on every integer
    ([fast_isprime_trial_division]); primality on [Z] is decidable. *)

From Stdlib Require Import ZArith Zdivisibility Lia Uint63.
From stdpp Require Import base tactics.
From S2P Require Import Prelude Oracles.

Local Open Scope Z_scope.

(** ** Definitions *)

(** What a round of the loop finds: a divisor, no divisor up to the square
    root, or the next candidate. *)
Inductive verdict (A : Type) : Type :=
| Composite
| Prime
| Next (d : A).

Arguments Composite {A}.
Arguments Prime {A}.
Arguments Next {A} d.

#[export] Instance verdict_fmap : FMap verdict := fun A B f v =>
  match v with
  | Composite => Composite
  | Prime => Prime
  | Next d => Next (f d)
  end.

(** One candidate [d], on unbounded integers. *)
Definition odd_step_Z (n d : Z) : verdict Z :=
  if n <? d * d then Prime
  else if n mod d =? 0 then Composite
  else Next (d + 2).

(** [2 ^ (depth + 1)] candidates from [d] on, unless a verdict is reached
    before. *)
Fixpoint odd_steps_Z (depth : nat) (n d : Z) : verdict Z :=
  match depth with
  | O => odd_step_Z n d
  | S k =>
      match odd_steps_Z k n d with
      | Next d' => odd_steps_Z k n d'
      | v => v
      end
  end.

(** The same on machine integers. *)
Definition odd_step (n d : int) : verdict int :=
  if (n <? d * d)%uint63 then Prime
  else if (n mod d =? 0)%uint63 then Composite
  else Next (d + 2)%uint63.

Fixpoint odd_steps (depth : nat) (n d : int) : verdict int :=
  match depth with
  | O => odd_step n d
  | S k =>
      match odd_steps k n d with
      | Next d' => odd_steps k n d'
      | v => v
      end
  end.

(** The numbers the machine loop is used for, and the depth that covers
    their square roots. *)
Definition machine_bound : Z := 2 ^ 60.

Definition machine_depth : nat := 29.

(** The verdict on an odd n >= 4. *)
Definition odd_verdict (n : Z) : verdict Z :=
  if n <? machine_bound then to_Z <$> odd_steps machine_depth (of_Z n) 3
  else odd_steps_Z (Z.to_nat (Z.log2 n)) n 3.

(** The test: 2 and 3 are prime, nothing else below 4 is, no other even
    number is; an odd n goes through the loop. *)
Definition fast_isprime (n : Z) : bool :=
  if n <? 4 then 1 <? n
  else if Z.even n then false
  else match odd_verdict n with
       | Prime => true
       | _ => false
       end.

(** The invariant of the loop: n and d are odd, d - 2 is at most the
    square root of n, and no number from 2 to d - 1 divides n. *)
Definition candidate (n d : Z) : Prop :=
  1 < n /\ Z.odd n = true /\ Z.odd d = true /\ 3 <= d /\
  (d - 2) * (d - 2) <= n /\ forall m, 2 <= m < d -> ~ (m | n).

(** A verdict that settles the question, rightly. *)
Definition decided (n : Z) (v : verdict Z) : Prop :=
  (v = Prime /\ Z.prime n) \/ (v = Composite /\ ~ Z.prime n).

(** ** Divisors and square roots *)

(** A number without a divisor below d >= 0, with n < d * d, is prime. *)
Lemma no_small_divisor_prime (n d : Z) :
  1 < n -> 0 <= d -> n < d * d -> (forall m, 2 <= m < d -> ~ (m | n)) ->
  Z.prime n.
Proof.
  intros Hn Hd0 Hd Hno. split; [done|]. intros m Hm [q Hq].
  destruct (Z.lt_ge_cases m d) as [Hlt|Hge].
  { apply (Hno m); [lia|]. by exists q. }
  assert (Hq1 : 1 < q).
  { destruct (Z.le_gt_cases q 1) as [Hq1|]; [|done].
    pose proof (Z.mul_le_mono_nonneg_r q 1 m ltac:(lia) Hq1). lia. }
  apply (Hno q); [|exists m; lia]. split; [lia|].
  destruct (Z.lt_ge_cases q d) as [|Hqd]; [done|].
  pose proof (Z.mul_le_mono_nonneg d q d m). lia.
Qed.

Lemma even_not_divide_odd (n m : Z) :
  Z.odd n = true -> Z.even m = true -> ~ (m | n).
Proof.
  intros Hn [k ->]%Z.even_spec [q ->].
  rewrite <- Z.negb_even, !Z.even_mul in Hn. cbn in Hn.
  by rewrite orb_true_r in Hn.
Qed.

Lemma divisor_not_prime (n d : Z) : 1 < d < n -> (d | n) -> ~ Z.prime n.
Proof. intros Hd Hdvd [_ Hp]. by apply (Hp d). Qed.

(** ** The loop on unbounded integers *)

Lemma candidate_init (n : Z) : 4 <= n -> Z.even n = false -> candidate n 3.
Proof.
  intros Hn Hev. assert (Hodd : Z.odd n = true) by (by rewrite <- Z.negb_even, Hev).
  split_and!; try done; try lia.
  intros m Hm. replace m with 2 by lia. by apply even_not_divide_odd.
Qed.

Lemma candidate_next (n d : Z) :
  candidate n d -> d * d <= n -> n mod d <> 0 -> candidate n (d + 2).
Proof.
  intros (Hn & HoN & HoD & Hd & _ & Hno) Hsq Hmod.
  split_and!; try done; try lia.
  - by rewrite Z.odd_add, HoD.
  - intros m Hm. destruct (decide (m < d)) as [Hlt|Hge]; [apply Hno; lia|].
    destruct (decide (m = d)) as [->|Hne].
    + intros Hdvd%Z.mod_divide; [done|lia].
    + apply even_not_divide_odd; [done|]. replace m with (d + 1) by lia.
      by rewrite Z.even_add, <- Z.negb_odd, HoD.
Qed.

(** One round: the verdicts are right, and the next candidate keeps the
    invariant. *)
Lemma odd_step_Z_spec (n d : Z) :
  candidate n d ->
  match odd_step_Z n d with
  | Next d' => candidate n d' /\ d' = d + 2
  | v => decided n v
  end.
Proof.
  intros Hc. pose proof Hc as (Hn & HoN & HoD & Hd & Hsq & Hno).
  unfold odd_step_Z. destruct (n <? d * d) eqn:Hlt.
  { apply Z.ltb_lt in Hlt. left. split; [done|].
    apply (no_small_divisor_prime _ d); [done|lia|done..]. }
  apply Z.ltb_ge in Hlt. destruct (n mod d =? 0) eqn:Hmod.
  - apply Z.eqb_eq in Hmod. right. split; [done|].
    apply (divisor_not_prime _ d); [nia|]. apply Z.mod_divide; [lia|done].
  - apply Z.eqb_neq in Hmod. split; [by apply candidate_next|done].
Qed.

(** The loop: the same, after [2 ^ (depth + 1)] candidates. *)
Lemma odd_steps_Z_spec (depth : nat) (n d : Z) :
  candidate n d ->
  match odd_steps_Z depth n d with
  | Next d' => candidate n d' /\ d' = d + 2 ^ Z.of_nat (S depth)
  | v => decided n v
  end.
Proof.
  revert d. induction depth as [|k IH]; intros d Hc; [by apply odd_step_Z_spec|].
  cbn [odd_steps_Z]. pose proof (IH d Hc) as H1.
  destruct (odd_steps_Z k n d) as [| |d1]; [done..|].
  destruct H1 as [Hc1 Hd1]. pose proof (IH d1 Hc1) as H2.
  destruct (odd_steps_Z k n d1) as [| |d2]; [done..|].
  destruct H2 as [Hc2 Hd2]. split; [done|].
  rewrite Hd2, Hd1, (Nat2Z.inj_succ (S k)), Z.pow_succ_r by lia. lia.
Qed.

(** The depth is enough when n < 4 ^ (depth + 1): the loop reaches a
    verdict. *)
Lemma odd_steps_Z_decides (depth : nat) (n : Z) :
  candidate n 3 -> n < 4 ^ Z.of_nat (S depth) ->
  decided n (odd_steps_Z depth n 3).
Proof.
  intros Hc Hn. pose proof (odd_steps_Z_spec depth n 3 Hc) as Hs.
  destruct (odd_steps_Z depth n 3) as [| |d']; [done..|].
  destruct Hs as [(_ & _ & _ & _ & Hsq & _) ->]. exfalso.
  change 4 with (2 * 2) in Hn. rewrite Z.pow_mul_l in Hn.
  pose proof (Z.pow_pos_nonneg 2 (Z.of_nat (S depth)) ltac:(lia) ltac:(lia)).
  nia.
Qed.

(** ** The loop on machine integers *)

Lemma wB_63 : wB = 2 ^ 63.
Proof. reflexivity. Qed.

Lemma ltb_to_Z (x y : int) : (x <? y)%uint63 = (to_Z x <? to_Z y).
Proof. apply eq_true_iff_eq. by rewrite Uint63.ltb_spec, Z.ltb_lt. Qed.

Lemma eqb_0_to_Z (x : int) : (x =? 0)%uint63 = (to_Z x =? 0).
Proof.
  apply eq_true_iff_eq. rewrite Uint63.eqb_spec, Z.eqb_eq. split; [by intros ->|].
  intros Hx. by apply Uint63.to_Z_inj.
Qed.

(** A candidate of at most [2 ^ 30 + 1] is squared and advanced without
    overflow: one round on machine integers is one round on [Z]. *)
Lemma odd_step_refines (n d : int) :
  0 <= to_Z d <= 2 ^ 30 + 1 ->
  to_Z <$> odd_step n d = odd_step_Z (to_Z n) (to_Z d).
Proof.
  intros Hd. unfold odd_step, odd_step_Z.
  rewrite ltb_to_Z, eqb_0_to_Z, Uint63.mul_spec, Uint63.mod_spec, wB_63.
  rewrite (Z.mod_small (to_Z d * to_Z d)) by nia.
  repeat case_match; try done.
  change (Next (to_Z (d + 2)%uint63) = Next (to_Z d + 2)). f_equal.
  rewrite Uint63.add_spec, wB_63. change (to_Z 2) with 2. apply Z.mod_small. lia.
Qed.

Lemma candidate_bound (n d : Z) :
  candidate n d -> n < machine_bound -> 0 <= d <= 2 ^ 30 + 1.
Proof. intros (_ & _ & _ & Hd & Hsq & _). unfold machine_bound. nia. Qed.

(** Under the invariant, below the bound, the machine loop computes what
    the loop on [Z] computes. *)
Lemma odd_steps_refines (depth : nat) (n d : int) :
  candidate (to_Z n) (to_Z d) -> to_Z n < machine_bound ->
  to_Z <$> odd_steps depth n d = odd_steps_Z depth (to_Z n) (to_Z d).
Proof.
  intros Hc Hn. revert d Hc. induction depth as [|k IH]; intros d Hc.
  { by apply odd_step_refines, (candidate_bound (to_Z n)). }
  cbn [odd_steps odd_steps_Z]. pose proof (odd_steps_Z_spec k _ _ Hc) as Hs.
  rewrite <- (IH d Hc) in Hs |- *.
  destruct (odd_steps k n d) as [| |d1]; [done..|]. cbn in Hs |- *.
  apply IH, Hs.
Qed.

(** ** The test is exact *)

Lemma small_prime (n : Z) : n < 4 -> (1 <? n) = true <-> Z.prime n.
Proof.
  intros Hn. rewrite Z.ltb_lt. split; [|intros Hp%Z.prime_ge_2; lia].
  intros H1. destruct (decide (n = 2)) as [->|]; [apply Z.prime_2|].
  replace n with 3 by lia. apply Z.prime_3.
Qed.

Lemma log2_depth (n : Z) : 0 < n -> n < 4 ^ Z.of_nat (S (Z.to_nat (Z.log2 n))).
Proof.
  intros Hn. pose proof (Z.log2_nonneg n). pose proof (Z.log2_spec n Hn) as [_ Hlt].
  rewrite Nat2Z.inj_succ, Z2Nat.id by done. unfold Z.succ in *.
  eapply Z.lt_le_trans; [exact Hlt|]. apply Z.pow_le_mono_l. lia.
Qed.

(** Both loops give the verdict of the loop on [Z] at a sufficient
    depth: the right one. *)
Lemma odd_verdict_spec (n : Z) :
  4 <= n -> Z.even n = false -> decided n (odd_verdict n).
Proof.
  intros Hn Hev. pose proof (candidate_init n Hn Hev) as Hc.
  unfold odd_verdict. destruct (n <? machine_bound) eqn:Hb.
  - apply Z.ltb_lt in Hb.
    assert (Hz : to_Z (of_Z n) = n).
    { rewrite Uint63.of_Z_spec, wB_63. apply Z.mod_small.
      unfold machine_bound in Hb. lia. }
    rewrite odd_steps_refines; change (to_Z 3) with 3; rewrite Hz; try done.
    apply odd_steps_Z_decides; [done|]. unfold machine_bound in Hb.
    by change (4 ^ Z.of_nat (S machine_depth)) with (2 ^ 60).
  - apply odd_steps_Z_decides; [done|]. apply log2_depth. lia.
Qed.

Lemma fast_isprime_spec (n : Z) : fast_isprime n = true <-> Z.prime n.
Proof.
  unfold fast_isprime. destruct (n <? 4) eqn:H4.
  { apply small_prime. by apply Z.ltb_lt. }
  apply Z.ltb_ge in H4. destruct (Z.even n) eqn:Hev.
  { split; [done|]. apply Z.even_spec in Hev as [k ->]. intros Hp.
    destruct (divisor_not_prime (2 * k) 2); [lia|by exists k; lia|done]. }
  by destruct (odd_verdict_spec n H4 Hev) as [[-> Hp]|[-> Hp]].
Qed.

#[export] Instance fast_oracle : PrimeOracle := {
  isprime := fast_isprime;
  isprime_spec := fast_isprime_spec
}.

(** The optimised test computes what the reference computes. *)
Theorem fast_isprime_trial_division (n : Z) : fast_isprime n = trial_division n.
Proof. apply (isprime_unique fast_oracle trial_division_oracle). Qed.

#[export] Instance Z_prime_dec (n : Z) : Decision (Z.prime n).
Proof.
  refine (cast_if (decide (fast_isprime n = true))); by rewrite <- fast_isprime_spec.
Defined.

(** ** Some primes *)

Lemma prime_by_test (n : Z) : fast_isprime n = true -> Z.prime n.
Proof. apply fast_isprime_spec. Qed.

Lemma prime_121188227 : Z.prime 121188227.
Proof. apply prime_by_test. vm_compute. reflexivity. Qed.

Lemma prime_284923350497477 : Z.prime 284923350497477.
Proof. apply prime_by_test. vm_compute. reflexivity. Qed.
