(* ===== verification/Lenstra.v ===== *)
(** * Lenstra: the function [lenstra] of src/main.py

    [draws] and [curve_of_draws] are step 1 (three draws, the base point,
    the curve through it); [lenstra_loop] is the [while E.div == 1] loop
    of step 2 as a command over the curve object, with fuel for the
    iterations the source leaves unbounded; [lenstra] composes them over
    the state of the random source and returns [E.div].  The same loop is
    also given as a transition system ([loop_step] on [loop_state]), and
    the command is proved to compute its runs.

    What the loop needs of the method [mult] is stated as an interface,
    the class [MultContract]; [lenstra_loop_with] and [search_with] are
    the loop and the search with the method as a parameter.  The
    invariant of the loop and the divisor property of the search are
    proved against the interface; [mult] is an instance
    ([mult_meets_contract]) and the program's loop is the loop over
    [mult] ([lenstra_loop_with_mult]). *)

From Stdlib Require Import ZArith Lia.
From stdpp Require Import base tactics option list relations.
From S2P Require Import Prelude ModInt Points Curve ScalarMult Oracles.

Local Open Scope Z_scope.
Local Open Scope py_scope.

(** ** Definitions *)

(** Lines 102-110: the base point and the curve through it, from the three
    draws.  [%] raises ZeroDivisionError when N is 0. *)
Definition curve_of_draws (a0 b0 A0 N0 : Z) : outcome (Point * EllipticCurve) :=
  let point := {| x := a0; y := b0 |} in
  match py_mod (b0 * b0 - a0 * a0 * a0 - A0 * a0) N0 with
  | Ret B0 => Ret (point, EllipticCurve_init A0 B0 N0)
  | Raise e => Raise e
  | OutOfFuel => OutOfFuel
  end.

(** The loop of lines 129-136, at most [fuel] iterations. *)
Fixpoint lenstra_loop (fuel : nat) (point : option Point) (i : Z) :
  cmd EllipticCurve unit :=
  match fuel with
  | O => out_of_fuel
  | S fuel' =>
      E <- get ;;
      if decide (div E = 1) then
        if py_eq point None then ret tt
        else
          point' <- mult point i ;;
          lenstra_loop fuel' point' (i + 1)
      else ret tt
  end.

(** The same loop without the test of line 131. *)
Fixpoint lenstra_loop_no_break (fuel : nat) (point : option Point) (i : Z) :
  cmd EllipticCurve unit :=
  match fuel with
  | O => out_of_fuel
  | S fuel' =>
      E <- get ;;
      if decide (div E = 1) then
        point' <- mult point i ;;
        lenstra_loop_no_break fuel' point' (i + 1)
      else ret tt
  end.

(** An implementation of the method [mult] of the curve object. *)
Definition mult_method : Type :=
  option Point -> Z -> cmd EllipticCurve (option Point).

(** The loop of lines 129-136 with the method it calls as a parameter. *)
Fixpoint lenstra_loop_with (m : mult_method) (fuel : nat)
  (point : option Point) (i : Z) : cmd EllipticCurve unit :=
  match fuel with
  | O => out_of_fuel
  | S fuel' =>
      E <- get ;;
      if decide (div E = 1) then
        if py_eq point None then ret tt
        else
          point' <- m point i ;;
          lenstra_loop_with m fuel' point' (i + 1)
      else ret tt
  end.

(** Step 2 and the [return]: run the loop on the object [E] and read
    [E.div]. *)
Definition search_with (m : mult_method) (fuel : nat) (point : Point)
  (E : EllipticCurve) : outcome Z :=
  match lenstra_loop_with m fuel (Some point) 2 E with
  | Ret (_, E') => Ret (div E')
  | Raise e => Raise e
  | OutOfFuel => OutOfFuel
  end.

Definition search (fuel : nat) (point : Point) (E : EllipticCurve) : outcome Z :=
  match lenstra_loop fuel (Some point) 2 E with
  | Ret (_, E') => Ret (div E')
  | Raise e => Raise e
  | OutOfFuel => OutOfFuel
  end.

Section WithSource.
Context {R : Type} `{RandomSource R}.

(** Line 98: [a, b, A = [random.randint(1, N) for _ in range(3)]]. *)
Definition draws (N0 : Z) : cmd R (Z * Z * Z) :=
  a0 <- randint 1 N0 ;;
  b0 <- randint 1 N0 ;;
  A0 <- randint 1 N0 ;;
  ret (a0, b0, A0).

(** [lenstra(N)], with fuel for its loop. *)
Definition lenstra (fuel : nat) (N0 : Z) : cmd R Z :=
  d <- draws N0 ;;
  let '(a0, b0, A0) := d in
  g <- lift (curve_of_draws a0 b0 A0 N0) ;;
  let '(point, E) := g in
  lift (search fuel point E).

End WithSource.

(** ** The loop invariant *)

(** What holds of the object and the running point at every test of the
    loop: the modulus is not 0, [div] is 1 or a proper gcd, a [None] point
    comes with a [div] other than 1, and the multiplier is positive. *)
Definition loop_inv (E : EllipticCurve) (point : option Point) (i : Z) : Prop :=
  N E <> 0 /\ 0 < i /\ 0 <= div E /\ (div E | N E) /\
  (point = None -> div E <> 1).

(** What the loop relies on of the method it calls, on a point and a
    positive multiplier with a non-zero modulus: it returns, it writes
    nothing but [div], what it writes there is the gcd of a failed
    addition (a non-negative divisor of N other than 1), and it returns
    [None] only after writing it. *)
Class MultContract (m : mult_method) : Prop := {
  mult_contract (E : EllipticCurve) (P : Point) (k : Z) :
    N E <> 0 -> 0 < k ->
    exists v w, m (Some P) k E = Ret (v, write w E) /\
      good_write E w /\ (v = None -> is_Some w)
}.

(** ** The loop as a transition system *)

(** The variables of the loop: the running point, the multiplier and the
    curve object. *)
Record loop_state : Type :=
  mkLoop { ls_point : option Point; ls_i : Z; ls_E : EllipticCurve }.

(** One iteration: the test of the [while] holds, the test of the [break]
    fails, and the body [point = E.mult(point, i); i += 1] runs. *)
Inductive loop_step : loop_state -> loop_state -> Prop :=
| loop_iter (point point' : option Point) (i : Z) (E E' : EllipticCurve) :
    div E = 1 -> py_eq point None = false ->
    mult point i E = Ret (point', E') ->
    loop_step (mkLoop point i E) (mkLoop point' (i + 1) E').

(** The loop is left: the test of the [while] fails, or the [break] is
    taken. *)
Definition loop_exit (s : loop_state) : Prop :=
  div (ls_E s) <> 1 \/ py_eq (ls_point s) None = true.

(** One iteration on concrete values: the tests and the call of [mult]
    are evaluated. *)
Ltac loop_iter_run :=
  eapply nsteps_l;
    [eapply loop_iter; [reflexivity|reflexivity|vm_compute; reflexivity]|].

(** The invariant, on a state. *)
Definition state_inv (s : loop_state) : Prop :=
  loop_inv (ls_E s) (ls_point s) (ls_i s).

(** ** One iteration *)

Lemma loop_inv_point (E : EllipticCurve) (point : option Point) (i : Z) :
  loop_inv E point i -> div E = 1 -> exists P, point = Some P.
Proof.
  intros (_ & _ & _ & _ & Hnone) Hdiv. destruct point as [P|]; [by eexists|].
  by destruct Hnone.
Qed.

(** ** The loop over the contract of [mult] *)

Section Contract.
Context (m : mult_method) `{!MultContract m}.

(** The body of the loop keeps the invariant. *)
Lemma contract_loop_step (E : EllipticCurve) (point : option Point) (i : Z) :
  loop_inv E point i -> div E = 1 ->
  exists point' E', m point i E = Ret (point', E') /\
    same_params E E' /\ loop_inv E' point' (i + 1).
Proof.
  intros Hinv Hdiv. destruct (loop_inv_point _ _ _ Hinv Hdiv) as [P ->].
  destruct Hinv as (HN & Hi & Hdiv0 & Hdvd & _).
  destruct (mult_contract E P i HN Hi) as (v & w & Hrun & Hgood & Hw).
  exists v, (write w E). split; [done|]. split; [apply same_params_write|].
  destruct w as [g|]; cbn [write] in *.
  - destruct Hgood as (Hg1 & Hg0 & Hgd). repeat split; cbn; try done; lia.
  - repeat split; try done; try lia. intros ->. by destruct (Hw eq_refl).
Qed.

Lemma lenstra_loop_with_unfold (fuel : nat) (point : option Point) (i : Z)
  (E : EllipticCurve) :
  lenstra_loop_with m (S fuel) point i E =
    if decide (div E = 1) then
      if py_eq point None then Ret (tt, E)
      else bind (m point i) (fun p' => lenstra_loop_with m fuel p' (i + 1)) E
    else Ret (tt, E).
Proof. cbn. unfold bind, get. by repeat case_match. Qed.

(** Whatever the fuel, the loop does not raise, and when it returns [div]
    is a non-negative divisor of N other than 1. *)
Lemma lenstra_loop_with_wlp (fuel : nat) (point : option Point) (i : Z)
  (E : EllipticCurve) :
  loop_inv E point i ->
  wlp (lenstra_loop_with m fuel point i)
      (fun _ E' => same_params E E' /\
         div E' <> 1 /\ 0 <= div E' /\ (div E' | N E)) E.
Proof.
  revert point i E. induction fuel as [|fuel IH]; intros point i E Hinv; [done|].
  unfold wpg. rewrite lenstra_loop_with_unfold.
  case_decide as Hdiv; [|by destruct Hinv as (? & ? & ? & ? & ?)].
  destruct (contract_loop_step _ _ _ Hinv Hdiv) as (p' & E' & Hrun & Hsame & Hinv').
  destruct (loop_inv_point _ _ _ Hinv Hdiv) as [P ->]. cbn [py_eq Point_eq].
  rewrite (bind_returns _ _ _ _ _ Hrun).
  specialize (IH p' (i + 1) E' Hinv'). unfold wpg in IH.
  destruct (lenstra_loop_with m fuel p' (i + 1) E') as [[[] E'']| |]; try done.
  destruct IH as (Hsame' & ? & ? & Hd). split; [by eapply same_params_trans|].
  destruct Hsame as (_ & _ & <-). done.
Qed.

End Contract.

(** [mult] meets the contract. *)
#[export] Instance mult_meets_contract : MultContract mult.
Proof.
  split. intros E P k HN Hk. eexists _, _. rewrite mult_run by done.
  split_and!; [done|apply mult_pure_good_write|by apply mult_pure_None_write].
Qed.

(** ** The loop *)

Lemma lenstra_loop_unfold (fuel : nat) (point : option Point) (i : Z)
  (E : EllipticCurve) :
  lenstra_loop (S fuel) point i E =
    if decide (div E = 1) then
      if py_eq point None then Ret (tt, E)
      else bind (mult point i) (fun p' => lenstra_loop fuel p' (i + 1)) E
    else Ret (tt, E).
Proof. cbn. unfold bind, get. by repeat case_match. Qed.

(** The loop of the program is the loop over [mult]. *)
Lemma lenstra_loop_with_mult (fuel : nat) (point : option Point) (i : Z)
  (E : EllipticCurve) :
  lenstra_loop_with mult fuel point i E = lenstra_loop fuel point i E.
Proof.
  revert point i E. induction fuel as [|fuel IH]; intros point i E; [done|].
  rewrite lenstra_loop_with_unfold, lenstra_loop_unfold.
  repeat case_match; try done. by apply bind_ext.
Qed.

Lemma mult_loop_step (E : EllipticCurve) (point : option Point) (i : Z) :
  loop_inv E point i -> div E = 1 ->
  exists point' E', mult point i E = Ret (point', E') /\
    same_params E E' /\ loop_inv E' point' (i + 1).
Proof. apply (contract_loop_step mult). Qed.

Lemma lenstra_loop_wlp (fuel : nat) (point : option Point) (i : Z)
  (E : EllipticCurve) :
  loop_inv E point i ->
  wlp (lenstra_loop fuel point i)
      (fun _ E' => same_params E E' /\
         div E' <> 1 /\ 0 <= div E' /\ (div E' | N E)) E.
Proof.
  intros Hinv. unfold wpg. rewrite <- lenstra_loop_with_mult.
  by apply (lenstra_loop_with_wlp mult).
Qed.

(** More fuel does not change a result. *)
Lemma lenstra_loop_fuel_S (fuel : nat) (point : option Point) (i : Z)
  (E E' : EllipticCurve) :
  lenstra_loop fuel point i E = Ret (tt, E') ->
  lenstra_loop (S fuel) point i E = Ret (tt, E').
Proof.
  revert point i E. induction fuel as [|fuel IH]; intros point i E; [done|].
  rewrite (lenstra_loop_unfold (S fuel)), lenstra_loop_unfold.
  repeat case_match; try done. unfold bind.
  destruct (mult point i E) as [[p' E1]| |]; try done. apply IH.
Qed.

Lemma lenstra_loop_fuel_le (fuel fuel' : nat) (point : option Point) (i : Z)
  (E E' : EllipticCurve) :
  (fuel <= fuel')%nat ->
  lenstra_loop fuel point i E = Ret (tt, E') ->
  lenstra_loop fuel' point i E = Ret (tt, E').
Proof.
  induction 1 as [|fuel' _ IH]; [done|]. intros Hrun.
  by apply lenstra_loop_fuel_S, IH.
Qed.

(** ** The command computes the runs of the transition system *)

Lemma loop_step_deterministic (s s1 s2 : loop_state) :
  loop_step s s1 -> loop_step s s2 -> s1 = s2.
Proof. intros [] Hs2. inversion Hs2. congruence. Qed.

Lemma loop_exit_no_step (s s' : loop_state) :
  loop_exit s -> ~ loop_step s s'.
Proof. intros [Hd|Hb] Hs; destruct Hs; cbn in *; congruence. Qed.

(** The loop returns from a state within the fuel exactly along a run of
    fewer than [fuel] iterations that ends in an exit state. *)
Lemma lenstra_loop_run (fuel : nat) (point : option Point) (i : Z)
  (E E' : EllipticCurve) :
  lenstra_loop fuel point i E = Ret (tt, E') ->
  exists n s', (n < fuel)%nat /\ nsteps loop_step n (mkLoop point i E) s' /\
    loop_exit s' /\ ls_E s' = E'.
Proof.
  revert point i E. induction fuel as [|fuel IH]; intros point i E; [done|].
  rewrite lenstra_loop_unfold. case_decide as Hdiv.
  - destruct (py_eq point None) eqn:Hb.
    + intros [= <-]. exists 0%nat, (mkLoop point i E).
      split_and!; [lia|constructor|by right|done].
    + intros (p' & E1 & Hm & Hrun)%bind_inv_Ret.
      destruct (IH _ _ _ Hrun) as (n & s' & Hn & Hsteps & Hexit & HE).
      exists (S n), s'. split_and!; [lia| |done..].
      eapply nsteps_l; [|done]. by constructor.
  - intros [= <-]. exists 0%nat, (mkLoop point i E).
    split_and!; [lia|constructor|by left|done].
Qed.

Lemma nsteps_lenstra_loop (n fuel : nat) (s s' : loop_state) :
  nsteps loop_step n s s' -> loop_exit s' -> (n < fuel)%nat ->
  lenstra_loop fuel (ls_point s) (ls_i s) (ls_E s) = Ret (tt, ls_E s').
Proof.
  intros Hsteps Hexit. revert fuel.
  induction Hsteps as [s|n s1 s2 s3 Hstep _ IH]; intros fuel Hn;
    (destruct fuel as [|fuel]; [lia|]); rewrite lenstra_loop_unfold.
  - destruct Hexit as [Hd|Hb]; [by rewrite decide_False|].
    rewrite Hb. by case_decide.
  - destruct Hstep as [point point' i E E' Hdiv Hb Hm]. cbn [ls_point ls_i ls_E].
    rewrite decide_True, Hb, (bind_returns _ _ _ _ _ Hm) by done.
    apply (IH Hexit). lia.
Qed.

Lemma nsteps_ls_i (n : nat) (s s' : loop_state) :
  nsteps loop_step n s s' -> ls_i s' = ls_i s + Z.of_nat n.
Proof.
  induction 1 as [s|n s1 s2 s3 Hstep _ IH]; [lia|].
  rewrite IH. destruct Hstep. cbn. lia.
Qed.

(** ** The invariant, by induction on runs *)

Lemma loop_step_inv (s s' : loop_state) :
  state_inv s -> loop_step s s' ->
  state_inv s' /\ same_params (ls_E s) (ls_E s').
Proof.
  intros Hinv Hstep. destruct Hstep as [point point' i E E' Hdiv Hb Hm].
  destruct (mult_loop_step E point i Hinv Hdiv) as (p & E1 & Hm' & Hsame & Hinv').
  rewrite Hm in Hm'. by injection Hm' as -> ->.
Qed.

Lemma rtc_loop_step_inv (s s' : loop_state) :
  state_inv s -> rtc loop_step s s' ->
  state_inv s' /\ same_params (ls_E s) (ls_E s').
Proof.
  intros Hinv Hrtc. induction Hrtc as [s|s1 s2 s3 Hstep _ IH].
  { split; [done|apply same_params_refl]. }
  destruct (loop_step_inv _ _ Hinv Hstep) as [Hinv2 Hsame].
  destruct (IH Hinv2) as [Hinv3 Hsame']. split; [done|].
  by eapply same_params_trans.
Qed.

(** The running point stays on the curve along a run. *)
Lemma rtc_loop_step_on_curve (s s' : loop_state) :
  state_inv s -> on_curve (ls_E s) (ls_point s) -> rtc loop_step s s' ->
  on_curve (ls_E s') (ls_point s').
Proof.
  intros Hinv Hon Hrtc. induction Hrtc as [s|s1 s2 s3 Hstep _ IH]; [done|].
  destruct (loop_step_inv _ _ Hinv Hstep) as [Hinv2 _]. apply (IH Hinv2).
  destruct Hstep as [point point' i E E' _ _ Hm], Hinv as [HN _].
  exact (mult_on_curve E E' point point' i HN Hon Hm).
Qed.

(** A state that satisfies the invariant is an exit state or has a
    successor: the body of the loop cannot raise. *)
Lemma loop_progress (s : loop_state) :
  state_inv s -> loop_exit s \/ exists s', loop_step s s'.
Proof.
  destruct s as [point i E]. intros Hinv. change (loop_inv E point i) in Hinv.
  destruct (decide (div E = 1)) as [Hdiv|Hdiv]; [|by left; left].
  destruct (mult_loop_step E point i Hinv Hdiv) as (p & E1 & Hm & _).
  destruct (loop_inv_point _ _ _ Hinv Hdiv) as [P ->].
  right. eexists. by constructor.
Qed.

(** ** Curve generation *)

Lemma curve_of_draws_Ret (a0 b0 A0 N0 : Z) :
  N0 <> 0 ->
  curve_of_draws a0 b0 A0 N0 =
    Ret ({| x := a0; y := b0 |},
         EllipticCurve_init A0 ((b0 * b0 - a0 * a0 * a0 - A0 * a0) mod N0) N0).
Proof. intros HN. unfold curve_of_draws. by rewrite py_mod_nonzero. Qed.

Lemma loop_inv_init (a0 b0 A0 B0 N0 : Z) (P : Point) :
  N0 <> 0 -> loop_inv (EllipticCurve_init A0 B0 N0) (Some P) 2.
Proof.
  intros HN. repeat split; cbn; try done; try lia. apply Z.divide_1_l.
Qed.

Lemma state_inv_init (A0 B0 N0 : Z) (P : Point) :
  N0 <> 0 -> state_inv (mkLoop (Some P) 2 (EllipticCurve_init A0 B0 N0)).
Proof. apply (loop_inv_init 0 0). Qed.

(** With modulus 1 nothing is ever assigned to [div]. *)
Lemma mult_pure_no_write_1 (E : EllipticCurve) (p : option Point) (k : Z) :
  N E = 1 -> snd (mult_pure E p k) = None.
Proof.
  intros HN. pose proof (mult_pure_good_write E p k) as Hgood.
  destruct (snd (mult_pure E p k)) as [g|]; [|done].
  destruct Hgood as (Hg1 & Hg0 & Hgd). rewrite HN in Hgd.
  apply Z.divide_1_r_nonneg in Hgd; done.
Qed.

Lemma lenstra_loop_modulus_1 (fuel : nat) (P : Point) (i : Z)
  (E : EllipticCurve) :
  N E = 1 -> div E = 1 -> 0 < i ->
  lenstra_loop fuel (Some P) i E = OutOfFuel.
Proof.
  revert P i E. induction fuel as [|fuel IH]; intros P i E HN Hdiv Hi; [done|].
  rewrite lenstra_loop_unfold, decide_True by done. cbn [py_eq Point_eq].
  unfold bind. rewrite mult_run by lia.
  pose proof (mult_pure_None_write E P i Hi) as Hw.
  rewrite (mult_pure_no_write_1 E (Some P) i HN) in *. cbn [write].
  destruct (fst (mult_pure E (Some P) i)) as [P'|].
  - apply IH; [done..|lia].
  - by destruct Hw as [? [=]].
Qed.

(** Every outcome of the search on a freshly constructed object, for every
    method that meets the contract. *)
Lemma search_with_outcome (m : mult_method) `{!MultContract m} (fuel : nat)
  (P : Point) (A0 B0 N0 : Z) :
  N0 <> 0 ->
  match search_with m fuel P (EllipticCurve_init A0 B0 N0) with
  | Ret d => (d | N0) /\ 1 < d <= Z.abs N0
  | Raise _ => False
  | OutOfFuel => True
  end.
Proof.
  intros HN. unfold search_with.
  pose proof (lenstra_loop_with_wlp m fuel _ _ _ (loop_inv_init 0 0 A0 B0 N0 P HN))
    as Hwlp.
  unfold wpg in Hwlp. destruct (lenstra_loop_with m _ _ _ _) as [[[] E']| |]; try done.
  destruct Hwlp as (_ & Hd1 & Hd0 & Hdvd). cbn in Hdvd.
  assert (div E' <> 0) by (intros E0; rewrite E0 in Hdvd; by apply Z.divide_0_l in Hdvd).
  split; [done|]. split; [lia|].
  apply Z.divide_abs_r in Hdvd. apply Z.divide_pos_le in Hdvd; lia.
Qed.

Lemma search_with_mult (fuel : nat) (P : Point) (E : EllipticCurve) :
  search_with mult fuel P E = search fuel P E.
Proof. unfold search_with, search. by rewrite lenstra_loop_with_mult. Qed.

Lemma search_outcome (fuel : nat) (P : Point) (A0 B0 N0 : Z) :
  N0 <> 0 ->
  match search fuel P (EllipticCurve_init A0 B0 N0) with
  | Ret d => (d | N0) /\ 1 < d <= Z.abs N0
  | Raise _ => False
  | OutOfFuel => True
  end.
Proof. rewrite <- search_with_mult. apply (search_with_outcome mult). Qed.

(** ** A search that ends at once *)

(** When 2 y shares a factor with N the first doubling fails, and the loop
    is left after one iteration with that gcd in [div]. *)
Lemma lenstra_loop_first_doubling (fuel : nat) (P : Point) (E : EllipticCurve) :
  N E <> 0 -> div E = 1 -> math_gcd (2 * y P) (N E) <> 1 ->
  lenstra_loop (S (S fuel)) (Some P) 2 E =
    Ret (tt, with_div E (math_gcd (2 * y P) (N E))).
Proof.
  intros HN Hdiv Hg. rewrite lenstra_loop_unfold, decide_True by done.
  cbn [py_eq Point_eq].
  rewrite (bind_returns _ _ _ _ _ (mult_2_failed_doubling E P HN Hg)).
  rewrite lenstra_loop_unfold. by rewrite decide_False.
Qed.

(** ** Theorems on [lenstra] *)

(** The base point lies on the generated curve: B is chosen so that
    b^2 = a^3 + A a + B modulo N, and the object starts with [div] = 1. *)
Theorem curve_of_draws_on_curve (a0 b0 A0 N0 : Z) (P : Point)
  (E : EllipticCurve) :
  curve_of_draws a0 b0 A0 N0 = Ret (P, E) ->
  on_curve E (Some P) /\ P = {| x := a0; y := b0 |} /\
  a E = A0 /\ N E = N0 /\ div E = 1 /\ reduced N0 (b E).
Proof.
  unfold curve_of_draws, py_mod. case_decide as HN; [done|].
  intros [= <- <-]. split_and!; try done; [|by apply reduced_mod].
  unfold on_curve. cbn. rewrite cong_mod_l. apply cong_eq. ring.
Qed.

Lemma curve_of_draws_on_curve_witness : on_curve E91 (Some P23).
Proof. apply (curve_of_draws_on_curve 2 3 5 91 P23 E91 eq_refl). Defined.

(** C13. The test [if point == None: break] of line 131 never fires: from
    any state that satisfies the loop invariant (in particular the initial
    one) the loop runs exactly as the loop without that test, for every
    fuel.  A [None] point always comes with [div] other than 1, which the
    loop condition sees first. *)
Theorem lenstra_break_unreachable (fuel : nat) (point : option Point) (i : Z)
  (E : EllipticCurve) :
  loop_inv E point i ->
  lenstra_loop fuel point i E = lenstra_loop_no_break fuel point i E.
Proof.
  revert point i E. induction fuel as [|fuel IH]; intros point i E Hinv; [done|].
  rewrite lenstra_loop_unfold. cbn [lenstra_loop_no_break]. unfold bind at 2, get.
  case_decide as Hdiv; [|done].
  destruct (mult_loop_step _ _ _ Hinv Hdiv) as (p' & E' & Hrun & _ & Hinv').
  destruct (loop_inv_point _ _ _ Hinv Hdiv) as [P ->]. cbn [py_eq Point_eq].
  rewrite !(bind_returns _ _ _ _ _ Hrun). by apply IH.
Qed.

Lemma lenstra_break_unreachable_witness :
  lenstra_loop 6 (Some P23) 2 E91 = lenstra_loop_no_break 6 (Some P23) 2 E91.
Proof.
  apply lenstra_break_unreachable.
  by apply (loop_inv_init 2 3 5 82 91).
Defined.

(** Whatever the three draws and the fuel, when the search on the
    generated curve returns [d], [d] is a divisor of N with 1 < d <= |N|:
    never 1, never a non-divisor.  ([d] = |N| is possible: the
    uninformative case the caller retries on.) *)
Theorem search_returns_divisor (fuel : nat) (a0 b0 A0 N0 d : Z) (P : Point)
  (E : EllipticCurve) :
  curve_of_draws a0 b0 A0 N0 = Ret (P, E) ->
  search fuel P E = Ret d ->
  (d | N0) /\ 1 < d <= Z.abs N0.
Proof.
  unfold curve_of_draws, py_mod. case_decide as HN; [done|]. intros [= <- <-].
  intros Hs. pose proof (search_outcome fuel (mkPoint a0 b0) A0
    ((b0 * b0 - a0 * a0 * a0 - A0 * a0) mod N0) N0 HN) as Ho.
  by rewrite Hs in Ho.
Qed.

Lemma search_returns_divisor_witness : (7 | 91) /\ 1 < 7 <= Z.abs 91.
Proof.
  apply (search_returns_divisor 8 2 3 5 91 7 P23 E91);
    vm_compute; reflexivity.
Defined.

(** The search never raises on a generated curve: IndexError,
    ValueError and ZeroDivisionError are all unreachable once N is not 0;
    the only outcomes are a returned divisor or fuel exhaustion. *)
Theorem search_never_raises (fuel : nat) (a0 b0 A0 N0 : Z) (P : Point)
  (E : EllipticCurve) (e : exn) :
  curve_of_draws a0 b0 A0 N0 = Ret (P, E) ->
  search fuel P E <> Raise e.
Proof.
  unfold curve_of_draws, py_mod. case_decide as HN; [done|]. intros [= <- <-].
  intros Hs. pose proof (search_outcome fuel (mkPoint a0 b0) A0
    ((b0 * b0 - a0 * a0 * a0 - A0 * a0) mod N0) N0 HN) as Ho.
  by rewrite Hs in Ho.
Qed.

Lemma search_never_raises_witness : search 3 P23 E91 <> Raise ValueError.
Proof. apply (search_never_raises 3 2 3 5 91 P23 E91 ValueError eq_refl). Defined.

(** Fuel is only a bound: a result obtained with some fuel is the
    result with any larger fuel. *)
Theorem search_fuel_monotone (fuel fuel' : nat) (P : Point)
  (E : EllipticCurve) (d : Z) :
  (fuel <= fuel')%nat ->
  search fuel P E = Ret d -> search fuel' P E = Ret d.
Proof.
  intros Hle. unfold search.
  destruct (lenstra_loop fuel (Some P) 2 E) as [[[] E']| |] eqn:Hrun; try done.
  by rewrite (lenstra_loop_fuel_le _ _ _ _ _ _ Hle Hrun).
Qed.

Lemma search_fuel_monotone_witness : search 100 P23 E91 = Ret 7.
Proof.
  apply (search_fuel_monotone 8 100 P23 E91 7); [lia|].
  vm_compute. reflexivity.
Defined.

(** With N = 1 the loop cannot end: every gcd with 1 is 1, so no
    addition fails, [div] stays 1, and the search exhausts any fuel. *)
Theorem search_modulus_1_diverges (fuel : nat) (P : Point) (A0 B0 : Z) :
  search fuel P (EllipticCurve_init A0 B0 1) = OutOfFuel.
Proof. unfold search. by rewrite lenstra_loop_modulus_1. Qed.

(** The two presentations of the loop agree.  The fuel-indexed loop
    computes the runs of the transition system: it returns the object [E'] exactly when fewer than [fuel] iterations
    lead from the initial state to an exit state whose object is [E']. *)
Theorem lenstra_loop_refines_steps (fuel : nat) (point : option Point) (i : Z)
  (E E' : EllipticCurve) :
  lenstra_loop fuel point i E = Ret (tt, E') <->
  exists n s', (n < fuel)%nat /\ nsteps loop_step n (mkLoop point i E) s' /\
    loop_exit s' /\ ls_E s' = E'.
Proof.
  split; [apply lenstra_loop_run|].
  intros (n & s' & Hn & Hsteps & Hexit & <-).
  exact (nsteps_lenstra_loop n fuel _ s' Hsteps Hexit Hn).
Qed.

(** C18. Every state the loop reaches from the state [lenstra] starts it in
    satisfies the invariant and is safe: the modulus is still N, the state
    is an exit state or has a successor (the body cannot raise), and an
    exit state has [div] other than 1, so the loop is never left through
    the [break]. *)
Theorem loop_reachable_safe (a0 b0 A0 N0 : Z) (P : Point) (E : EllipticCurve)
  (s : loop_state) :
  curve_of_draws a0 b0 A0 N0 = Ret (P, E) ->
  rtc loop_step (mkLoop (Some P) 2 E) s ->
  state_inv s /\ N (ls_E s) = N0 /\
  (loop_exit s \/ exists s', loop_step s s') /\
  (loop_exit s -> div (ls_E s) <> 1).
Proof.
  unfold curve_of_draws, py_mod. case_decide as HN; [done|].
  intros [= <- <-] Hrtc.
  destruct (rtc_loop_step_inv _ _ (state_inv_init _ _ _ _ HN) Hrtc)
    as [Hinv (_ & _ & HNs)].
  pose proof Hinv as (_ & _ & _ & _ & Hnone).
  split_and!; [done|done|by apply loop_progress|].
  intros [Hd|Hb%py_eq_None_r]; [done|by apply Hnone].
Qed.

(** The run on N = 91 from the draws a = 2, b = 3, A = 5: six
    iterations, with the multipliers 2 to 7, lead to the exit state in
    which the point is [None] and [div] is 7; after four of them the
    point is (86, 59). *)
Lemma loop_run_91_4 :
  nsteps loop_step 4 (mkLoop (Some P23) 2 E91) (mkLoop (Some (mkPoint 86 59)) 6 E91).
Proof. do 4 loop_iter_run. apply nsteps_O. Qed.

Lemma loop_run_91 :
  nsteps loop_step 6 (mkLoop (Some P23) 2 E91) (mkLoop None 8 (with_div E91 7)).
Proof. do 6 loop_iter_run. apply nsteps_O. Qed.

Lemma loop_reachable_safe_witness :
  state_inv (mkLoop None 8 (with_div E91 7)) /\ N (with_div E91 7) = 91 /\
  (loop_exit (mkLoop None 8 (with_div E91 7)) \/
   exists s', loop_step (mkLoop None 8 (with_div E91 7)) s') /\
  (loop_exit (mkLoop None 8 (with_div E91 7)) -> div (with_div E91 7) <> 1).
Proof.
  apply (loop_reachable_safe 2 3 5 91 P23 E91); [vm_compute; reflexivity|].
  exact (rtc_nsteps_2 _ _ _ loop_run_91).
Defined.

(** C27. The running point of the loop is a point of the generated curve:
    in every state reached from the state [lenstra] starts the loop in, the
    point satisfies y^2 = x^3 + A x + B modulo N for the A drawn and the B
    computed from the draws, and the object still holds these parameters. *)
Theorem loop_point_on_curve (a0 b0 A0 N0 : Z) (P : Point) (E : EllipticCurve)
  (s : loop_state) :
  curve_of_draws a0 b0 A0 N0 = Ret (P, E) ->
  rtc loop_step (mkLoop (Some P) 2 E) s ->
  on_curve (ls_E s) (ls_point s) /\ a (ls_E s) = A0 /\
  b (ls_E s) = (b0 * b0 - a0 * a0 * a0 - A0 * a0) mod N0 /\ N (ls_E s) = N0.
Proof.
  intros Hgen Hrtc.
  destruct (curve_of_draws_on_curve _ _ _ _ _ _ Hgen) as (Hon & _).
  revert Hgen Hon Hrtc. unfold curve_of_draws, py_mod.
  case_decide as HN0; [done|]. intros [= <- <-] Hon Hrtc.
  assert (Hinv : state_inv (mkLoop (Some (mkPoint a0 b0)) 2 (EllipticCurve_init
    A0 ((b0 * b0 - a0 * a0 * a0 - A0 * a0) mod N0) N0)))
    by apply state_inv_init, HN0.
  destruct (rtc_loop_step_inv _ _ Hinv Hrtc) as [_ (Ha & Hb & HN)].
  split; [by apply (rtc_loop_step_on_curve _ _ Hinv Hon)|done].
Qed.

Lemma loop_point_on_curve_witness :
  on_curve E91 (Some (mkPoint 86 59)) /\ a E91 = 5 /\
  b E91 = (3 * 3 - 2 * 2 * 2 - 5 * 2) mod 91 /\ N E91 = 91.
Proof.
  apply (loop_point_on_curve 2 3 5 91 P23 E91 (mkLoop (Some (mkPoint 86 59)) 6 E91));
    [vm_compute; reflexivity|exact (rtc_nsteps_2 _ _ _ loop_run_91_4)].
Defined.

Section LenstraWithSource.
Context {R : Type} `{RandomSource R}.

Lemma draws_wp (N0 : Z) (r : R) :
  1 <= N0 ->
  wp (draws N0)
     (fun d _ => let '(a0, b0, A0) := d in
                 1 <= a0 <= N0 /\ 1 <= b0 <= N0 /\ 1 <= A0 <= N0) r.
Proof.
  intros HN. unfold draws. apply wpg_bind.
  eapply wpg_mono; [|by apply randint_range]. intros a0 r1 Ha. apply wpg_bind.
  eapply wpg_mono; [|by apply randint_range]. intros b0 r2 Hb. apply wpg_bind.
  eapply wpg_mono; [|by apply randint_range]. intros A0 r3 HA.
  by apply wpg_ret.
Qed.

Lemma draws_empty (N0 : Z) (r : R) : N0 < 1 -> raises (draws N0) r ValueError.
Proof. intros HN. unfold draws. by apply bind_raises, randint_empty. Qed.

(** Every outcome of [lenstra]: a divisor of N in 2..N, the ValueError of
    an empty range when N < 1, or fuel exhaustion. *)
Lemma lenstra_outcome (fuel : nat) (N0 : Z) (r : R) :
  match lenstra fuel N0 r with
  | Ret (d, _) => (d | N0) /\ 1 < d <= N0
  | Raise e => N0 < 1 /\ e = ValueError
  | OutOfFuel => 1 <= N0
  end.
Proof.
  destruct (Z.lt_ge_cases N0 1) as [HN|HN].
  { unfold lenstra. by rewrite (bind_raises _ _ _ _ (draws_empty N0 r HN)). }
  pose proof (draws_wp N0 r HN) as Hd. apply wp_iff_returns in Hd.
  destruct Hd as ([[a0 b0] A0] & r1 & Hrun & _).
  unfold lenstra. rewrite (bind_returns _ _ _ _ _ Hrun).
  unfold bind, lift. rewrite curve_of_draws_Ret by lia.
  pose proof (search_outcome fuel (mkPoint a0 b0) A0
    ((b0 * b0 - a0 * a0 * a0 - A0 * a0) mod N0) N0 ltac:(lia)) as Ho.
  destruct (search fuel _ _) as [d'| |]; try done.
  split; [apply Ho|lia].
Qed.

(** The same for [lenstra]: when the second draw [b] makes 2 b share a
    factor with N, two iterations of fuel are enough and the gcd is
    returned. *)
Lemma lenstra_first_doubling (fuel : nat) (N0 a0 b0 A0 : Z) (r r' : R) :
  N0 <> 0 -> draws N0 r = Ret ((a0, b0, A0), r') ->
  math_gcd (2 * b0) N0 <> 1 ->
  lenstra (S (S fuel)) N0 r = Ret (math_gcd (2 * b0) N0, r').
Proof.
  intros HN Hd Hg. unfold lenstra. rewrite (bind_returns _ _ _ _ _ Hd).
  rewrite curve_of_draws_Ret, bind_lift_Ret by done. unfold lift, search.
  by rewrite lenstra_loop_first_doubling.
Qed.

Lemma even_gcd_double (b n : Z) :
  Z.even n = true -> n <> 0 ->
  Z.even (math_gcd (2 * b) n) = true /\ 1 < math_gcd (2 * b) n.
Proof.
  intros Hn%Z.even_spec Hn0.
  assert (Hd : (2 | math_gcd (2 * b) n)).
  { apply Z.gcd_greatest; [by exists b; lia|]. destruct Hn as [k ->]. exists k. lia. }
  pose proof (math_gcd_nonneg (2 * b) n).
  assert (math_gcd (2 * b) n <> 0) by (intros E0%Z.gcd_eq_0_r; done).
  split; [apply Z.even_spec; destruct Hd as [k ->]; exists k; lia|].
  destruct Hd as [k Hk]. lia.
Qed.

(** More fuel does not change what [lenstra] returns. *)
Lemma lenstra_fuel_mono (N0 : Z) : fuel_mono (fun fuel => lenstra fuel N0).
Proof.
  intros fuel fuel' r d r' Hle. unfold lenstra, bind.
  destruct (draws N0 r) as [[[[a0 b0] A0] r1]| |]; [|done..].
  unfold lift. destruct (curve_of_draws a0 b0 A0 N0) as [[P E]| |]; [|done..].
  unfold search.
  destruct (lenstra_loop fuel (Some P) 2 E) as [[[] E']| |] eqn:Hrun; [|done..].
  by rewrite (lenstra_loop_fuel_le _ _ _ _ _ _ Hle Hrun).
Qed.

(** C3. [lenstra(N)], every outcome, for every random source and fuel.
    With N < 1 it raises ValueError at the first draw
    ([random.randint(1, N)] has an empty range), before any curve is
    built, so the ZeroDivisionError of [% N] is unreachable.  With
    N >= 1 it never raises, and a value [d] it returns is a divisor of N
    with 1 < d <= N. *)
Theorem lenstra_every_outcome (fuel : nat) (N0 : Z) (r : R) :
  (N0 < 1 -> lenstra fuel N0 r = Raise ValueError) /\
  (1 <= N0 -> wlp (lenstra fuel N0) (fun d _ => (d | N0) /\ 1 < d <= N0) r).
Proof.
  pose proof (lenstra_outcome fuel N0 r) as Ho. unfold wpg.
  destruct (lenstra fuel N0 r) as [[d r']|e|]; split; intros HN;
    try done; try lia.
  by destruct Ho as [_ ->].
Qed.

(** C21. On an even N >= 2, [lenstra(N)] returns for every random source,
    within two iterations: whatever is drawn, 2 b and N share the factor
    2, the first doubling fails, and the gcd of 2 b and N, an even divisor
    of N, is returned. *)
Theorem lenstra_even_returns (fuel : nat) (N0 : Z) (r : R) :
  2 <= N0 -> Z.even N0 = true ->
  wp (lenstra (S (S fuel)) N0)
     (fun d _ => (d | N0) /\ Z.even d = true /\ 1 < d <= N0) r.
Proof.
  intros HN Heven. pose proof (draws_wp N0 r ltac:(lia)) as Hd.
  apply wp_iff_returns in Hd as ([[a0 b0] A0] & r1 & Hrun & _).
  destruct (even_gcd_double b0 N0 Heven ltac:(lia)) as [He Hgt].
  unfold wpg. rewrite (lenstra_first_doubling fuel N0 a0 b0 A0 r r1) by (done || lia).
  split_and!; [apply math_gcd_divide_r|done|done|].
  apply Z.divide_pos_le; [lia|apply math_gcd_divide_r].
Qed.

End LenstraWithSource.

(** C25. The search needs only the contract of [mult]: for every method
    that, on a point and a positive multiplier, returns, writes nothing
    but [div], writes there only a non-negative divisor of N other than
    1 and returns [None] only after such a write, the loop of [lenstra]
    run on the point and the curve object it builds never raises, and
    what the search returns is a divisor of N with 1 < d <= |N|.
    [mult] meets the contract, and so does its repair ([Repair]): what
    [mult] multiplies by plays no part in the safety of the search. *)
Theorem search_under_contract (m : mult_method) `{!MultContract m}
  (fuel : nat) (a0 b0 A0 N0 : Z) (P : Point) (E : EllipticCurve) :
  curve_of_draws a0 b0 A0 N0 = Ret (P, E) ->
  match search_with m fuel P E with
  | Ret d => (d | N0) /\ 1 < d <= Z.abs N0
  | Raise _ => False
  | OutOfFuel => True
  end.
Proof.
  unfold curve_of_draws, py_mod. case_decide as HN; [done|].
  intros [= <- <-]. by apply search_with_outcome.
Qed.

Lemma search_under_contract_witness :
  match search_with mult 7 P23 E91 with
  | Ret d => (d | 91) /\ 1 < d <= Z.abs 91
  | Raise _ => False
  | OutOfFuel => True
  end.
Proof. exact (search_under_contract mult 7 2 3 5 91 P23 E91 eq_refl). Defined.

Lemma lenstra_every_outcome_witness :
  lenstra 8 0 [1; 2; 4] = Raise ValueError /\
  wlp (lenstra 8 91) (fun d _ => (d | 91) /\ 1 < d <= 91) [1; 2; 4].
Proof.
  split.
  - exact (proj1 (lenstra_every_outcome 8 0 [1; 2; 4]) ltac:(lia)).
  - exact (proj2 (lenstra_every_outcome 8 91 [1; 2; 4]) ltac:(lia)).
Defined.

(** The script [1; 2; 4] replays the draws a = 2, b = 3, A = 5, which
    give the curve [E91] through [P23]. *)
Lemma lenstra_script_91 (fuel : nat) :
  lenstra fuel 91 [1; 2; 4] = lift (search fuel P23 E91) [].
Proof. reflexivity. Qed.

(** A complete run: on N = 91 with the draws a = 2, b = 3, A = 5 the
    search multiplies by 2, 3, ..., 7 and returns the factor 7, for every
    fuel of at least 7 (six iterations and the test that leaves the
    loop); with fuel 6 the fuel runs out. *)
Theorem lenstra_91_returns_7 (fuel : nat) :
  (7 <= fuel)%nat ->
  lenstra fuel 91 [1; 2; 4] = Ret (7, []) /\ lenstra 6 91 [1; 2; 4] = OutOfFuel.
Proof.
  intros Hfuel. split; [|vm_compute; reflexivity].
  rewrite lenstra_script_91. unfold lift, search.
  assert (Hrun : lenstra_loop 7 (Some P23) 2 E91 = Ret (tt, with_div E91 7))
    by (vm_compute; reflexivity).
  by rewrite (lenstra_loop_fuel_le _ _ _ _ _ _ Hfuel Hrun).
Qed.

Lemma lenstra_91_returns_7_witness : lenstra 7 91 [1; 2; 4] = Ret (7, []).
Proof. exact (proj1 (lenstra_91_returns_7 7 ltac:(lia))). Defined.

Lemma lenstra_even_returns_witness :
  wp (lenstra 2 4) (fun d _ => (d | 4) /\ Z.even d = true /\ 1 < d <= 4) [0; 0; 0].
Proof. apply (lenstra_even_returns 0 4 [0; 0; 0]); [lia|reflexivity]. Defined.
