(* ===== verification/Rounds.v ===== *)
(** * Rounds: the multipliers that the loop of [lenstra] applies

    Lenstra's method multiplies the point by 2, 3, 4, ... so that after m
    rounds it holds m! times the base point.  The loop of src/main.py
    calls [mult(point, i)] for these [i], and [mult] applies the bit
    reversal of its multiplier ([BitReversal]): along a run of the loop the
    point is the result of the intended double-and-add with the
    multipliers [bit_reverse 2], [bit_reverse 3], ...  Each of them is
    odd, so their product is odd: where the method accumulates m!, the
    loop accumulates a number without the factor 2. *)

From Stdlib Require Import ZArith Lia Morphisms.
From stdpp Require Import base tactics option list relations.
From S2P Require Import Prelude ModInt Points Curve ScalarMult BitReversal Lenstra.

Local Open Scope Z_scope.

(** ** Definitions *)

(** [n] rounds of the intended algorithm from multiplier [i], each with the
    reversed multiplier. *)
Fixpoint reversed_rounds (E : EllipticCurve) (p : option Point) (i : Z)
  (n : nat) : option Point :=
  match n with
  | O => p
  | S n' => reversed_rounds E (fst (mult_intended E p (bit_reverse i))) (i + 1) n'
  end.

(** The product of the multipliers of [n] rounds from [i]: the one the
    method accumulates, and the one the loop does. *)
Fixpoint smooth_multiplier (i : Z) (n : nat) : Z :=
  match n with
  | O => 1
  | S n' => i * smooth_multiplier (i + 1) n'
  end.

Fixpoint applied_multiplier (i : Z) (n : nat) : Z :=
  match n with
  | O => 1
  | S n' => bit_reverse i * applied_multiplier (i + 1) n'
  end.

(** ** The intended algorithm reads only the parameters *)

#[export] Instance mult_intended_proper :
  Proper (same_params ==> eq ==> eq ==> eq) mult_intended.
Proof.
  intros E1 E2 HE p ? <- k ? <-. destruct p as [P|]; [|done].
  unfold mult_intended. by rewrite HE.
Qed.

#[export] Instance reversed_rounds_proper :
  Proper (same_params ==> eq ==> eq ==> eq ==> eq) reversed_rounds.
Proof.
  intros E1 E2 HE p ? <- i ? <- n ? <-. revert p i.
  induction n as [|n IH]; intros p i; [done|].
  cbn [reversed_rounds]. by rewrite IH, HE.
Qed.

(** ** One round, and a run *)

Lemma loop_step_reversed (s s' : loop_state) :
  state_inv s -> loop_step s s' ->
  ls_point s' = fst (mult_intended (ls_E s) (ls_point s) (bit_reverse (ls_i s))).
Proof.
  intros (HN & Hi & _) Hstep. destruct Hstep as [point point' i E E' _ Hb Hm].
  cbn [ls_point ls_i ls_E] in *. destruct point as [P|]; [|done].
  rewrite mult_run in Hm by done. injection Hm as <- _.
  by apply mult_pure_bit_reverse.
Qed.

(** C26. Along a run of the loop of [lenstra], from any state that
    satisfies the invariant, the running point is what the intended
    double-and-add gives with the reversed multipliers: after n rounds
    from multiplier i, the rounds of [bit_reverse i], ...,
    [bit_reverse (i + n - 1)]. *)
Theorem loop_applies_reversed (n : nat) (s s' : loop_state) :
  state_inv s -> nsteps loop_step n s s' ->
  ls_point s' = reversed_rounds (ls_E s) (ls_point s) (ls_i s) n.
Proof.
  intros Hinv Hsteps. induction Hsteps as [s|n s1 s2 s3 Hstep _ IH]; [done|].
  destruct (loop_step_inv _ _ Hinv Hstep) as [Hinv2 Hsame].
  rewrite (IH Hinv2). cbn [reversed_rounds].
  rewrite <- (loop_step_reversed _ _ Hinv Hstep), <- Hsame.
  by destruct Hstep.
Qed.

(** ** The accumulated multiplier *)

(** Every multiplier the loop applies is odd, and so is their product. *)
Lemma applied_multiplier_odd (i : Z) (n : nat) :
  0 < i -> Z.odd (applied_multiplier i n) = true.
Proof.
  revert i. induction n as [|n IH]; intros i Hi; [done|].
  cbn [applied_multiplier]. rewrite Z.odd_mul, bit_reverse_odd, IH by lia. done.
Qed.

(** The multiplier of the method is even from the second round on. *)
Lemma smooth_multiplier_even (i : Z) (n : nat) :
  Z.even (smooth_multiplier i (S (S n))) = true.
Proof.
  cbn [smooth_multiplier]. rewrite Z.mul_assoc, Z.even_mul, Z.even_mul.
  rewrite Z.even_add. destruct (Z.even i); done.
Qed.

(** From the second round on the loop never applies the multiplier of the
    method. *)
Theorem applied_multiplier_differs (i : Z) (n : nat) :
  0 < i -> applied_multiplier i (S (S n)) <> smooth_multiplier i (S (S n)).
Proof.
  intros Hi Heq. pose proof (applied_multiplier_odd i (S (S n)) Hi) as Hodd.
  rewrite Heq, <- Z.negb_even, smooth_multiplier_even in Hodd. done.
Qed.

Lemma loop_applies_reversed_witness :
  ls_point (mkLoop (Some P23) 3 E91) = reversed_rounds E91 (Some P23) 2 1.
Proof.
  apply (loop_applies_reversed 1 (mkLoop (Some P23) 2 E91));
    [by apply (state_inv_init 5 82 91 P23)|].
  apply (nsteps_l _ _ _ (mkLoop (Some P23) (2 + 1) E91)); [|constructor].
  by apply (loop_iter (Some P23) (Some P23) 2 E91 E91).
Defined.

Lemma applied_multiplier_differs_witness :
  applied_multiplier 2 2 <> smooth_multiplier 2 2.
Proof. apply applied_multiplier_differs. lia. Defined.
