(* ===== verification/Reduction.v ===== *)
(** * Reduction: the arithmetic modulo N and the arithmetic modulo a divisor

    Lenstra's method works because a computation modulo N is, at the same
    time, the same computation modulo every divisor p of N.  This file
    proves it of the code: as long as no addition fails, reducing the
    coordinates modulo p commutes with [sum] ([sum_reduces]), with [mult]
    ([mult_reduce_run]) and with the iterations of the loop of [lenstra]
    ([loop_reduces]); an addition that fails modulo p fails modulo N,
    with a [div] that is a multiple of the one found modulo p
    ([sum_failure_lifts]); an addition that fails modulo N and not
    modulo p stores a proper divisor, coprime to p, provided both take
    the same branch ([sum_failure_proper], with [sum_failure_improper]
    for the proviso); and so the search modulo N returns within the
    fuel within which the search modulo any divisor returns
    ([search_returns_with_divisor]).

    [reduce_point], [reduce_curve] and [reduce_state] are the reduction
    of a point, of the curve object and of a state of the loop:
    [reduce_state] is the abstraction function of a lock-step simulation
    of the transition system [loop_step] with modulus N by the one with
    modulus p, which holds from the states that are [reducible].  The
    object keeps its [a] and [b]: neither [sum] nor [mult] reads [b], and
    [a] is only read modulo the modulus. *)

From Stdlib Require Import ZArith Ascii Lia Morphisms.
From stdpp Require Import base tactics option list relations.
From S2P Require Import Prelude ModInt Points Curve ScalarMult Lenstra.

Local Open Scope Z_scope.
Local Open Scope py_scope.

(** ** Definitions *)

(** The point with its coordinates reduced modulo [p]. *)
Definition reduce_point (p : Z) (P : Point) : Point :=
  {| x := x P mod p; y := y P mod p |}.

(** The curve object with modulus [p]. *)
Definition reduce_curve (p : Z) (E : EllipticCurve) : EllipticCurve :=
  {| a := a E; b := b E; N := p; div := div E |}.

(** The state of the loop of [lenstra], seen modulo [p]. *)
Definition reduce_state (p : Z) (s : loop_state) : loop_state :=
  mkLoop (reduce_point p <$> ls_point s) (ls_i s) (reduce_curve p (ls_E s)).

(** The states from which the simulation runs: the invariant of the loop
    holds and [p] divides the modulus. *)
Definition reducible (p : Z) (s : loop_state) : Prop :=
  state_inv s /\ (p | N (ls_E s)).

(** An addition of two points that returns a point has assigned nothing. *)
Lemma sum_pure_point_no_write (E : EllipticCurve) (P Q : Point) :
  is_Some (fst (sum_pure E (Some P) (Some Q))) ->
  snd (sum_pure E (Some P) (Some Q)) = None.
Proof. unfold sum_pure. case_decide; [by intros [? [=]]|done]. Qed.

(** ** Congruences modulo a divisor *)

Section Divisor.
Context (p n : Z) (Hp : 1 < p) (Hpn : (p | n)).

Lemma cong_divisor (u v : Z) : u ≡[n] v -> u ≡[p] v.
Proof. rewrite !cong_divide. by apply Z.divide_trans. Qed.

Lemma cong_mod_divisor (u : Z) : u mod n ≡[p] u.
Proof. apply cong_divisor, cong_mod_l. Qed.

Lemma math_gcd_cong (d d' : Z) : d ≡[p] d' -> math_gcd d p = math_gcd d' p.
Proof.
  unfold cong, math_gcd. intros Hd.
  rewrite (Z.gcd_comm d), (Z.gcd_comm d').
  rewrite <- (Z.gcd_mod d p), <- (Z.gcd_mod d' p) by lia. by rewrite Hd.
Qed.

Lemma coprime_divisor (d : Z) : math_gcd d n = 1 -> math_gcd d p = 1.
Proof.
  unfold math_gcd. intros Hd. apply Z.gcd_unique; [lia|auto with zarith..|].
  intros q Hq1 Hq2. rewrite <- Hd. apply Z.gcd_greatest; [done|].
  by apply (Z.divide_trans _ p).
Qed.

(** A denominator that is a unit modulo [n] does not vanish modulo [p]. *)
Lemma unit_not_divisible (d : Z) : math_gcd d n = 1 -> ~ d ≡[p] 0.
Proof.
  intros Hd%coprime_divisor H0%math_gcd_cong.
  rewrite Hd in H0. unfold math_gcd in H0. rewrite Z.gcd_0_l in H0. lia.
Qed.

(** The inverse modulo [n] is, modulo [p], the inverse modulo [p]. *)
Lemma invmod_divisor (d d' : Z) :
  d' ≡[p] d -> math_gcd d n = 1 -> Z.invmod d' p ≡[p] Z.invmod d n.
Proof.
  intros Hd Hunit. apply (cong_inverse_unique p d').
  - apply invmod_cong. rewrite (math_gcd_cong d' d Hd). by apply coprime_divisor.
  - rewrite Hd. by apply cong_divisor, invmod_cong.
Qed.

(** A divisor of [p] divides along with a congruence modulo [p]. *)
Lemma divide_cong (g d d' : Z) : (g | p) -> d ≡[p] d' -> (g | d') -> (g | d).
Proof.
  intros Hg Hd%cong_divide Hd'. replace d with (d' + (d - d')) by ring.
  apply Z.divide_add_r; [done|]. by apply (Z.divide_trans _ p).
Qed.

(** The gcd with N, taken again with [p], is the gcd with [p]. *)
Lemma math_gcd_divisor (d : Z) : math_gcd (math_gcd d n) p = math_gcd d p.
Proof.
  unfold math_gcd. rewrite <- Z.gcd_assoc, (Z.gcd_comm n p).
  by rewrite (proj1 (Z.divide_gcd_iff p n ltac:(lia)) Hpn).
Qed.

(** A divisor of N that is coprime to [p] is not |N|. *)
Lemma coprime_divisor_proper (g : Z) :
  n <> 0 -> (g | n) -> 0 <= g -> g <> 1 -> math_gcd g p = 1 ->
  1 < g < Z.abs n.
Proof.
  intros Hn Hg H0 H1 Hc.
  assert (g <> 0) by (intros ->; by apply Z.divide_0_l in Hg).
  assert (g <= Z.abs n)
    by (apply Z.divide_pos_le; [lia|by apply Z.divide_abs_r]).
  split; [lia|]. destruct (decide (g = Z.abs n)) as [->|]; [|lia].
  unfold math_gcd in Hc. rewrite Z.gcd_abs_l, Z.gcd_comm in Hc.
  rewrite (proj1 (Z.divide_gcd_iff p n ltac:(lia)) Hpn) in Hc. lia.
Qed.

End Divisor.

(** ** One addition *)

Section SumReduction.
Context (p : Z) (E : EllipticCurve) (Hp : 1 < p) (Hdiv : (p | N E)).

(** When the test [p == q] of [sum] has the same answer modulo N and
    modulo [p], the two additions take the same branch and their
    denominators agree modulo [p]. *)
Lemma slope_den_reduce_branch (P Q : Point) :
  Point_eq (reduce_point p P) (Some (reduce_point p Q)) = Point_eq P (Some Q) ->
  slope_den (reduce_point p P) (reduce_point p Q) ≡[p] slope_den P Q.
Proof.
  unfold slope_den. intros ->.
  destruct (Point_eq P (Some Q)); cbn [x y reduce_point]; by rewrite !cong_mod_l.
Qed.

Section Formulas.
Context (P Q : Point) (Hunit : math_gcd (slope_den P Q) (N E) = 1).

(** When the addition modulo N succeeds, the addition modulo [p] takes
    the same branch: two distinct points with an invertible difference
    of abscissas stay distinct modulo [p]. *)
Lemma Point_eq_reduce :
  Point_eq (reduce_point p P) (Some (reduce_point p Q)) = Point_eq P (Some Q).
Proof.
  destruct (Point_eq P (Some Q)) eqn:HPQ.
  { apply Point_eq_Some in HPQ as <-. apply Point_eq_refl. }
  apply not_true_is_false. intros [= Hx Hy]%Point_eq_Some.
  apply (unit_not_divisible p (N E) Hp Hdiv _ Hunit).
  unfold slope_den. rewrite HPQ. apply (proj1 (cong_sub_0 p (x Q) (x P))).
  symmetry. exact Hx.
Qed.

Lemma slope_den_reduce :
  slope_den (reduce_point p P) (reduce_point p Q) ≡[p] slope_den P Q.
Proof. apply slope_den_reduce_branch, Point_eq_reduce. Qed.

Lemma slope_num_reduce :
  slope_num (reduce_curve p E) (reduce_point p P) (reduce_point p Q)
    ≡[p] slope_num E P Q.
Proof.
  unfold slope_num. rewrite Point_eq_reduce.
  destruct (Point_eq P (Some Q)); cbn [x y a reduce_point reduce_curve];
    by rewrite !cong_mod_l.
Qed.

(** The chord and tangent formulas commute with the reduction. *)
Lemma sum_point_reduce :
  sum_point (reduce_curve p E) (reduce_point p P) (reduce_point p Q) =
    reduce_point p (sum_point E P Q).
Proof.
  pose proof (invmod_divisor p (N E) Hp Hdiv _ _ slope_den_reduce Hunit) as Hi.
  pose proof slope_num_reduce as Hn.
  unfold sum_point, reduce_point. cbn [x y N reduce_curve].
  set (s' := slope_num _ _ _ * Z.invmod _ p).
  set (s := slope_num E P Q * Z.invmod _ (N E)).
  assert (Hs : s' ≡[p] s) by (subst s s'; by rewrite Hn, Hi).
  set (X' := s' * s' - _ - _). set (X := (s * s - _ - _) mod N E).
  assert (HX : X' ≡[p] X).
  { subst X X'. by rewrite (cong_mod_divisor p (N E) Hdiv), !cong_mod_l, Hs. }
  f_equal; [exact HX|]. apply cong_mod_eq.
  by rewrite (cong_mod_divisor p (N E) Hdiv), !cong_mod_l, Hs, HX.
Qed.

End Formulas.

(** Without the hypothesis that the addition succeeds the branches may
    differ: two distinct points may coincide modulo [p].  Then the
    denominator modulo N vanishes modulo [p]. *)
Lemma slope_den_reduce_cases (P Q : Point) :
  slope_den (reduce_point p P) (reduce_point p Q) ≡[p] slope_den P Q \/
  slope_den P Q ≡[p] 0.
Proof.
  unfold slope_den. destruct (Point_eq P (Some Q)) eqn:HPQ.
  { apply Point_eq_Some in HPQ as <-. rewrite Point_eq_refl. left.
    cbn [y reduce_point]. by rewrite cong_mod_l. }
  destruct (Point_eq (reduce_point p P) _) eqn:Hred.
  - right. apply Point_eq_Some in Hred as [= Hx _].
    apply (proj1 (cong_sub_0 p (x Q) (x P))). symmetry. exact Hx.
  - left. cbn [x reduce_point]. by rewrite !cong_mod_l.
Qed.

(** An addition modulo N that assigns nothing is the addition modulo [p]
    of the reduced points. *)
Lemma sum_pure_reduce (u v : option Point) :
  snd (sum_pure E u v) = None ->
  sum_pure (reduce_curve p E) (reduce_point p <$> u) (reduce_point p <$> v) =
    (reduce_point p <$> fst (sum_pure E u v), None).
Proof.
  destruct u as [P|], v as [Q|]; try done. unfold sum_pure.
  cbn [fmap option_fmap option_map N reduce_curve].
  case_decide as Hg; [done|]. intros _.
  rewrite decide_False; [cbn; by rewrite sum_point_reduce|].
  intros Hne. apply Hne.
  rewrite (math_gcd_cong p Hp _ _ (slope_den_reduce P Q Hg)).
  by apply (coprime_divisor p (N E)).
Qed.

(** An addition that fails modulo [p] fails modulo N, and the divisor
    found modulo N is a multiple of the one found modulo [p]. *)
Lemma sum_pure_failure_lifts (P Q : Point) (g' : Z) :
  snd (sum_pure (reduce_curve p E) (Some (reduce_point p P))
         (Some (reduce_point p Q))) = Some g' ->
  exists g, sum_pure E (Some P) (Some Q) = (None, Some g) /\ (g' | g).
Proof.
  intros Hfail.
  destruct (snd (sum_pure E (Some P) (Some Q))) as [g|] eqn:Hw;
    [|by rewrite (sum_pure_reduce (Some P) (Some Q) Hw : sum_pure _ (Some _) (Some _) = _)
        in Hfail].
  revert Hfail Hw. unfold sum_pure. cbn [N reduce_curve].
  repeat case_decide; try done. intros [= <-] [= <-].
  eexists. split; [done|].
  pose proof (Z.gcd_divide_l (slope_den (reduce_point p P) (reduce_point p Q)) p).
  pose proof (Z.gcd_divide_r (slope_den (reduce_point p P) (reduce_point p Q)) p).
  apply Z.gcd_greatest; [|by apply (Z.divide_trans _ p)].
  destruct (slope_den_reduce_cases P Q) as [Hd|Hd].
  - by apply (divide_cong p _ _ _ ltac:(done) (symmetry Hd)).
  - apply (divide_cong p _ _ 0 ltac:(done) Hd), Z.divide_0_r.
Qed.

(** An addition that fails modulo N and not modulo [p], on the same
    branch, finds a divisor that is coprime to [p]. *)
Lemma sum_pure_failure_coprime (P Q : Point) (g : Z) :
  Point_eq (reduce_point p P) (Some (reduce_point p Q)) = Point_eq P (Some Q) ->
  snd (sum_pure E (Some P) (Some Q)) = Some g ->
  snd (sum_pure (reduce_curve p E) (Some (reduce_point p P))
         (Some (reduce_point p Q))) = None ->
  math_gcd g p = 1.
Proof.
  intros Hb. unfold sum_pure. cbn [N reduce_curve].
  repeat case_decide; try done. intros [= <-] _.
  rewrite (math_gcd_divisor p (N E) Hp Hdiv).
  by rewrite <- (math_gcd_cong p Hp _ _ (slope_den_reduce_branch P Q Hb)).
Qed.

End SumReduction.

(** ** A multiplication *)

Section MultReduction.
Context (p : Z) (E : EllipticCurve) (Hp : 1 < p) (Hdiv : (p | N E)).

Lemma powers_pure_reduce (n : nat) (top : option Point) :
  snd (powers_pure E n top) = None ->
  powers_pure (reduce_curve p E) n (reduce_point p <$> top) =
    (fmap (M := option) (reduce_point p) <$> fst (powers_pure E n top), None).
Proof.
  revert top. induction n as [|n IH]; intros top; [done|].
  cbn [powers_pure fst snd]. intros [Hs Hr]%later_None.
  rewrite (sum_pure_reduce p E Hp Hdiv top top Hs). cbn [fst snd].
  by rewrite (IH _ Hr).
Qed.

Lemma select_pure_reduce (t : list (option Point)) (i : nat)
  (digits : list ascii) (q : option Point) :
  snd (select_pure E t i digits q) = None ->
  select_pure (reduce_curve p E) (fmap (M := option) (reduce_point p) <$> t) i digits
      (reduce_point p <$> q) =
    (reduce_point p <$> fst (select_pure E t i digits q), None).
Proof.
  revert i q. induction digits as [|v rest IH]; intros i q; [done|].
  cbn [select_pure]. case_decide; [|apply IH]. rewrite list_lookup_fmap.
  set (entry := match t !! i with Some e => e | None => None end).
  replace (match fmap (M := option) (reduce_point p) <$> t !! i with Some e => e | None => None end)
    with (reduce_point p <$> entry) by (subst entry; by destruct (t !! i)).
  destruct (fst (sum_pure E entry q)) as [R|] eqn:Hr; cbn [fst snd].
  - intros [Hs Hrest]%later_None.
    rewrite (sum_pure_reduce p E Hp Hdiv entry q Hs), Hr.
    cbn [fst snd fmap option_fmap option_map].
    pose proof (IH (S i) (Some R) Hrest) as IH'.
    cbn [fmap option_fmap option_map] in IH'. by rewrite IH'.
  - intros Hs. by rewrite (sum_pure_reduce p E Hp Hdiv entry q Hs), Hr.
Qed.

(** A multiplication modulo N that assigns nothing is the multiplication
    modulo [p] of the reduced point. *)
Lemma mult_pure_reduce (u : option Point) (k : Z) :
  snd (mult_pure E u k) = None ->
  mult_pure (reduce_curve p E) (reduce_point p <$> u) k =
    (reduce_point p <$> fst (mult_pure E u k), None).
Proof.
  destruct u as [P|]; [|done]. unfold mult_pure.
  cbn [fst snd fmap option_fmap option_map]. intros [Ht Hs]%later_None.
  pose proof (powers_pure_reduce _ (Some P) Ht) as Hpow.
  pose proof (select_pure_reduce (Some P :: _) 0 _ None Hs) as Hsel.
  cbn [fmap option_fmap option_map list_fmap] in Hpow, Hsel.
  rewrite Hpow. cbn [fst snd]. by rewrite Hsel.
Qed.

(** The same for the command: a call of [mult] that leaves [div] at 1. *)
Lemma mult_reduce_run (u v : option Point) (k : Z) (E' : EllipticCurve) :
  N E <> 0 -> div E = 1 -> mult u k E = Ret (v, E') -> div E' = 1 ->
  E' = E /\
  mult (reduce_point p <$> u) k (reduce_curve p E) =
    Ret (reduce_point p <$> v, reduce_curve p E).
Proof.
  intros HN HE. rewrite mult_run by done. intros [= <- <-] Hdiv'.
  pose proof (mult_pure_good_write E u k) as Hgood.
  destruct (snd (mult_pure E u k)) as [g|] eqn:Hw; [by destruct Hgood|].
  split; [done|]. rewrite mult_run by (cbn; lia).
  by rewrite (mult_pure_reduce u k Hw).
Qed.

End MultReduction.

(** ** The loop *)

Section LoopReduction.
Context (p : Z) (Hp : 1 < p).

Lemma loop_step_reducible (s s' : loop_state) :
  reducible p s -> loop_step s s' -> reducible p s'.
Proof.
  intros [Hinv Hdvd] Hstep.
  destruct (loop_step_inv _ _ Hinv Hstep) as (Hinv' & _ & _ & HN).
  split; [done|]. by rewrite HN.
Qed.

Lemma nsteps_reducible (n : nat) (s s' : loop_state) :
  reducible p s -> nsteps loop_step n s s' -> reducible p s'.
Proof.
  intros Hred Hsteps. induction Hsteps as [|n s1 s2 s3 Hstep _ IH]; [done|].
  by apply IH, (loop_step_reducible s1).
Qed.

(** One iteration that leaves [div] at 1 is an iteration modulo [p]. *)
Lemma loop_step_reduce (s s' : loop_state) :
  reducible p s -> loop_step s s' -> div (ls_E s') = 1 ->
  loop_step (reduce_state p s) (reduce_state p s').
Proof.
  intros [(HN & _) Hdvd] Hstep Hdiv'.
  destruct Hstep as [point point' i E E' Hdiv Hb Hm]. cbn [ls_E] in *.
  destruct (mult_reduce_run p E Hp Hdvd point point' i E' HN Hdiv Hm Hdiv')
    as [-> Hm'].
  apply loop_iter; [done| |done]. by destruct point.
Qed.

(** The same along a run: the states before the last have passed the
    test of the [while]. *)
Lemma loop_reduces_steps (n : nat) (s s' : loop_state) :
  reducible p s -> nsteps loop_step n s s' -> div (ls_E s') = 1 ->
  nsteps loop_step n (reduce_state p s) (reduce_state p s').
Proof.
  intros Hred. revert s'. induction n as [|n IH]; intros s' Hsteps Hdiv.
  { inversion Hsteps; subst. constructor. }
  apply nsteps_inv_r in Hsteps as (s2 & Hsteps & Hstep).
  assert (Hdiv2 : div (ls_E s2) = 1) by (by destruct Hstep).
  eapply nsteps_r; [by apply IH|].
  apply loop_step_reduce; [|done..]. by apply (nsteps_reducible n s).
Qed.

End LoopReduction.

(** ** Bounded runs *)

(** From a state that satisfies the invariant the loop runs [m] iterations
    or reaches an exit state earlier: it is never stuck. *)
Lemma loop_runs (m : nat) (s : loop_state) :
  state_inv s ->
  exists m' s', (m' <= m)%nat /\ nsteps loop_step m' s s' /\
    (loop_exit s' \/ m' = m).
Proof.
  intros Hinv. induction m as [|m (m' & s' & Hle & Hsteps & [Hexit| ->])].
  - exists 0%nat, s. split_and!; [lia|constructor|by right].
  - exists m', s'. split_and!; [lia|done|by left].
  - destruct (rtc_loop_step_inv s s' Hinv (rtc_nsteps_2 _ _ _ Hsteps)) as [Hinv' _].
    destruct (loop_progress s' Hinv') as [Hexit|[s'' Hstep]].
    + exists m, s'. split_and!; [lia|done|by left].
    + exists (S m), s''. split_and!; [lia|by eapply nsteps_r|by right].
Qed.

Lemma nsteps_loop_deterministic (n : nat) (s s1 s2 : loop_state) :
  nsteps loop_step n s s1 -> nsteps loop_step n s s2 -> s1 = s2.
Proof.
  intros H1. revert s2. induction H1 as [s|n s1 s2 s3 Hstep _ IH]; intros s4 H2.
  { by inversion H2. }
  inversion H2 as [|? ? s2' ? Hstep' H2']; subst.
  rewrite (loop_step_deterministic _ _ _ Hstep' Hstep) in H2'. by apply IH.
Qed.

(** A state with [div] at 1 that satisfies the invariant is not an exit
    state, and neither is its reduction. *)
Lemma reduce_state_not_exit (p : Z) (s : loop_state) :
  state_inv s -> div (ls_E s) = 1 -> ~ loop_exit (reduce_state p s).
Proof.
  intros Hinv Hdiv. destruct (loop_inv_point _ _ _ Hinv Hdiv) as [P HP].
  unfold loop_exit, reduce_state. rewrite HP. cbn. intros [?|?]; congruence.
Qed.

(** When the loop modulo a divisor reaches an exit state in [m]
    iterations, the loop modulo N reaches one in at most [m]. *)
Lemma loop_exit_lifts (p : Z) (m : nat) (s sp : loop_state) :
  1 < p -> reducible p s ->
  nsteps loop_step m (reduce_state p s) sp -> loop_exit sp ->
  exists m' s', (m' <= m)%nat /\ nsteps loop_step m' s s' /\ loop_exit s'.
Proof.
  intros Hp Hred Hsp Hexit. pose proof Hred as [Hinv _].
  destruct (loop_runs m s Hinv) as (m' & s' & Hle & Hsteps & [Hexit'| ->]);
    [by eauto|].
  exists m, s'. split_and!; [done..|].
  destruct (decide (div (ls_E s') = 1)) as [Hdiv|Hdiv]; [|by left].
  destruct (rtc_loop_step_inv s s' Hinv (rtc_nsteps_2 _ _ _ Hsteps)) as [Hinv' _].
  pose proof (loop_reduces_steps p Hp m s s' Hred Hsteps Hdiv) as Hsim.
  rewrite (nsteps_loop_deterministic _ _ _ _ Hsp Hsim) in Hexit.
  by destruct (reduce_state_not_exit p s' Hinv' Hdiv).
Qed.

(** A divisor of a prime other than 1 is the prime. *)
Lemma prime_divisor_eq (p g : Z) :
  Z.prime p -> (g | p) -> 0 <= g -> g <> 1 -> g = p.
Proof.
  intros Hprime Hg H0 H1. pose proof (Z.prime_ge_2 p Hprime).
  destruct (Z.divide_prime_r g p Hprime Hg) as [?|[?|[?|?]]]; lia.
Qed.

(** ** Theorems *)

(** C10. Reduction commutes with a successful addition: when [sum] on two
    points returns a point modulo N, then for every divisor p > 1 of N,
    [sum] on the reduced points with modulus p returns the reduced
    point, and assigns nothing (both take the same branch, chord or
    tangent, and the inverse modulo N is an inverse modulo p). *)
Theorem sum_reduces (p : Z) (E E' : EllipticCurve) (P Q R : Point) :
  1 < p -> (p | N E) -> N E <> 0 ->
  sum (Some P) (Some Q) E = Ret (Some R, E') ->
  sum (Some (reduce_point p P)) (Some (reduce_point p Q)) (reduce_curve p E) =
    Ret (Some (reduce_point p R), reduce_curve p E).
Proof.
  intros Hp Hdvd HN. rewrite !sum_run by (cbn; lia).
  pose proof (sum_pure_reduce p E Hp Hdvd (Some P) (Some Q)) as Hred.
  cbn [fmap option_fmap option_map] in Hred. revert Hred.
  destruct (sum_pure E (Some P) (Some Q)) as [v [g|]] eqn:Hs; cbn [fst snd].
  - intros _ [= -> _]. unfold sum_pure in Hs. by case_decide.
  - intros Hred [= -> _]. by rewrite Hred.
Qed.

(** C11. A failure modulo a divisor is a failure modulo N: when [sum] on
    the reduced points fails with modulus p, a divisor of N, then [sum]
    fails modulo N, and the [div] it stores is a multiple of the [div]
    found modulo p; when p is prime it is a multiple of p.  The divisor
    reported by a failed addition therefore contains every prime factor
    of N modulo which the addition fails. *)
Theorem sum_failure_lifts (p : Z) (E Ep : EllipticCurve) (P Q : Point) :
  1 < p -> (p | N E) -> N E <> 0 ->
  sum (Some (reduce_point p P)) (Some (reduce_point p Q)) (reduce_curve p E) =
    Ret (None, Ep) ->
  exists E', sum (Some P) (Some Q) E = Ret (None, E') /\
    (div Ep | div E') /\ (Z.prime p -> (p | div E')).
Proof.
  intros Hp Hdvd HN. rewrite !sum_run by (cbn; lia).
  pose proof (sum_pure_None_write (reduce_curve p E) (Some (reduce_point p P))
    (Some (reduce_point p Q)) ltac:(done)) as Hw.
  pose proof (sum_pure_good_write (reduce_curve p E) (Some (reduce_point p P))
    (Some (reduce_point p Q))) as Hgood.
  pose proof (sum_pure_failure_lifts p E Hp Hdvd P Q) as Hlift.
  destruct (sum_pure (reduce_curve p E) _ _) as [v w]. cbn [fst snd] in *.
  intros [= -> <-]. destruct (Hw eq_refl) as [g' ->].
  destruct (Hlift g' eq_refl) as (g & -> & Hgg), Hgood as (Hg1 & Hg0 & Hgp).
  eexists. split_and!; [done..|].
  intros Hprime. by rewrite <- (prime_divisor_eq p g' Hprime Hgp Hg0 Hg1).
Qed.

(** C12. When the divisor is a proper one.  If [sum] fails modulo N
    while, for a divisor q > 1 of N, [sum] on the reduced points with
    modulus q returns a point, and the test [p == q] has the same answer
    in both, then the [div] stored is coprime to q: it is a divisor of N
    strictly between 1 and |N|.  An addition finds a proper factor when
    it fails modulo one factor of N and not modulo another. *)
Theorem sum_failure_proper (q : Z) (E E' Eq : EllipticCurve) (P Q R : Point) :
  1 < q -> (q | N E) -> N E <> 0 ->
  Point_eq (reduce_point q P) (Some (reduce_point q Q)) = Point_eq P (Some Q) ->
  sum (Some P) (Some Q) E = Ret (None, E') ->
  sum (Some (reduce_point q P)) (Some (reduce_point q Q)) (reduce_curve q E) =
    Ret (Some R, Eq) ->
  math_gcd (div E') q = 1 /\ (div E' | N E) /\ 1 < div E' < Z.abs (N E).
Proof.
  intros Hq Hdvd HN Hb. rewrite !sum_run by (cbn; lia).
  pose proof (sum_pure_None_write E (Some P) (Some Q) ltac:(done)) as Hw.
  pose proof (sum_pure_good_write E (Some P) (Some Q)) as Hgood.
  pose proof (sum_pure_failure_coprime q E Hq Hdvd P Q) as Hc.
  pose proof (sum_pure_point_no_write (reduce_curve q E) (reduce_point q P)
    (reduce_point q Q)) as Hwq.
  destruct (sum_pure E _ _) as [v w], (sum_pure (reduce_curve q E) _ _) as [vq wq].
  cbn [fst snd] in *. intros [= -> <-] [= -> _].
  destruct (Hw eq_refl) as [g ->], Hgood as (Hg1 & Hg0 & Hgn).
  pose proof (Hc g Hb eq_refl (Hwq ltac:(done))) as Hcop.
  split; [done|split; [done|]]. by apply (coprime_divisor_proper q (N E)).
Qed.

(** C19. The search modulo N simulates the search modulo a divisor: every
    run of the [while] loop of [lenstra], from the point and the curve
    object it builds, that ends with [div] still 1 is, with the points
    reduced modulo a divisor p > 1 of N, a run of the same length of the
    same loop with modulus p.  As long as nothing has failed modulo N,
    nothing has failed modulo any of its divisors. *)
Theorem loop_reduces (p a0 b0 A0 N0 : Z) (P : Point) (E : EllipticCurve)
  (n : nat) (s' : loop_state) :
  1 < p -> (p | N0) -> curve_of_draws a0 b0 A0 N0 = Ret (P, E) ->
  nsteps loop_step n (mkLoop (Some P) 2 E) s' -> div (ls_E s') = 1 ->
  nsteps loop_step n (reduce_state p (mkLoop (Some P) 2 E)) (reduce_state p s').
Proof.
  intros Hp Hdvd. unfold curve_of_draws, py_mod. case_decide as HN; [done|].
  intros [= <- <-]. apply (loop_reduces_steps p Hp).
  split; [by apply state_inv_init|done].
Qed.

(** C20. The search modulo N ends as soon as the search modulo one of its
    divisors does: when the loop of [lenstra] with modulus p, a divisor
    of N, started on the reduced base point, returns within the fuel, then
    the loop with modulus N returns within the same fuel, and what it
    returns is a divisor of N greater than 1. *)
Theorem search_returns_with_divisor (p : Z) (fuel : nat) (P : Point)
  (A0 B0 N0 d : Z) :
  1 < p -> (p | N0) -> N0 <> 0 ->
  search fuel (reduce_point p P) (EllipticCurve_init A0 B0 p) = Ret d ->
  exists d', search fuel P (EllipticCurve_init A0 B0 N0) = Ret d' /\
    (d' | N0) /\ 1 < d'.
Proof.
  intros Hp Hdvd HN. unfold search at 1.
  destruct (lenstra_loop fuel (Some (reduce_point p P)) 2 _) as [[[] Ep]| |]
    eqn:Hrun; try done. intros _.
  apply lenstra_loop_run in Hrun as (n & sp & Hn & Hsp & Hexit & _).
  set (s := mkLoop (Some P) 2 (EllipticCurve_init A0 B0 N0)).
  assert (Hred : reducible p s) by (split; [by apply state_inv_init|done]).
  destruct (loop_exit_lifts p n s sp Hp Hred Hsp Hexit)
    as (m' & s' & Hle & Hsteps & Hexit').
  pose proof (nsteps_lenstra_loop m' fuel s s' Hsteps Hexit' ltac:(lia)) as Hrun.
  pose proof (search_outcome fuel P A0 B0 N0 HN) as Ho. revert Ho. unfold search.
  cbn [ls_point ls_i ls_E s] in Hrun. rewrite Hrun.
  intros (Hd & H1 & _). by eexists.
Qed.

Lemma sum_reduces_witness :
  sum (Some (reduce_point 7 P23)) (Some (reduce_point 7 P23)) (reduce_curve 7 E91) =
    Ret (Some (reduce_point 7 (sum_point E91 P23 P23)), reduce_curve 7 E91).
Proof.
  apply (sum_reduces 7 E91 E91 P23 P23); [lia|by exists 13|done|].
  vm_compute. reflexivity.
Defined.

Lemma sum_failure_lifts_witness :
  exists E', sum (Some (mkPoint 2 3)) (Some (mkPoint 9 5)) E91 = Ret (None, E') /\
    (div (with_div (reduce_curve 7 E91) 7) | div E') /\
    (Z.prime 7 -> (7 | div E')).
Proof.
  apply (sum_failure_lifts 7 E91 _ (mkPoint 2 3) (mkPoint 9 5));
    [lia|by exists 13|done|].
  vm_compute. reflexivity.
Defined.

Lemma sum_failure_proper_witness :
  math_gcd (div (with_div E91 7)) 13 = 1 /\ (div (with_div E91 7) | N E91) /\
  1 < div (with_div E91 7) < Z.abs (N E91).
Proof.
  apply (sum_failure_proper 13 E91 (with_div E91 7) (reduce_curve 13 E91)
    (mkPoint 2 7) (mkPoint 2 7) (mkPoint 12 5)); [lia|by exists 7|done|..];
    vm_compute; reflexivity.
Defined.

(** The test [p == q] has to agree.  (2, 3) and (2, 10) are two points of
    the curve over Z/91Z that coincide modulo 7 and are opposite modulo
    13.  Modulo 7 their sum is a doubling, which succeeds; modulo 91 it
    is a chord through two points with the same abscissa, and the
    divisor stored is 91 itself. *)
Example sum_failure_improper :
  let Q := mkPoint 2 10 in
  on_curve E91 (Some P23) /\ on_curve E91 (Some Q) /\
  sum (Some P23) (Some Q) E91 = Ret (None, with_div E91 91) /\
  sum (Some (reduce_point 7 P23)) (Some (reduce_point 7 Q)) (reduce_curve 7 E91) =
    Ret (Some (mkPoint 5 6), reduce_curve 7 E91).
Proof. split_and!; vm_compute; reflexivity. Qed.

Lemma loop_reduces_witness :
  nsteps loop_step 1 (reduce_state 7 (mkLoop (Some P23) 2 E91))
    (reduce_state 7 (mkLoop (Some P23) 3 E91)).
Proof.
  apply (loop_reduces 7 2 3 5 91 P23 E91); [lia|by exists 13|done| |done].
  apply (nsteps_l _ _ _ (mkLoop (Some P23) (2 + 1) E91)); [|constructor].
  by apply (loop_iter (Some P23) (Some P23) 2 E91 E91).
Defined.

Lemma search_returns_with_divisor_witness :
  exists d', search 9 P23 (EllipticCurve_init 5 82 91) = Ret d' /\
    (d' | 91) /\ 1 < d'.
Proof.
  eapply (search_returns_with_divisor 7 9 P23 5 82 91); [lia|by exists 13|done|].
  vm_compute. reflexivity.
Defined.
