(* ===== verification/Repair.v ===== *)
(** * Repair: [mult] with the digits read in the intended order

    [mult] applies the bit reversal of its multiplier ([BitReversal]).
    The repair is one expression: enumerate the digits of [bin(k)[2:]]
    from the least significant one, so that the digit of weight 2^i meets
    the table entry 2^i p.  [mult_repaired] is that method.  This file
    proves that it computes [mult_intended], that on a power of two it
    returns the repeated doubling (where [mult] returns its argument),
    and that it meets the contract [MultContract] of [Lenstra]: every
    theorem of the search proved against the contract holds of the
    repaired program as it holds of the program. *)

From Stdlib Require Import ZArith Lia Ascii.
From stdpp Require Import base tactics option list.
From S2P Require Import Prelude ModInt Points Curve ScalarMult BitReversal Lenstra.

Local Open Scope Z_scope.
Local Open Scope py_scope.

(** ** Definitions *)

(** [mult] with [enumerate(reversed(binary_expansion))] in its second
    loop. *)
Definition mult_repaired (p : option Point) (k : Z) :
  cmd EllipticCurve (option Point) :=
  if py_eq p None then ret None
  else
    let m := length (binary_expansion k) in
    powers_of_two <- powers_loop (m - 1) [p] ;;
    select_loop powers_of_two 0 (reverse (binary_expansion k)) None.

(** The [n]-th doubling of a point, [None] from the first failure on. *)
Fixpoint doubling (E : EllipticCurve) (n : nat) (p : option Point) : option Point :=
  match n with
  | O => p
  | S n' => doubling E n' (fst (sum_pure E p p))
  end.

(** ** The command and its reference *)

Lemma mult_repaired_run (E : EllipticCurve) (p : option Point) (k : Z) :
  N E <> 0 ->
  mult_repaired p k E =
    Ret (fst (mult_intended E p k), write (snd (mult_intended E p k)) E).
Proof.
  intros HN. destruct p as [P|]; [|done].
  unfold mult_repaired, mult_intended. cbn [py_eq Point_eq]. unfold bind.
  rewrite (powers_loop_run E _ [Some P] (Some P)) by done.
  set (t := powers_pure E _ (Some P)).
  rewrite select_loop_run; [|by apply N_write|].
  - by rewrite write_later, (same_params_write_l (snd t) E).
  - subst t. cbn [app length]. rewrite length_reverse, length_powers_pure. lia.
Qed.

(** ** A [None] result comes with a write *)

Section Writes.
Context (E : EllipticCurve).

(** A table loop that writes nothing has computed every entry. *)
Lemma powers_pure_all_Some (n : nat) (P : Point) :
  snd (powers_pure E n (Some P)) = None ->
  Forall is_Some (fst (powers_pure E n (Some P))).
Proof.
  revert P. induction n as [|n IH]; intros P; [by constructor|].
  cbn [powers_pure fst snd]. intros [Hs Hrest]%later_None.
  destruct (fst (sum_pure E (Some P) (Some P))) as [R|] eqn:HR.
  - constructor; [done|by apply IH].
  - destruct (sum_pure_None_write E (Some P) (Some P) ltac:(done) HR) as [g Hg].
    congruence.
Qed.

(** Over a table without [None], the selection from an empty accumulator
    returns [None] only by a failed addition, once a digit "1" is met. *)
Lemma select_pure_from_None (t : list (option Point)) (i : nat)
  (digits : list ascii) :
  Forall is_Some t -> (i + length digits <= length t)%nat ->
  "1"%char ∈ digits ->
  fst (select_pure E t i digits None) = None ->
  is_Some (snd (select_pure E t i digits None)).
Proof.
  intros Ht. revert i. induction digits as [|v rest IH]; intros i Hlen Hin.
  { by apply elem_of_nil in Hin. }
  cbn [select_pure length] in *. case_decide as Hv.
  - destruct (lookup_lt_is_Some_2 t i ltac:(lia)) as [entry Hentry].
    rewrite Hentry. rewrite Forall_lookup in Ht.
    destruct (Ht i entry Hentry) as [e ->]. cbn [sum_pure fst snd].
    intros Hnone. apply later_is_Some. right.
    by apply select_pure_None_write.
  - apply elem_of_cons in Hin as [<-|Hin]; [done|]. apply IH; [lia|done].
Qed.

Lemma mult_intended_good_write (p : option Point) (k : Z) :
  good_write E (snd (mult_intended E p k)).
Proof.
  destruct p as [P|]; [|done].
  apply good_write_later;
    [apply powers_pure_good_write|apply select_pure_good_write].
Qed.

Lemma mult_intended_None_write (P : Point) (k : Z) :
  0 < k -> fst (mult_intended E (Some P) k) = None ->
  is_Some (snd (mult_intended E (Some P) k)).
Proof.
  intros Hk. unfold mult_intended. cbn [fst snd]. intros Hnone.
  apply later_is_Some.
  destruct (snd (powers_pure E _ (Some P))) as [g|] eqn:Ht; [by left; eauto|].
  right. apply select_pure_from_None; [..|done].
  - constructor; [done|by apply powers_pure_all_Some].
  - cbn [length]. rewrite length_reverse, length_powers_pure. lia.
  - destruct (binary_expansion_head k Hk) as [rest ->].
    rewrite reverse_cons, elem_of_app, list_elem_of_singleton. by right.
Qed.

End Writes.

(** The repaired method meets the contract of the search. *)
#[export] Instance mult_repaired_meets_contract : MultContract mult_repaired.
Proof.
  split. intros E P k HN Hk. eexists _, _. rewrite mult_repaired_run by done.
  split_and!; [done|apply mult_intended_good_write|by apply mult_intended_None_write].
Qed.

(** ** Powers of two *)

Section Doubling.
Context (E : EllipticCurve).

(** Entry [j] of the table is the [j]-th doubling. *)
Lemma powers_pure_doubling (n j : nat) (top : option Point) :
  (j <= n)%nat ->
  (top :: fst (powers_pure E n top)) !! j = Some (doubling E j top).
Proof.
  revert top j. induction n as [|n IH]; intros top j Hj.
  { by replace j with 0%nat by lia. }
  destruct j as [|j]; [done|]. cbn. apply IH. lia.
Qed.

Lemma binary_expansion_pow2 (n : nat) :
  binary_expansion (2 ^ Z.of_nat n) = "1"%char :: replicate n "0"%char.
Proof.
  induction n as [|n IH]; [done|].
  rewrite Nat2Z.inj_succ, Z.pow_succ_r by lia.
  rewrite binary_expansion_double by (apply Z.pow_pos_nonneg; lia).
  by rewrite IH, replicate_S_end.
Qed.

(** Leading digits "0" select nothing and move the index. *)
Lemma select_pure_skip_zeros (t : list (option Point)) (i n : nat)
  (digits : list ascii) (q : option Point) :
  select_pure E t i (replicate n "0"%char ++ digits) q =
    select_pure E t (i + n) digits q.
Proof.
  revert i. induction n as [|n IH]; intros i; [by rewrite Nat.add_0_r|].
  cbn. rewrite decide_False, IH by done. f_equal. lia.
Qed.

(** On a power of two the intended algorithm returns the repeated
    doubling. *)
Lemma mult_intended_pow2 (P : Point) (n : nat) :
  fst (mult_intended E (Some P) (2 ^ Z.of_nat n)) = doubling E n (Some P).
Proof.
  unfold mult_intended. rewrite binary_expansion_pow2, reverse_cons.
  rewrite reverse_replicate, select_pure_skip_zeros. cbn [length].
  rewrite length_replicate, Nat.sub_succ, Nat.sub_0_r. cbn [Nat.add select_pure].
  rewrite decide_True, (powers_pure_doubling n n) by done.
  by destruct (doubling E n (Some P)).
Qed.

End Doubling.

(** ** Theorems *)

(** The repaired method computes the intended algorithm: with a non-zero
    modulus [mult_repaired(P, k)] returns the value of the double-and-add
    with the digit of weight 2^i selecting 2^i P, and [a], [b], [N] are
    unchanged. *)
Theorem mult_repaired_intended (E : EllipticCurve) (P : Point) (k : Z) :
  N E <> 0 ->
  exists E', mult_repaired (Some P) k E =
               Ret (fst (mult_intended E (Some P) k), E') /\ same_params E E'.
Proof.
  intros HN. eexists. rewrite mult_repaired_run by done.
  split; [done|apply same_params_write].
Qed.

(** The program and its repair agree through the reversal: [mult(P, k)]
    returns what the repaired method returns for the bit reversal of k. *)
Theorem mult_is_repaired_on_reversal (E : EllipticCurve) (P : Point) (k : Z) :
  N E <> 0 -> 0 < k ->
  exists v E1 E2,
    mult (Some P) k E = Ret (v, E1) /\
    mult_repaired (Some P) (bit_reverse k) E = Ret (v, E2).
Proof.
  intros HN Hk. eexists _, _, _.
  rewrite mult_run, mult_repaired_run, (mult_pure_bit_reverse E P k Hk) by done.
  done.
Qed.

(** Where [mult(P, 2^n)] returns [P], the repaired method returns the
    [n]-th doubling of [P]. *)
Theorem mult_repaired_power_of_two (E : EllipticCurve) (P : Point) (n : nat) :
  N E <> 0 ->
  exists E', mult_repaired (Some P) (2 ^ Z.of_nat n) E =
               Ret (doubling E n (Some P), E') /\ same_params E E'.
Proof.
  intros HN. eexists. rewrite mult_repaired_run, mult_intended_pow2 by done.
  split; [done|apply same_params_write].
Qed.

(** The search of the repaired program returns only divisors: an instance
    of the theorem proved against the contract. *)
Theorem search_repaired_returns_divisor (fuel : nat) (P : Point)
  (A0 B0 N0 d : Z) :
  N0 <> 0 ->
  search_with mult_repaired fuel P (EllipticCurve_init A0 B0 N0) = Ret d ->
  (d | N0) /\ 1 < d <= Z.abs N0.
Proof.
  intros HN Hrun.
  pose proof (search_with_outcome mult_repaired fuel P A0 B0 N0 HN) as Ho.
  by rewrite Hrun in Ho.
Qed.

(** On the curve over Z/91Z: the repaired method doubles the point where
    the program returns it, and the repaired search finds the factor 7 of
    91 as the program does. *)
Example mult_repaired_91 :
  mult_repaired (Some P23) 2 E91 = Ret (Some (sum_point E91 P23 P23), E91) /\
  mult (Some P23) 2 E91 = Ret (Some P23, E91) /\
  search_with mult_repaired 7 P23 E91 = Ret 7.
Proof. split_and!; vm_compute; reflexivity. Qed.
