(* ===== verification/Factor.v ===== *)
(** * Factor: the driver [get_next] / [factorization] of src/main.py

    [factorization] returns the bare integer [N] on a prime input and a
    list otherwise, so its result is a [pyval]: an integer or a list.
    [factorizations += v] extends the list when [v] is a list and raises
    TypeError when it is an integer.  The recursion through [get_next], the
    retry loop [while div == N] and the loop inside [lenstra] are all
    unbounded in the source; one fuel bounds the depth of the recursion,
    the number of retries and the iterations of each search. *)

From Stdlib Require Import ZArith Zdivisibility Lia.
From stdpp Require Import base tactics option list.
From S2P Require Import Prelude ModInt Oracles Lenstra.

Local Open Scope Z_scope.
Local Open Scope py_scope.

(** ** Definitions *)

(** The values [factorization] returns: an [int] or a [list] of [int]. *)
Inductive pyval : Type :=
| VInt (n : Z)
| VList (l : list Z).



(** [factorizations += v]. *)
Definition iadd {S : Type} (factorizations : list Z) (v : pyval) :
  cmd S (list Z) :=
  match v with
  | VList l => ret (factorizations ++ l)
  | VInt _ => raise TypeError
  end.

(** The product of a list of integers. *)
Definition product (l : list Z) : Z := foldr Z.mul 1 l.

(** [v] is a list of primes whose product is [n]. *)
Definition factors_of (n : Z) (v : pyval) : Prop :=
  exists l, v = VList l /\ product l = n /\ Forall Z.prime l.

Section Driver.
Context {R : Type} `{RandomSource R} `{PrimeOracle}.

(** Lines 168-169: [while div == N: div = lenstra(N)], at most [fuel]
    tests; each search gets [lfuel] iterations. *)
Fixpoint retry_loop (fuel lfuel : nat) (N0 div0 : Z) : cmd R Z :=
  match fuel with
  | O => out_of_fuel
  | S fuel' =>
      if decide (div0 = N0) then
        div' <- lenstra lfuel N0 ;;
        retry_loop fuel' lfuel N0 div'
      else ret div0
  end.

(** [get_next(N)], with the function it calls as a parameter. *)
Definition get_next_with (factorization : Z -> cmd R pyval) (N0 : Z) :
  cmd R pyval :=
  if isprime N0 then ret (VList [N0])
  else factorization N0.

(** [factorization(N)]. *)
Fixpoint factorization (fuel : nat) (N0 : Z) : cmd R pyval :=
  match fuel with
  | O => out_of_fuel
  | S fuel' =>
      let factorizations := [] in
      if isprime N0 then
        let factorizations := factorizations ++ [N0] in
        ret (VInt N0)
      else
        div0 <- lenstra fuel' N0 ;;
        div0 <- retry_loop fuel' fuel' N0 div0 ;;
        v <- get_next_with (factorization fuel') div0 ;;
        factorizations <- iadd factorizations v ;;
        numb <- lift (py_floordiv N0 div0) ;;
        if negb (numb =? 1) then
          v' <- get_next_with (factorization fuel') numb ;;
          factorizations <- iadd factorizations v' ;;
          ret (VList factorizations)
        else ret (VList factorizations)
  end.

(** [get_next(N)]. *)
Definition get_next (fuel : nat) (N0 : Z) : cmd R pyval :=
  get_next_with (factorization fuel) N0.

(** [factorization] with the test [if not numb == 1] removed: the cofactor
    is always factored.  A reference for the claim that the test never
    fails. *)
Fixpoint factorization_no_test (fuel : nat) (N0 : Z) : cmd R pyval :=
  match fuel with
  | O => out_of_fuel
  | S fuel' =>
      if isprime N0 then ret (VInt N0)
      else
        div0 <- lenstra fuel' N0 ;;
        div0 <- retry_loop fuel' fuel' N0 div0 ;;
        v <- get_next_with (factorization_no_test fuel') div0 ;;
        factorizations <- iadd [] v ;;
        numb <- lift (py_floordiv N0 div0) ;;
        v' <- get_next_with (factorization_no_test fuel') numb ;;
        factorizations <- iadd factorizations v' ;;
        ret (VList factorizations)
  end.

End Driver.

(** ** Products *)

Lemma product_app (l1 l2 : list Z) : product (l1 ++ l2) = product l1 * product l2.
Proof.
  unfold product. induction l1 as [|n l1 IH]; cbn [app foldr]; [lia|].
  rewrite IH. ring.
Qed.

Lemma product_singleton (n : Z) : product [n] = n.
Proof. unfold product. cbn [foldr]. lia. Qed.

Lemma factors_of_prime (n : Z) : Z.prime n -> factors_of n (VList [n]).
Proof.
  intros Hn. exists [n]. split_and!; [done|apply product_singleton|].
  by constructor.
Qed.

Lemma factors_of_app (n1 n2 : Z) (l1 l2 : list Z) :
  factors_of n1 (VList l1) -> factors_of n2 (VList l2) ->
  factors_of (n1 * n2) (VList (l1 ++ l2)).
Proof.
  intros (? & [= <-] & <- & H1) (? & [= <-] & <- & H2).
  exists (l1 ++ l2). split_and!; [done|apply product_app|].
  by apply Forall_app.
Qed.

(** A proper divisor of N and its cofactor: both lie strictly between 1
    and N, and the floor division is exact. *)
Lemma cofactor_bounds (N0 d : Z) :
  (d | N0) -> 1 < d < N0 ->
  N0 = d * (N0 / d) /\ 1 < N0 / d < N0.
Proof.
  intros [q ->] Hb. rewrite Z.div_mul by lia. split; [ring|nia].
Qed.

(** ** The driver, loop by loop *)

Section DriverFacts.
Context {R : Type} `{RandomSource R} `{PrimeOracle}.

Lemma lenstra_wlp (fuel : nat) (N0 : Z) (r : R) :
  1 <= N0 ->
  wlp (lenstra fuel N0) (fun d _ => (d | N0) /\ 1 < d <= N0) r.
Proof.
  intros HN. unfold wpg. pose proof (lenstra_outcome fuel N0 r) as Ho.
  destruct (lenstra fuel N0 r) as [[d r']| |]; [done|lia|done].
Qed.

(** The retry loop ends on a proper divisor. *)
Lemma retry_loop_wlp (fuel lfuel : nat) (N0 d : Z) (r : R) :
  1 <= N0 -> (d | N0) /\ 1 < d <= N0 ->
  wlp (retry_loop fuel lfuel N0 d) (fun d' _ => (d' | N0) /\ 1 < d' < N0) r.
Proof.
  intros HN. revert d r. induction fuel as [|fuel IH]; intros d r Hd; [done|].
  cbn [retry_loop]. case_decide as Heq.
  - apply wpg_bind. eapply wpg_mono; [|by apply lenstra_wlp].
    intros d' r' Hd'. by apply IH.
  - apply wpg_ret. split; [apply Hd|lia].
Qed.

Lemma get_next_with_wlp (f : Z -> cmd R pyval) (n : Z) (r : R) :
  (isprime n = false -> wlp (f n) (fun v _ => factors_of n v) r) ->
  wlp (get_next_with f n) (fun v _ => factors_of n v) r.
Proof.
  intros Hf. unfold get_next_with. destruct (isprime n) eqn:Hp; [|by apply Hf].
  apply wpg_ret, factors_of_prime. by apply isprime_spec.
Qed.

Lemma iadd_wlp {S : Type} (l1 l2 : list Z) (Q : list Z -> S -> Prop) (s : S) :
  Q (l1 ++ l2) s -> wlp (iadd l1 (VList l2)) Q s.
Proof. intros HQ. exact HQ. Qed.

(** On a composite input of at least 1, [factorization] does not raise,
    and what it returns is a list of primes whose product is the input. *)
Lemma factorization_wlp (fuel : nat) (N0 : Z) (r : R) :
  1 <= N0 -> isprime N0 = false ->
  wlp (factorization fuel N0) (fun v _ => factors_of N0 v) r.
Proof.
  revert N0 r. induction fuel as [|fuel IH]; intros N0 r HN Hp; [done|].
  cbn [factorization]. rewrite Hp.
  apply wpg_bind. eapply wpg_mono; [|by apply lenstra_wlp]. intros d0 r1 Hd0.
  apply wpg_bind. eapply wpg_mono; [|by apply retry_loop_wlp].
  intros d r2 [Hdvd Hd].
  destruct (cofactor_bounds N0 d Hdvd Hd) as [HN0 Hnumb].
  apply wpg_bind. eapply wpg_mono;
    [|apply get_next_with_wlp; intros Hpd; apply IH; [lia|done]].
  intros v1 r3 (l1 & -> & Hl1). apply wpg_bind, iadd_wlp. cbn [app].
  apply wpg_bind. rewrite py_floordiv_nonzero by lia. apply wpg_lift_ret.
  rewrite (proj2 (Z.eqb_neq _ 1)) by lia. cbn [negb].
  apply wpg_bind. eapply wpg_mono;
    [|apply get_next_with_wlp; intros Hpn; apply IH; [lia|done]].
  intros v2 r4 (l2 & -> & Hl2). apply wpg_bind, iadd_wlp, wpg_ret.
  rewrite HN0 at 1. apply factors_of_app; by eexists.
Qed.

Lemma factorization_prime (fuel : nat) (N0 : Z) (r : R) :
  isprime N0 = true -> factorization (S fuel) N0 r = Ret (VInt N0, r).
Proof. intros Hp. cbn [factorization]. by rewrite Hp. Qed.

Lemma lenstra_below_1 (fuel : nat) (N0 : Z) (r : R) :
  N0 < 1 -> raises (lenstra fuel N0) r ValueError.
Proof.
  intros HN. pose proof (lenstra_outcome fuel N0 r) as Ho. unfold raises.
  destruct (lenstra fuel N0 r) as [[d r']| |]; [lia| |lia].
  by destruct Ho as [_ ->].
Qed.

Lemma isprime_below_2 (n : Z) : n < 2 -> isprime n = false.
Proof. intros Hn. apply isprime_false. intros Hp%Z.prime_ge_2. lia. Qed.

Lemma factorization_below_1 (fuel : nat) (N0 : Z) (r : R) :
  N0 < 1 -> factorization (S fuel) N0 r = Raise ValueError.
Proof.
  intros HN. cbn [factorization]. rewrite isprime_below_2 by lia.
  by apply bind_raises, lenstra_below_1.
Qed.

(** Every outcome of [factorization]: the bare integer on a prime, a list
    of primes whose product is the input on a composite, ValueError below
    1, or fuel exhaustion. *)
Lemma factorization_outcome (fuel : nat) (N0 : Z) (r : R) :
  match factorization fuel N0 r with
  | Ret (v, _) => if isprime N0 then v = VInt N0 else factors_of N0 v
  | Raise e => N0 < 1 /\ e = ValueError
  | OutOfFuel => True
  end.
Proof.
  destruct fuel as [|fuel]; [done|]. destruct (isprime N0) eqn:Hp.
  { by rewrite factorization_prime. }
  destruct (Z.lt_ge_cases N0 1) as [HN|HN]; [by rewrite factorization_below_1|].
  pose proof (factorization_wlp (S fuel) N0 r HN Hp) as Hw. unfold wpg in Hw.
  by destruct (factorization (S fuel) N0 r) as [[v r']| |].
Qed.

Lemma lenstra_modulus_1 (fuel : nat) (r : R) : lenstra fuel 1 r = OutOfFuel.
Proof.
  pose proof (lenstra_outcome fuel 1 r) as Ho.
  destruct (lenstra fuel 1 r) as [[d r']| |]; [lia|lia|done].
Qed.

(** ** Fuel *)

Lemma retry_loop_fuel_le (fuel fuel' lfuel lfuel' : nat) (N0 d d' : Z) (r r' : R) :
  (fuel <= fuel')%nat -> (lfuel <= lfuel')%nat ->
  retry_loop fuel lfuel N0 d r = Ret (d', r') ->
  retry_loop fuel' lfuel' N0 d r = Ret (d', r').
Proof.
  intros Hle Hlle. revert fuel' d r Hle.
  induction fuel as [|fuel IH]; intros fuel' d r Hle; [done|].
  destruct fuel' as [|fuel']; [lia|]. cbn [retry_loop]. case_decide as Heq; [|done].
  intros (d1 & r1 & Hd1 & Hrun)%bind_inv_Ret.
  rewrite (bind_returns _ _ _ _ _ (lenstra_fuel_mono N0 _ _ _ _ _ Hlle Hd1)).
  apply IH; [lia|done].
Qed.

Lemma get_next_with_mono (f g : Z -> cmd R pyval) (n : Z) (r r' : R) (v : pyval) :
  (f n r = Ret (v, r') -> g n r = Ret (v, r')) ->
  get_next_with f n r = Ret (v, r') -> get_next_with g n r = Ret (v, r').
Proof. unfold get_next_with. case_match; auto. Qed.

Lemma factorization_fuel_le (N0 : Z) : fuel_mono (fun fuel => factorization fuel N0).
Proof.
  intros n. revert N0. induction n as [|n IH]; intros N0 m r v r' Hle; [done|].
  destruct m as [|m]; [lia|]. assert (Hnm : (n <= m)%nat) by lia.
  cbn [factorization]. destruct (isprime N0); [done|].
  intros (d0 & r1 & Hr1 & Hrun)%bind_inv_Ret.
  apply bind_inv_Ret in Hrun as (d & r2 & Hr2 & Hrun).
  apply bind_inv_Ret in Hrun as (v1 & r3 & Hr3 & Hrun).
  rewrite (bind_returns _ _ _ _ _ (lenstra_fuel_mono N0 _ _ _ _ _ Hnm Hr1)).
  rewrite (bind_returns _ _ _ _ _
    (retry_loop_fuel_le _ _ _ _ _ _ _ _ _ Hnm Hnm Hr2)).
  rewrite (bind_returns _ _ _ _ _
    (get_next_with_mono _ _ _ _ _ _ (IH d m r2 v1 r3 Hnm) Hr3)).
  destruct v1 as [|l1]; [done|]. cbn [iadd] in *. rewrite bind_ret_l in *.
  apply bind_inv_Ret in Hrun as (numb & r4 & Hr4 & Hrun).
  rewrite (bind_returns _ _ _ _ _ Hr4). destruct (negb (numb =? 1)); [|done].
  apply bind_inv_Ret in Hrun as (v2 & r5 & Hr5 & Hrun).
  by rewrite (bind_returns _ _ _ _ _
    (get_next_with_mono _ _ _ _ _ _ (IH numb m r4 v2 r5 Hnm) Hr5)).
Qed.

Lemma get_next_fuel_le (N0 : Z) : fuel_mono (fun fuel => get_next fuel N0).
Proof.
  intros n m r v r' Hle. apply get_next_with_mono.
  by apply factorization_fuel_le.
Qed.

(** ** One round of the driver *)

Lemma get_next_prime (fuel : nat) (n : Z) (r : R) :
  Z.prime n -> get_next fuel n r = Ret (VList [n], r).
Proof.
  intros Hn%isprime_spec. unfold get_next, get_next_with. by rewrite Hn.
Qed.

Lemma get_next_composite (fuel : nat) (n : Z) (r : R) :
  isprime n = false -> get_next fuel n r = factorization fuel n r.
Proof. intros Hn. unfold get_next, get_next_with. by rewrite Hn. Qed.

(** When the first search returns a proper divisor [g] and the two calls
    of [get_next] return, [factorization] returns the two lists, joined. *)
Lemma factorization_split (fuel : nat) (N0 g : Z) (l1 l2 : list Z)
  (r r1 r2 r3 : R) :
  isprime N0 = false -> g <> N0 ->
  lenstra (S fuel) N0 r = Ret (g, r1) ->
  get_next (S fuel) g r1 = Ret (VList l1, r2) ->
  get_next (S fuel) (N0 / g) r2 = Ret (VList l2, r3) ->
  factorization (S (S fuel)) N0 r = Ret (VList (l1 ++ l2), r3).
Proof.
  intros Hp Hg Hl H1 H2. pose proof (lenstra_outcome (S fuel) N0 r) as Ho.
  rewrite Hl in Ho. destruct Ho as [Hdvd Hb].
  destruct (cofactor_bounds N0 g Hdvd ltac:(lia)) as [_ Hq].
  cbn [factorization]. rewrite Hp, (bind_returns _ _ _ _ _ Hl).
  cbn [retry_loop]. rewrite decide_False, bind_ret_l by done.
  rewrite (bind_returns _ _ _ _ _ H1). cbn [iadd app].
  rewrite bind_ret_l, py_floordiv_nonzero, bind_lift_Ret by lia.
  rewrite (proj2 (Z.eqb_neq _ 1)) by lia. cbn [negb].
  by rewrite (bind_returns _ _ _ _ _ H2).
Qed.

(** ** The test of the cofactor *)

Lemma get_next_with_ext (f g : Z -> cmd R pyval) (n : Z) (r : R) :
  f n r = g n r -> get_next_with f n r = get_next_with g n r.
Proof. unfold get_next_with. case_match; auto. Qed.

Lemma bind_get_next_with_ext (f g : Z -> cmd R pyval) (n : Z)
  (k k' : pyval -> cmd R pyval) (r : R) :
  (forall r, f n r = g n r) -> (forall l r, k (VList l) r = k' (VList l) r) ->
  (forall m r, k (VInt m) r = k' (VInt m) r) ->
  bind (get_next_with f n) k r = bind (get_next_with g n) k' r.
Proof.
  intros Hfg Hl Hi. unfold bind. rewrite (get_next_with_ext f g) by done.
  destruct (get_next_with g n r) as [[[m|l] r']| |]; auto.
Qed.

End DriverFacts.

(** ** Twice a prime *)

Lemma prime_2 : Z.prime 2.
Proof. split; [lia|]. intros n Hn. lia. Qed.

Lemma not_prime_double (p : Z) : 1 < p -> ~ Z.prime (2 * p).
Proof. intros Hp [_ Hall]. apply (Hall 2); [lia|]. exists p. lia. Qed.

Lemma gcd_double_prime (p b : Z) :
  Z.prime p -> ~ (p | b) -> math_gcd (2 * b) (2 * p) = 2.
Proof.
  intros Hp Hb. unfold math_gcd. rewrite Z.gcd_mul_mono_l_nonneg by lia.
  rewrite Z.gcd_comm. rewrite (Z.coprime_prime_l p b Hp Hb). lia.
Qed.

(** ** What the driver guarantees *)

Section DriverTheorems.
Context {R : Type} `{RandomSource R} `{PrimeOracle}.

(** C4. What [factorization(N)] returns on a non-prime input is a list of
    primes whose product is N, for every random source and every fuel. *)
Theorem factorization_factors (fuel : nat) (N0 : Z) (r r' : R) (v : pyval) :
  ~ Z.prime N0 -> factorization fuel N0 r = Ret (v, r') -> factors_of N0 v.
Proof.
  intros Hp%isprime_false Hrun. pose proof (factorization_outcome fuel N0 r) as Ho.
  by rewrite Hrun, Hp in Ho.
Qed.

(** C14. What [get_next(N)] returns is a list of primes whose product is N,
    whether N is prime or not: the bare integer that [factorization]
    returns on a prime never reaches the [+=] of the caller. *)
Theorem get_next_factors (fuel : nat) (N0 : Z) (r r' : R) (v : pyval) :
  get_next fuel N0 r = Ret (v, r') -> factors_of N0 v.
Proof.
  unfold get_next, get_next_with. destruct (isprime N0) eqn:Hp.
  - intros [= <- <-]. by apply factors_of_prime, isprime_spec.
  - intros Hrun. pose proof (factorization_outcome fuel N0 r) as Ho.
    by rewrite Hrun, Hp in Ho.
Qed.

(** C32. On a prime input [factorization] returns the integer itself, not
    the one-element list it has just built. *)
Theorem factorization_prime_returns_int (fuel : nat) (N0 : Z) (r : R) :
  Z.prime N0 -> factorization (S fuel) N0 r = Ret (VInt N0, r).
Proof. intros Hp%isprime_spec. by apply factorization_prime. Qed.

(** C29. The only exception [factorization] raises is the ValueError of
    [random.randint(1, N)] on an input below 1; in particular the [+=] of
    lines 175 and 184 never meets an integer, and [N // div] never divides
    by zero. *)
Theorem factorization_raises_iff (fuel : nat) (N0 : Z) (r : R) (e : exn) :
  factorization fuel N0 r = Raise e <->
  fuel <> 0%nat /\ N0 < 1 /\ e = ValueError.
Proof.
  split.
  - intros Hrun. pose proof (factorization_outcome fuel N0 r) as Ho.
    rewrite Hrun in Ho. by destruct fuel.
  - intros (Hf & HN & ->). destruct fuel as [|fuel]; [done|].
    by apply factorization_below_1.
Qed.

(** Fuel is only a bound for the driver too: a result obtained with
    some fuel is the result with any larger fuel. *)
Theorem factorization_fuel_monotone (fuel fuel' : nat) (N0 : Z) (r r' : R)
  (v : pyval) :
  (fuel <= fuel')%nat ->
  factorization fuel N0 r = Ret (v, r') -> factorization fuel' N0 r = Ret (v, r').
Proof. apply (factorization_fuel_le N0). Qed.

(** C38. [factorization(1)] does not return: 1 is not prime, and the search
    for a divisor of 1 exhausts any fuel. *)
Theorem factorization_modulus_1_diverges (fuel : nat) (r : R) :
  factorization fuel 1 r = OutOfFuel.
Proof.
  destruct fuel as [|fuel]; [done|]. cbn [factorization].
  rewrite isprime_below_2 by lia. unfold bind at 1.
  by rewrite lenstra_modulus_1.
Qed.

(** C33. The test [if not numb == 1] of line 183 never fails: after the
    retry loop the divisor is proper, so the cofactor is at least 2, and
    [factorization] is the function without the test. *)
Theorem factorization_test_never_fails (fuel : nat) (N0 : Z) (r : R) :
  factorization fuel N0 r = factorization_no_test fuel N0 r.
Proof.
  revert N0 r. induction fuel as [|fuel IH]; intros N0 r; [done|].
  cbn [factorization factorization_no_test]. destruct (isprime N0); [done|].
  destruct (Z.lt_ge_cases N0 1) as [HN|HN].
  { by rewrite !(bind_raises _ _ _ _ (lenstra_below_1 fuel N0 r HN)). }
  apply (bind_ext_wlp _ _ _ _ _ (lenstra_wlp fuel N0 r HN)). intros d0 r1 Hd0.
  apply (bind_ext_wlp _ _ _ _ _ (retry_loop_wlp fuel fuel N0 d0 r1 HN Hd0)).
  intros d r2 [Hdvd Hd]. destruct (cofactor_bounds N0 d Hdvd Hd) as [_ Hnumb].
  apply bind_get_next_with_ext; [apply IH| |done].
  intros l1 r3. cbn [iadd]. rewrite !bind_ret_l.
  rewrite py_floordiv_nonzero, !bind_lift_Ret by lia.
  rewrite (proj2 (Z.eqb_neq _ 1)) by lia. cbn [negb].
  by apply bind_get_next_with_ext; [apply IH|..].
Qed.


(** C23. Twice a prime is always factored when the second draw is not a
    multiple of the prime: 2 b and 2 p have gcd 2, the first doubling
    fails, [lenstra] returns 2, and both 2 and the cofactor p are prime.
    Fuel 3 is enough, for every random source. *)
Theorem factorization_twice_prime (fuel : nat) (p a0 b0 A0 : Z) (r r' : R) :
  Z.prime p ->
  draws (2 * p) r = Ret ((a0, b0, A0), r') -> ~ (p | b0) ->
  factorization (S (S (S fuel))) (2 * p) r = Ret (VList [2; p], r').
Proof.
  intros Hp Hd Hb. pose proof (Z.prime_ge_2 p Hp) as Hp2.
  assert (Hg : math_gcd (2 * b0) (2 * p) = 2) by (by apply gcd_double_prime).
  assert (Hg1 : math_gcd (2 * b0) (2 * p) <> 1) by lia.
  pose proof (lenstra_first_doubling fuel (2 * p) a0 b0 A0 r r'
    ltac:(lia) Hd Hg1) as Hl. rewrite Hg in Hl.
  apply (factorization_split _ _ 2 [2] [p] r r' r' r'); [|lia|done|..].
  - apply isprime_false, not_prime_double. lia.
  - apply get_next_prime, prime_2.
  - replace (2 * p / 2) with p by (by rewrite Z.mul_comm, Z.div_mul).
    by apply get_next_prime.
Qed.

End DriverTheorems.

(** ** The driver depends on the oracle through its contract only *)

Section OracleIndependence.
Context {R : Type} `{RandomSource R} (O1 O2 : PrimeOracle).

Lemma get_next_with_oracle (f g : Z -> cmd R pyval) (n : Z) (r : R) :
  f n r = g n r ->
  get_next_with (H0 := O1) f n r = get_next_with (H0 := O2) g n r.
Proof.
  intros Hfg. unfold get_next_with. rewrite (isprime_unique O1 O2).
  by destruct (isprime n).
Qed.

Lemma bind_get_next_with_oracle (f g : Z -> cmd R pyval) (n : Z)
  (k k' : pyval -> cmd R pyval) (r : R) :
  (forall r, f n r = g n r) -> (forall v r, k v r = k' v r) ->
  bind (get_next_with (H0 := O1) f n) k r = bind (get_next_with (H0 := O2) g n) k' r.
Proof.
  intros Hfg Hk. unfold bind. rewrite (get_next_with_oracle f g) by done.
  destruct (get_next_with g n r) as [[v r']| |]; auto.
Qed.

(** Two exact oracles give the same runs of [factorization]: the same
    value, the same draws consumed, the same exception. *)
Lemma factorization_oracle (fuel : nat) (N0 : Z) (r : R) :
  factorization (H0 := O1) fuel N0 r = factorization (H0 := O2) fuel N0 r.
Proof.
  revert N0 r. induction fuel as [|fuel IH]; intros N0 r; [done|].
  cbn [factorization]. rewrite (isprime_unique O1 O2 N0).
  destruct (isprime N0); [done|].
  apply bind_ext. intros d0 r1. apply bind_ext. intros d r2.
  apply bind_get_next_with_oracle; [apply IH|]. intros v r3.
  apply bind_ext. intros fs r4. apply bind_ext. intros numb r5.
  destruct (negb (numb =? 1)); [|done].
  by apply bind_get_next_with_oracle; [apply IH|].
Qed.

End OracleIndependence.

(** ** Runs *)

Lemma not_prime_91 : ~ Z.prime 91.
Proof. by apply (isprime_false (H := trial_division_oracle)). Qed.

Lemma prime_17 : Z.prime 17.
Proof. by apply (isprime_spec (PrimeOracle := trial_division_oracle)). Qed.

Lemma factorization_script_91 :
  factorization 9 91 [1; 2; 4] = Ret (VList [7; 13], []).
Proof. vm_compute. reflexivity. Qed.

Lemma factorization_factors_witness : factors_of 91 (VList [7; 13]).
Proof.
  exact (factorization_factors 9 91 [1; 2; 4] [] (VList [7; 13])
           not_prime_91 factorization_script_91).
Defined.

Lemma get_next_factors_witness : factors_of 17 (VList [17]).
Proof. apply (get_next_factors 1 17 [] []). vm_compute. reflexivity. Defined.

Lemma factorization_prime_returns_int_witness :
  factorization 1 17 ([] : list Z) = Ret (VInt 17, []).
Proof. exact (factorization_prime_returns_int 0 17 [] prime_17). Defined.

Lemma factorization_fuel_monotone_witness :
  factorization 50 91 [1; 2; 4] = Ret (VList [7; 13], []).
Proof.
  apply (factorization_fuel_monotone 9 50); [lia|exact factorization_script_91].
Defined.

(** The run of the specification: with the draws a = 2, b = 3, A = 5
    the driver factors 91 into 7 and 13, with any fuel from 9 on. *)
Theorem factorization_91 (fuel : nat) :
  (9 <= fuel)%nat ->
  factorization fuel 91 [1; 2; 4] = Ret (VList [7; 13], []).
Proof.
  intros Hle.
  exact (factorization_fuel_le 91 9%nat fuel _ _ _ Hle factorization_script_91).
Qed.

Lemma factorization_91_witness :
  factorization 9 91 [1; 2; 4] = Ret (VList [7; 13], []).
Proof. apply factorization_91. lia. Defined.

Lemma prime_7 : Z.prime 7.
Proof. by apply (isprime_spec (PrimeOracle := trial_division_oracle)). Qed.

Lemma factorization_twice_prime_witness :
  factorization 3 (2 * 7) [0; 0; 0] = Ret (VList [2; 7], []).
Proof.
  apply (factorization_twice_prime 0 7 1 1 1 [0; 0; 0] [] prime_7);
    [reflexivity|].
  intros [k Hk]. lia.
Defined.
