(* ===== verification/Termination.v ===== *)
(** * Termination: what the end of [factorization] depends on

    The loops of src/main.py have no bound: [lenstra] searches until an
    addition fails, and [factorization] retries [lenstra] until the divisor
    is proper.  Whether they end depends on the numbers drawn.  This file
    proves both halves, for the two instances of the interface
    [RandomSource], and what holds for all of them:

    - with the scripted source, every N >= 2 has a finite list of draws
      ([lucky_script]) on which [get_next] and [factorization] return the
      prime factors of N ([get_next_can_return]): a draw [b] with
      1 < gcd(2 b, N) < N makes the first doubling fail with a proper
      divisor, and the two factors are smaller;
    - with the source [max_source], which always returns the upper bound
      of the range, [factorization] never returns on a number that is not
      prime: every search draws b = N, every gcd is N, and the retry loop
      never ends ([factorization_max_diverges]);
    - with any source, the retry loop never ends on a prime
      ([retry_loop_prime_diverges]): the primality tests in front of it
      are needed. *)

From Stdlib Require Import ZArith Zdivisibility Znumtheory Lia.
From stdpp Require Import base tactics option list.
From S2P Require Import Prelude ModInt Oracles Lenstra Factor.

Local Open Scope Z_scope.
Local Open Scope py_scope.

(** ** Definitions *)

(** A command indexed by fuel diverges from a state when no fuel is
    enough. *)
Definition diverges {S A : Type} (c : nat -> cmd S A) (s : S) : Prop :=
  forall fuel, c fuel s = OutOfFuel.

(** [random.randint] for a generator that always returns the upper
    bound. *)
Definition max_randint (lo hi : Z) : cmd unit Z :=
  fun r => if decide (hi < lo) then Raise ValueError else Ret (hi, r).

(** The script on which [lenstra] draws a = 1, b = [b0], A = 1. *)
Definition draw_script (b0 : Z) : list Z := [0; b0 - 1; 0].

(** The script of a run of searches, given the [b] of each. *)
Definition lucky_script (bs : list Z) : list Z := bs ≫= draw_script.

(** ** The source that returns the upper bound *)

Lemma max_randint_range (lo hi : Z) (r : unit) :
  lo <= hi -> wp (max_randint lo hi) (fun v _ => lo <= v <= hi) r.
Proof. intros Hle. unfold wpg, max_randint. rewrite decide_False by lia. lia. Qed.

Lemma max_randint_empty (lo hi : Z) (r : unit) :
  hi < lo -> raises (max_randint lo hi) r ValueError.
Proof. intros Hlt. unfold raises, max_randint. by rewrite decide_True. Qed.

#[export] Instance max_source : RandomSource unit := {
  randint := max_randint;
  randint_range := max_randint_range;
  randint_empty := max_randint_empty
}.

Lemma draws_max (N0 : Z) : 1 <= N0 -> draws N0 tt = Ret ((N0, N0, N0), tt).
Proof.
  intros HN. unfold draws, bind. cbn [randint max_source]. unfold max_randint.
  by repeat (rewrite decide_False by lia; cbn).
Qed.

Lemma math_gcd_double_self (n : Z) : 0 <= n -> math_gcd (2 * n) n = n.
Proof.
  intros Hn. unfold math_gcd. rewrite Z.gcd_comm.
  apply Z.gcd_unique; [done|reflexivity|by exists 2|auto].
Qed.

(** With N >= 1 a search returns or runs out of fuel. *)
Lemma lenstra_cases {R : Type} `{RandomSource R} (fuel : nat) (N0 : Z) (r : R) :
  1 <= N0 ->
  lenstra fuel N0 r = OutOfFuel \/ exists d r', lenstra fuel N0 r = Ret (d, r').
Proof.
  intros HN. pose proof (lenstra_outcome fuel N0 r) as Ho.
  destruct (lenstra fuel N0 r) as [[d r']| |]; [by eauto|lia|by left].
Qed.

(** With this source every search that ends returns N itself. *)
Lemma lenstra_max (fuel : nat) (N0 d : Z) (r' : unit) :
  2 <= N0 -> lenstra fuel N0 tt = Ret (d, r') -> d = N0.
Proof.
  intros HN Hrun.
  pose proof (lenstra_fuel_mono N0 fuel (S (S fuel)) _ _ _ ltac:(lia) Hrun) as Hl.
  pose proof (lenstra_first_doubling fuel N0 N0 N0 N0 tt tt ltac:(lia)
    (draws_max N0 ltac:(lia))) as Hfd.
  rewrite math_gcd_double_self in Hfd by lia. cbv beta in Hl.
  rewrite Hfd in Hl by lia. congruence.
Qed.

Lemma retry_loop_max (fuel lfuel : nat) (N0 : Z) :
  2 <= N0 -> retry_loop fuel lfuel N0 N0 tt = OutOfFuel.
Proof.
  intros HN. induction fuel as [|fuel IH]; [done|].
  cbn [retry_loop]. rewrite decide_True by done. unfold bind.
  destruct (lenstra_cases lfuel N0 tt ltac:(lia)) as [->|(d & [] & Hl)]; [done|].
  by rewrite Hl, (lenstra_max _ _ _ _ HN Hl).
Qed.

(** ** The retry loop on a prime *)

Section PrimeRetry.
Context {R : Type} `{RandomSource R}.

(** A search on a prime can only return the prime. *)
Lemma lenstra_prime (fuel : nat) (N0 d : Z) (r r' : R) :
  Z.prime N0 -> lenstra fuel N0 r = Ret (d, r') -> d = N0.
Proof.
  intros Hp Hrun. pose proof (lenstra_outcome fuel N0 r) as Ho.
  rewrite Hrun in Ho. destruct Ho as [Hd Hr].
  destruct (Z.divide_prime_r d N0 Hp Hd) as [?|[?|[?|?]]]; lia.
Qed.

End PrimeRetry.

(** ** Draws that split N *)

Lemma draws_script (N0 b0 : Z) (rest : list Z) :
  1 <= b0 <= N0 ->
  draws N0 (draw_script b0 ++ rest) = Ret ((1, b0, 1), rest).
Proof.
  intros Hb. unfold draws, draw_script, bind. cbn [randint script_source app].
  rewrite (script_randint_in_range 1 N0 1), (script_randint_in_range 1 N0 b0),
    (script_randint_in_range 1 N0 1) by lia.
  done.
Qed.

(** For an odd N and a proper divisor d, gcd(2 d, N) is a proper divisor
    too. *)
Lemma odd_gcd_double_proper (N0 d : Z) :
  Z.even N0 = false -> 1 < d < N0 -> (d | N0) ->
  1 < math_gcd (2 * d) N0 < N0.
Proof.
  intros Hodd Hd Hdvd. unfold math_gcd.
  assert (Hdg : (d | Z.gcd (2 * d) N0)) by (apply Z.gcd_greatest; [by exists 2|done]).
  pose proof (Z.gcd_nonneg (2 * d) N0) as Hg0.
  pose proof (Z.gcd_divide_l (2 * d) N0) as Hgl.
  pose proof (Z.gcd_divide_r (2 * d) N0) as Hgr.
  assert (Hne : Z.gcd (2 * d) N0 <> 0) by (intros Hz%Z.gcd_eq_0_r; lia).
  apply Z.divide_pos_le in Hdg; [|lia]. apply Z.divide_pos_le in Hgr as Hle; [|lia].
  split; [lia|]. destruct (decide (Z.gcd (2 * d) N0 = N0)) as [Heq|]; [|lia].
  rewrite Heq in Hgl. destruct Hgl as [k Hk], Hdvd as [q Hq].
  assert (Hkq : d * (k * q - 2) = 0) by (rewrite Hq in Hk; lia).
  apply Z.mul_eq_0 in Hkq as [?|Hkq]; [lia|].
  assert (Hq1 : 1 < q) by nia. assert (Hk0 : 0 < k) by nia.
  assert (Hq2 : q = 2) by nia. subst q.
  rewrite Hq, Z.even_mul in Hodd. done.
Qed.

(** A number that is not prime has a draw [b] for which gcd(2 b, N) is a
    proper divisor: b = 1 when N is even (the gcd is 2), b a proper
    divisor of N when N is odd. *)
Lemma splitting_draw (N0 : Z) :
  2 <= N0 -> ~ Z.prime N0 ->
  exists b0, 1 <= b0 <= N0 /\ 1 < math_gcd (2 * b0) N0 < N0.
Proof.
  intros HN Hp. rewrite prime_alt in Hp.
  destruct (not_prime_divide N0 ltac:(lia) Hp) as (d & Hd & Hdvd).
  destruct (Z.even N0) eqn:Hev.
  - exists 1. split; [lia|]. apply Z.even_spec in Hev as [k ->].
    unfold math_gcd. replace (2 * 1) with (2 * 1) by lia.
    rewrite Z.gcd_mul_mono_l_nonneg, Z.gcd_1_l by lia. lia.
  - exists d. split; [lia|]. by apply odd_gcd_double_proper.
Qed.

(** ** The driver can return *)

Section CanReturn.
Context `{PrimeOracle}.

Lemma lucky_script_cons_app (b0 : Z) (bs1 bs2 rest : list Z) :
  lucky_script (b0 :: bs1 ++ bs2) ++ rest =
  draw_script b0 ++ lucky_script bs1 ++ lucky_script bs2 ++ rest.
Proof.
  unfold lucky_script. by rewrite bind_cons, bind_app, <- !app_assoc.
Qed.

(** For every N >= 2 there are draws on which [get_next(N)] returns: one
    search for each split, none of them retried. *)
Lemma get_next_can_return (N0 : Z) :
  2 <= N0 ->
  exists (bs : list Z) (fuel : nat) (l : list Z),
    length l = S (length bs) /\
    forall rest, get_next fuel N0 (lucky_script bs ++ rest) = Ret (VList l, rest).
Proof.
  revert N0. apply (Zlt_lower_bound_ind _ 2). intros N0 IH HN.
  destruct (isprime N0) eqn:Hp.
  { exists [], 0%nat, [N0]. split; [done|].
    intros rest. by apply get_next_prime, isprime_spec. }
  destruct (splitting_draw N0 HN (proj1 (isprime_false N0) Hp)) as (b0 & Hb & Hg).
  set (g := math_gcd (2 * b0) N0) in *.
  destruct (cofactor_bounds N0 g (math_gcd_divide_r _ _) Hg) as [_ Hq].
  destruct (IH g ltac:(lia)) as (bs1 & f1 & l1 & Hn1 & H1).
  destruct (IH (N0 / g) ltac:(lia)) as (bs2 & f2 & l2 & Hn2 & H2).
  exists (b0 :: bs1 ++ bs2), (S (S (S (f1 `max` f2)))), (l1 ++ l2).
  split; [cbn [length]; rewrite !length_app; lia|].
  intros rest. rewrite get_next_composite, lucky_script_cons_app by done.
  apply (factorization_split _ N0 g l1 l2 _ (lucky_script bs1 ++ lucky_script bs2 ++ rest)
    (lucky_script bs2 ++ rest) rest); [done|lia|..].
  - apply (lenstra_first_doubling _ N0 1 b0 1); [lia|by apply draws_script|].
    fold g. lia.
  - apply (get_next_fuel_le g f1); [lia|apply H1].
  - apply (get_next_fuel_le (N0 / g) f2); [lia|apply H2].
Qed.

End CanReturn.

(** ** Theorems *)

Section TerminationTheorems.
Context `{PrimeOracle}.

(** C22. Termination is possible on every input: for every N >= 2 that is
    not prime there are a finite list of draws and a fuel with which
    [factorization(N)] returns, and what it returns is a list of primes
    whose product is N.  One search per split is enough (one draw [b]
    fewer than there are prime factors), and more fuel, or more numbers
    after the draws, change nothing. *)
Theorem factorization_can_return (N0 : Z) :
  2 <= N0 -> ~ Z.prime N0 ->
  exists (bs : list Z) (fuel : nat) (l : list Z),
    product l = N0 /\ Forall Z.prime l /\ length l = S (length bs) /\
    forall fuel' rest, (fuel <= fuel')%nat ->
      factorization fuel' N0 (lucky_script bs ++ rest) = Ret (VList l, rest).
Proof.
  intros HN Hp. destruct (get_next_can_return N0 HN) as (bs & fuel & l & Hn & Hrun).
  apply isprime_false in Hp. exists bs, fuel, l.
  assert (Hf : forall rest,
    factorization fuel N0 (lucky_script bs ++ rest) = Ret (VList l, rest)).
  { intros rest. rewrite <- get_next_composite by done. apply Hrun. }
  pose proof (factorization_outcome fuel N0 (lucky_script bs ++ [])) as Ho.
  rewrite Hf, Hp in Ho. destruct Ho as (l' & [= <-] & Hprod & Hprime).
  split_and!; [done..|]. intros fuel' rest Hle.
  by apply (factorization_fuel_le N0 fuel fuel').
Qed.

(** C24. Termination is not guaranteed: with a random source that always
    returns the upper bound of the range, [factorization(N)] exhausts
    every fuel on every N >= 1 that is not prime.  Each search draws
    b = N and returns N, the uninformative divisor, and the retry loop has
    no bound. *)
Theorem factorization_max_diverges (N0 : Z) :
  1 <= N0 -> ~ Z.prime N0 ->
  diverges (fun fuel => factorization fuel N0) tt.
Proof.
  intros HN Hp%isprime_false fuel. destruct fuel as [|fuel]; [done|].
  cbn [factorization]. rewrite Hp. unfold bind at 1.
  destruct (lenstra_cases fuel N0 tt HN) as [->|(d & [] & Hl)]; [done|].
  destruct (decide (N0 = 1)) as [->|]; [by rewrite lenstra_modulus_1 in Hl|].
  assert (HN2 : 2 <= N0) by lia.
  rewrite Hl, (lenstra_max _ _ _ _ HN2 Hl). unfold bind.
  by rewrite retry_loop_max.
Qed.

End TerminationTheorems.

(** C28. The loop [while div == N] of lines 168-169 never ends on a
    prime, whatever is drawn and however long each search may run: a
    search on a prime can only return the prime.  The tests of lines 145
    and 159 are what keeps [get_next] and [factorization] out of it. *)
Theorem retry_loop_prime_diverges {R : Type} `{RandomSource R} (lfuel : nat)
  (N0 : Z) (r : R) :
  Z.prime N0 -> diverges (fun fuel => retry_loop fuel lfuel N0 N0) r.
Proof.
  intros Hp fuel. pose proof (Z.prime_ge_2 N0 Hp) as HN. revert r.
  induction fuel as [|fuel IH]; intros r; [done|].
  cbn [retry_loop]. rewrite decide_True by done. unfold bind.
  destruct (lenstra_cases lfuel N0 r ltac:(lia)) as [->|(d & r' & Hl)]; [done|].
  by rewrite Hl, (lenstra_prime _ _ _ _ _ Hp Hl).
Qed.

Lemma factorization_can_return_witness :
  exists (bs : list Z) (fuel : nat) (l : list Z),
    product l = 91 /\ Forall Z.prime l /\ length l = S (length bs) /\
    forall fuel' rest, (fuel <= fuel')%nat ->
      factorization fuel' 91 (lucky_script bs ++ rest) = Ret (VList l, rest).
Proof. apply factorization_can_return; [lia|apply not_prime_91]. Defined.

Lemma factorization_max_diverges_witness :
  diverges (fun fuel => factorization fuel 91) tt.
Proof. apply factorization_max_diverges; [lia|apply not_prime_91]. Defined.

Lemma retry_loop_prime_diverges_witness :
  diverges (fun fuel => retry_loop fuel 5 7 7) [3; 1; 4].
Proof. apply retry_loop_prime_diverges, prime_7. Defined.
