(* ===== verification/Dict.v ===== *)
(** * Dict: Python dicts from integers to counts

    A [dict] is an association list in insertion order, as Python keeps
    one.  [dict_setitem] is [d[k] = v], [dict_get] is [d.get(k)],
    [dict_of_items] is [dict(items)].  A dict never holds a key twice
    ([dict_wf]); every operation keeps that, whatever the items it is
    built from. *)

From Stdlib Require Import ZArith Lia.
From stdpp Require Import base tactics option list.
From S2P Require Import Prelude.

Local Open Scope Z_scope.

(** ** Definitions *)

(** A dict from integers to counts, in insertion order. *)
Definition dict : Type := list (Z * nat).

(** [d[k] = v]: an existing key keeps its place and takes the new value, a
    new key goes last. *)
Fixpoint dict_setitem (d : dict) (k : Z) (v : nat) : dict :=
  match d with
  | [] => [(k, v)]
  | (k', v') :: d' =>
      if decide (k' = k) then (k, v) :: d'
      else (k', v') :: dict_setitem d' k v
  end.

(** [dict(items)]. *)
Definition dict_of_items (items : list (Z * nat)) : dict :=
  foldl (fun d kv => dict_setitem d kv.1 kv.2) [] items.

(** [d.get(k)]. *)
Fixpoint dict_get (d : dict) (k : Z) : option nat :=
  match d with
  | [] => None
  | (k', v) :: d' => if decide (k' = k) then Some v else dict_get d' k
  end.

(** No key occurs twice. *)
Definition dict_wf (d : dict) : Prop := NoDup d.*1.

(** The value that a list of items binds to [k]: the last one. *)
Fixpoint last_binding (items : list (Z * nat)) (k : Z) : option nat :=
  match items with
  | [] => None
  | (k', v) :: rest =>
      match last_binding rest k with
      | Some w => Some w
      | None => if decide (k' = k) then Some v else None
      end
  end.

(** ** Setting a key *)

Lemma dict_setitem_fresh (d : dict) (k : Z) (v : nat) :
  k ∉ d.*1 -> dict_setitem d k v = d ++ [(k, v)].
Proof.
  induction d as [|[k' v'] d IH]; cbn; [done|].
  rewrite not_elem_of_cons. intros [Hne Hd].
  rewrite decide_False by done. by rewrite IH.
Qed.

Lemma dict_setitem_keys (d : dict) (k : Z) (v : nat) :
  (dict_setitem d k v).*1 = if decide (k ∈ d.*1) then d.*1 else d.*1 ++ [k].
Proof.
  induction d as [|[k' v'] d IH]; cbn; [by rewrite decide_False by apply not_elem_of_nil|].
  destruct (decide (k' = k)) as [->|Hne]; cbn.
  - by rewrite decide_True by left.
  - rewrite IH. destruct (decide (k ∈ d.*1)) as [Hin|Hin].
    + by rewrite decide_True by (by right).
    + rewrite decide_False; [done|]. rewrite elem_of_cons. naive_solver.
Qed.

Lemma dict_setitem_wf (d : dict) (k : Z) (v : nat) :
  dict_wf d -> dict_wf (dict_setitem d k v).
Proof.
  unfold dict_wf. intros Hd. rewrite dict_setitem_keys. case_decide; [done|].
  apply NoDup_app. split_and!; [done| |apply NoDup_singleton].
  intros k' Hk' ->%list_elem_of_singleton. done.
Qed.

Lemma dict_get_setitem (d : dict) (k k' : Z) (v : nat) :
  dict_get (dict_setitem d k v) k' =
    if decide (k = k') then Some v else dict_get d k'.
Proof.
  induction d as [|[k0 v0] d IH]; cbn; [done|].
  destruct (decide (k0 = k)) as [->|Hne]; cbn; repeat case_decide; congruence.
Qed.

(** ** Building a dict from items *)

Lemma foldl_setitem_wf (acc : dict) (items : list (Z * nat)) :
  dict_wf acc -> dict_wf (foldl (fun d kv => dict_setitem d kv.1 kv.2) acc items).
Proof.
  revert acc. induction items as [|[k v] items IH]; intros acc Hacc; [done|].
  cbn [foldl]. by apply IH, dict_setitem_wf.
Qed.

Lemma foldl_setitem_get (acc : dict) (items : list (Z * nat)) (k : Z) :
  dict_get (foldl (fun d kv => dict_setitem d kv.1 kv.2) acc items) k =
    match last_binding items k with
    | Some w => Some w
    | None => dict_get acc k
    end.
Proof.
  revert acc. induction items as [|[k' v] items IH]; intros acc; [done|].
  cbn [foldl last_binding]. rewrite IH, dict_get_setitem. cbn.
  destruct (last_binding items k); [done|]. by case_decide.
Qed.

Lemma foldl_setitem_NoDup (acc items : dict) :
  NoDup (acc ++ items).*1 ->
  foldl (fun d kv => dict_setitem d kv.1 kv.2) acc items = acc ++ items.
Proof.
  revert acc. induction items as [|[k v] items IH]; intros acc Hnd; cbn [foldl].
  { by rewrite app_nil_r. }
  rewrite dict_setitem_fresh.
  - rewrite IH; rewrite <- app_assoc; done.
  - rewrite fmap_app in Hnd. apply NoDup_app in Hnd as (_ & Hdisj & _).
    intros Hin. apply (Hdisj k Hin). cbn. left.
Qed.

(** [dict(items)] is [items] when no key occurs twice. *)
Lemma dict_of_items_NoDup (items : list (Z * nat)) :
  NoDup items.*1 -> dict_of_items items = items.
Proof. intros Hnd. by apply (foldl_setitem_NoDup []). Qed.

(** In a dict without repeated keys, [get] finds exactly the items. *)
Lemma dict_get_Some (d : dict) (k : Z) (v : nat) :
  dict_wf d -> dict_get d k = Some v <-> (k, v) ∈ d.
Proof.
  unfold dict_wf. induction d as [|[k' v'] d IH]; cbn.
  { intros _. split; [done|by intros ?%elem_of_nil]. }
  intros [Hk' Hd]%NoDup_cons. rewrite elem_of_cons, <- IH by done.
  case_decide as Hk; [subst k'|naive_solver]. split; [naive_solver|].
  intros [[= ->]|Hget]; [done|]. destruct Hk'.
  apply list_elem_of_fmap. exists (k, v). split; [done|]. by apply IH.
Qed.

(** ** Theorems *)

(** Setting a key keeps a dict well formed, and afterwards [get] finds
    the new value under that key and the old values under the others. *)
Theorem dict_setitem_get (d : dict) (k k' : Z) (v : nat) :
  dict_wf d ->
  dict_wf (dict_setitem d k v) /\
  dict_get (dict_setitem d k v) k' =
    if decide (k = k') then Some v else dict_get d k'.
Proof. intros Hd. split; [by apply dict_setitem_wf|apply dict_get_setitem]. Qed.

Lemma dict_setitem_get_witness :
  dict_wf (dict_setitem [(7, 1%nat); (13, 1%nat)] 7 2) /\
  dict_get (dict_setitem [(7, 1%nat); (13, 1%nat)] 7 2) 13 = Some 1%nat.
Proof.
  apply (dict_setitem_get [(7, 1%nat); (13, 1%nat)] 7 13 2).
  apply (bool_decide_unpack _). vm_compute. exact I.
Defined.

(** [dict(items)] is well formed whatever the items, repeated keys
    included, and binds every key to the last value the items give it. *)
Theorem dict_of_items_spec (items : list (Z * nat)) (k : Z) :
  dict_wf (dict_of_items items) /\
  dict_get (dict_of_items items) k = last_binding items k.
Proof.
  split; [apply foldl_setitem_wf, NoDup_nil_2|].
  unfold dict_of_items. rewrite foldl_setitem_get.
  by destruct (last_binding items k).
Qed.
