(* ===== verification/Report.v ===== *)
(** * Report: [to_dict] and the script body of src/main.py

    [to_dict] counts each distinct element of the list, sorts the items
    and builds a dict of [Dict] again; the order in which [set(data)]
    enumerates its elements is not fixed by Python, so [to_dict_from]
    takes the enumeration as an argument and the result is proved
    independent of it.  [main] is the script body for a given N,
    returning the dict it prints, if any. *)

From Stdlib Require Import ZArith Zdivisibility Lia.
From stdpp Require Import base tactics option list sets sorting.
From S2P Require Import Prelude ModInt Oracles Lenstra Factor Dict.

Local Open Scope Z_scope.
Local Open Scope py_scope.

(** ** Definitions *)

(** [data.count(key)]. *)
Definition list_count (data : list Z) (key : Z) : nat :=
  length (filter (fun v => v = key) data).

(** [<=] on tuples: lexicographic. *)
Definition tuple_le (p q : Z * nat) : Prop :=
  p.1 < q.1 \/ (p.1 = q.1 /\ (p.2 <= q.2)%nat).

#[export] Instance tuple_le_dec : RelDecision tuple_le.
Proof. intros p q. unfold tuple_le. apply _. Defined.

(** [sorted(items)]. *)
Definition sorted (items : list (Z * nat)) : list (Z * nat) :=
  merge_sort tuple_le items.

(** [set(data)], in one enumeration order. *)
Definition py_set (data : list Z) : list Z := remove_dups data.

(** Lines 194-195, for the enumeration [keys] of [set(data)]. *)
Definition to_dict_from (keys data : list Z) : dict :=
  let dict_data :=
    dict_of_items ((fun key => (key, list_count data key)) <$> keys) in
  dict_of_items (sorted dict_data).

(** [to_dict(data)] on a list. *)
Definition to_dict_list (data : list Z) : dict :=
  to_dict_from (py_set data) data.

(** [to_dict(data)]: [set(data)] raises TypeError on an integer. *)
Definition to_dict {S : Type} (data : pyval) : cmd S dict :=
  match data with
  | VList l => ret (to_dict_list l)
  | VInt _ => raise TypeError
  end.

(** The list a dict of counts stands for: each key, count times. *)
Definition expand (d : dict) : list Z :=
  foldr (fun kv acc => replicate kv.2 kv.1 ++ acc) [] d.

(** The product of the powers key ^ count. *)
Definition dict_product (d : dict) : Z :=
  foldr (fun kv acc => kv.1 ^ Z.of_nat kv.2 * acc) 1 d.

(** What the script promises to print for N: the primes of N in
    ascending order, each with its multiplicity. *)
Definition prime_power_table (n : Z) (d : dict) : Prop :=
  StronglySorted Z.lt d.*1 /\ Forall (fun kv => Z.prime kv.1 /\ (1 <= kv.2)%nat) d /\
  dict_product d = n.

Section Script.
Context {R : Type} `{RandomSource R} `{PrimeOracle}.

(** Lines 198-201 for a given N: the dict that is printed, or [None] when
    nothing is. *)
Definition main (fuel : nat) (N0 : Z) : cmd R (option dict) :=
  if negb (isprime N0) then
    v <- factorization fuel N0 ;;
    d <- to_dict v ;;
    ret (Some d)
  else ret None.

End Script.

(** ** The order on tuples *)

#[export] Instance tuple_le_total : Total tuple_le.
Proof. intros [k1 v1] [k2 v2]. unfold tuple_le. cbn. lia. Qed.

#[export] Instance tuple_le_trans : Transitive tuple_le.
Proof. intros [k1 v1] [k2 v2] [k3 v3]. unfold tuple_le. cbn. lia. Qed.

#[export] Instance tuple_le_antisymm : AntiSymm eq tuple_le.
Proof.
  intros [k1 v1] [k2 v2]. unfold tuple_le. cbn. intros H1 H2. f_equal; lia.
Qed.

Lemma sorted_Permutation (items : list (Z * nat)) : sorted items ≡ₚ items.
Proof. apply merge_sort_Permutation. Qed.

Lemma sorted_StronglySorted (items : list (Z * nat)) :
  StronglySorted tuple_le (sorted items).
Proof. apply StronglySorted_merge_sort; apply _. Qed.

(** Sorted tuples with distinct keys have strictly ascending keys. *)
Lemma tuple_sorted_keys (l : dict) :
  StronglySorted tuple_le l -> NoDup l.*1 -> StronglySorted Z.lt l.*1.
Proof.
  induction 1 as [|[k v] l Hs IH Hall]; cbn; [constructor|].
  intros [Hk Hnd]%NoDup_cons. constructor; [by apply IH|].
  apply Forall_fmap, Forall_forall. intros [k' v'] Hin.
  destruct (proj1 (Forall_forall _ _) Hall _ Hin) as [Hlt|[Heq _]]; [done|].
  cbn in Heq. subst k'. destruct Hk. apply list_elem_of_fmap. by exists (k, v').
Qed.

(** ** Counting *)

Section Counting.
Context (data : list Z).

Lemma count_items_keys (keys : list Z) :
  ((fun key => (key, list_count data key)) <$> keys).*1 = keys.
Proof. rewrite <- list_fmap_compose. apply list_fmap_id. Qed.

Lemma to_dict_from_NoDup (keys : list Z) :
  NoDup keys ->
  to_dict_from keys data = sorted ((fun key => (key, list_count data key)) <$> keys).
Proof.
  intros Hnd. unfold to_dict_from.
  rewrite (dict_of_items_NoDup (_ <$> keys)) by (by rewrite count_items_keys).
  apply dict_of_items_NoDup. by rewrite sorted_Permutation, count_items_keys.
Qed.

Lemma to_dict_from_Permutation (keys keys' : list Z) :
  NoDup keys -> keys ≡ₚ keys' -> to_dict_from keys data = to_dict_from keys' data.
Proof.
  intros Hnd Hp. rewrite !to_dict_from_NoDup by (by rewrite <- ?Hp).
  apply (StronglySorted_unique tuple_le); [apply sorted_StronglySorted..|].
  by rewrite !sorted_Permutation, Hp.
Qed.

Lemma list_count_pos (k : Z) : k ∈ data -> (1 <= list_count data k)%nat.
Proof.
  intros Hin. unfold list_count.
  assert (Hf : k ∈ filter (fun v => v = k) data) by by apply list_elem_of_filter.
  destruct (filter _ data); [by apply elem_of_nil in Hf|cbn; lia].
Qed.

Lemma filter_eq_replicate (k : Z) :
  filter (fun v => v = k) data = replicate (list_count data k) k.
Proof.
  unfold list_count. induction data as [|v l IH]; [done|].
  rewrite filter_cons. case_decide; [|done]. cbn. by f_equal.
Qed.

Lemma filter_elem_of_cons (k : Z) (keys : list Z) :
  k ∉ keys ->
  filter (fun v => v ∈ k :: keys) data
  ≡ₚ filter (fun v => v = k) data ++ filter (fun v => v ∈ keys) data.
Proof.
  intros Hk. induction data as [|v l IH]; [done|].
  rewrite !filter_cons.
  repeat case_decide; rewrite ?IH; try done; try (exfalso; set_solver).
  apply Permutation_middle.
Qed.

End Counting.

(** ** Expansion and product *)

#[export] Instance expand_Permutation : Proper (Permutation ==> Permutation) expand.
Proof.
  apply foldr_permutation_proper; [apply _|solve_proper|].
  intros kv1 kv2 l. rewrite !app_assoc. f_equiv. apply Permutation_app_comm.
Qed.

#[export] Instance product_Permutation : Proper (Permutation ==> eq) product.
Proof.
  apply foldr_permutation_proper; [apply _|solve_proper|]. intros; lia.
Qed.

#[export] Instance list_count_Permutation :
  Proper (Permutation ==> eq ==> eq) list_count.
Proof. intros l l' Hl k ? <-. unfold list_count. by rewrite Hl. Qed.

Lemma product_replicate (n : nat) (k : Z) : product (replicate n k) = k ^ Z.of_nat n.
Proof.
  induction n as [|n IH]; [done|]. cbn [replicate].
  change (product (k :: replicate n k)) with (k * product (replicate n k)).
  rewrite IH, Nat2Z.inj_succ, Z.pow_succ_r by lia. done.
Qed.

Lemma expand_cons (k : Z) (n : nat) (d : dict) :
  expand ((k, n) :: d) = replicate n k ++ expand d.
Proof. reflexivity. Qed.

Lemma dict_product_expand (d : dict) : dict_product d = product (expand d).
Proof.
  induction d as [|[k n] d IH]; [done|].
  rewrite expand_cons, product_app, product_replicate, <- IH. done.
Qed.

Lemma expand_count_items (data keys : list Z) :
  NoDup keys ->
  expand ((fun key => (key, list_count data key)) <$> keys)
  ≡ₚ filter (fun v => v ∈ keys) data.
Proof.
  induction 1 as [|k keys Hk Hnd IH].
  { rewrite filter_Forall_nil; [done|]. apply Forall_forall. set_solver. }
  rewrite filter_elem_of_cons, fmap_cons, expand_cons by done.
  by rewrite <- filter_eq_replicate, <- IH.
Qed.

(** ** Unique factorisation *)

Lemma prime_not_divide_1 (p : Z) : Z.prime p -> ~ (p | 1).
Proof.
  intros Hp%Z.prime_ge_2 Hd. apply Z.divide_1_r_nonneg in Hd; lia.
Qed.

Lemma prime_divides_product (p : Z) (l : list Z) :
  Z.prime p -> Forall Z.prime l -> (p | product l) -> p ∈ l.
Proof.
  intros Hp. induction 1 as [|q l Hq Hl IH]; cbn.
  { intros Hd. by destruct (prime_not_divide_1 p). }
  intros [Hd|Hd]%Z.divide_prime_mul; [|right; auto|done].
  rewrite (Z.divide_prime_prime p q) by done. left.
Qed.

(** Two lists of primes with the same product are permutations of each
    other. *)
Lemma prime_factors_unique (l1 l2 : list Z) :
  Forall Z.prime l1 -> Forall Z.prime l2 -> product l1 = product l2 -> l1 ≡ₚ l2.
Proof.
  intros H1. revert l2. induction H1 as [|p l1 Hp Hl1 IH]; intros l2 H2 Heq.
  { destruct H2 as [|q l2 Hq _]; [done|].
    destruct (prime_not_divide_1 q Hq). exists (product l2).
    cbn in Heq. rewrite Heq. apply Z.mul_comm. }
  assert (Hin : p ∈ l2).
  { apply prime_divides_product; [done..|]. rewrite <- Heq.
    exists (product l1). apply Z.mul_comm. }
  apply elem_of_Permutation in Hin as [l2' Hl2']. rewrite Hl2' in H2, Heq |- *.
  apply Forall_cons in H2 as [_ H2]. f_equiv. apply IH; [done|].
  apply Z.prime_ge_2 in Hp. apply (Z.mul_reg_l _ _ p); [lia|done].
Qed.

(** ** [to_dict] on lists *)

Lemma NoDup_py_set (data : list Z) : NoDup (py_set data).
Proof. apply NoDup_remove_dups. Qed.

Lemma elem_of_py_set (data : list Z) (v : Z) : v ∈ py_set data <-> v ∈ data.
Proof. apply elem_of_remove_dups. Qed.

Lemma to_dict_list_sorted (data : list Z) :
  to_dict_list data = sorted ((fun key => (key, list_count data key)) <$> py_set data).
Proof. apply to_dict_from_NoDup, NoDup_py_set. Qed.

Lemma to_dict_list_keys (data : list Z) : (to_dict_list data).*1 ≡ₚ py_set data.
Proof. by rewrite to_dict_list_sorted, sorted_Permutation, count_items_keys. Qed.

Lemma elem_of_to_dict_list (data : list Z) (k : Z) (n : nat) :
  (k, n) ∈ to_dict_list data <-> k ∈ data /\ n = list_count data k.
Proof.
  rewrite to_dict_list_sorted, sorted_Permutation, list_elem_of_fmap.
  setoid_rewrite elem_of_py_set. naive_solver.
Qed.

Lemma to_dict_list_keys_sorted (data : list Z) :
  StronglySorted Z.lt (to_dict_list data).*1.
Proof.
  apply tuple_sorted_keys.
  - rewrite to_dict_list_sorted. apply sorted_StronglySorted.
  - rewrite to_dict_list_keys. apply NoDup_py_set.
Qed.

Lemma expand_to_dict_list (data : list Z) : expand (to_dict_list data) ≡ₚ data.
Proof.
  rewrite to_dict_list_sorted, sorted_Permutation.
  rewrite expand_count_items by apply NoDup_py_set.
  rewrite filter_Forall_id; [done|]. apply Forall_forall. intros v Hv.
  by apply elem_of_py_set.
Qed.

Lemma py_set_Permutation (data data' : list Z) :
  data ≡ₚ data' -> py_set data ≡ₚ py_set data'.
Proof.
  intros Hp. apply NoDup_Permutation; [apply NoDup_py_set..|].
  intros v. by rewrite !elem_of_py_set, Hp.
Qed.

#[export] Instance to_dict_list_Permutation :
  Proper (Permutation ==> eq) to_dict_list.
Proof.
  intros data data' Hp. unfold to_dict_list.
  rewrite (to_dict_from_Permutation data _ (py_set data'))
    by auto using NoDup_py_set, py_set_Permutation.
  unfold to_dict_from. do 3 f_equal. apply list_fmap_ext.
  intros _ key _. by rewrite Hp.
Qed.

Lemma to_dict_list_table (n : Z) (l : list Z) :
  factors_of n (VList l) -> prime_power_table n (to_dict_list l).
Proof.
  intros (? & [= <-] & Hprod & Hprime). split_and!.
  - apply to_dict_list_keys_sorted.
  - apply Forall_forall. intros [k c] [Hin ->]%elem_of_to_dict_list. split.
    + by apply (proj1 (Forall_forall _ _) Hprime).
    + by apply list_count_pos.
  - by rewrite dict_product_expand, expand_to_dict_list.
Qed.

(** ** A dict of counts is determined by the list it stands for *)

Lemma list_count_app (l1 l2 : list Z) (k : Z) :
  list_count (l1 ++ l2) k = (list_count l1 k + list_count l2 k)%nat.
Proof. unfold list_count. by rewrite filter_app, length_app. Qed.

Lemma list_count_replicate (n : nat) (k' k : Z) :
  list_count (replicate n k') k = if decide (k' = k) then n else 0%nat.
Proof.
  unfold list_count. induction n as [|n IH]; [by case_decide|].
  cbn [replicate]. rewrite filter_cons.
  repeat case_decide; cbn [length]; congruence.
Qed.

Lemma list_count_not_in (l : list Z) (k : Z) : k ∉ l -> list_count l k = 0%nat.
Proof.
  intros Hk. unfold list_count. rewrite filter_Forall_nil; [done|].
  apply Forall_forall. intros v Hv ->. done.
Qed.

Lemma elem_of_expand (d : dict) (k : Z) :
  k ∈ expand d <-> exists n, (k, n) ∈ d /\ (1 <= n)%nat.
Proof.
  induction d as [|[k' n'] d IH].
  { split; [by intros ?%elem_of_nil|by intros (n & ?%elem_of_nil & _)]. }
  rewrite expand_cons, elem_of_app, IH, elem_of_replicate.
  setoid_rewrite elem_of_cons. split.
  - intros [[-> Hn]|(n & Hin & Hn)]; [exists n'; split; [by left|lia]|eauto].
  - intros (n & [[= -> ->]|Hin] & Hn); [left; split; [done|lia]|eauto].
Qed.

Lemma expand_keys (d : dict) (k : Z) : k ∈ expand d -> k ∈ d.*1.
Proof.
  intros (n & Hin & _)%elem_of_expand. apply list_elem_of_fmap. by exists (k, n).
Qed.

(** In a dict, the count of a key is the number of its occurrences in the
    expansion. *)
Lemma list_count_expand (d : dict) (k : Z) (n : nat) :
  NoDup d.*1 -> (k, n) ∈ d -> list_count (expand d) k = n.
Proof.
  induction d as [|[k' n'] d IH]; [by intros _ ?%elem_of_nil|].
  cbn [fmap list_fmap fst]. intros [Hk' Hnd]%NoDup_cons.
  rewrite expand_cons, list_count_app, list_count_replicate.
  intros [[= -> ->]|Hin]%elem_of_cons.
  - rewrite decide_True by done.
    rewrite list_count_not_in by (by intros ?%expand_keys). lia.
  - rewrite decide_False, IH by (try done; intros ->; apply Hk',
      list_elem_of_fmap; by exists (k, n)). done.
Qed.

Lemma keys_sorted_tuple_sorted (d : dict) :
  StronglySorted Z.lt d.*1 -> StronglySorted tuple_le d.
Proof.
  induction d as [|[k n] d IH]; [constructor|]. cbn [fmap list_fmap fst].
  intros [Hs Hall]%StronglySorted_inv. constructor; [by apply IH|].
  rewrite Forall_fmap in Hall. eapply Forall_impl; [exact Hall|].
  intros [k' n'] Hlt. by left.
Qed.

Lemma keys_sorted_NoDup (d : dict) : StronglySorted Z.lt d.*1 -> NoDup d.*1.
Proof.
  induction 1 as [|k l _ IH Hall]; constructor; [|done].
  intros Hin. apply (proj1 (Forall_forall _ _) Hall) in Hin. lia.
Qed.

(** The other half of the round trip: counting the expansion of a dict
    with ascending keys and positive counts gives the dict back. *)
Lemma to_dict_list_expand (d : dict) :
  StronglySorted Z.lt d.*1 -> Forall (fun kv => (1 <= kv.2)%nat) d ->
  to_dict_list (expand d) = d.
Proof.
  intros Hs Hpos. pose proof (keys_sorted_NoDup d Hs) as Hnd.
  apply (StronglySorted_unique tuple_le);
    [apply keys_sorted_tuple_sorted, to_dict_list_keys_sorted
    |by apply keys_sorted_tuple_sorted|].
  apply NoDup_Permutation.
  - eapply NoDup_fmap_1, keys_sorted_NoDup, to_dict_list_keys_sorted.
  - by eapply NoDup_fmap_1.
  - intros [k n]. rewrite elem_of_to_dict_list, elem_of_expand. split.
    + intros [(n' & Hin & _) ->]. by rewrite (list_count_expand d k n').
    + intros Hin. split; [|by rewrite (list_count_expand d k n)].
      exists n. split; [done|]. by apply (proj1 (Forall_forall _ _) Hpos (k, n)).
Qed.

Lemma expand_primes (n : Z) (d : dict) :
  prime_power_table n d -> Forall Z.prime (expand d) /\ product (expand d) = n.
Proof.
  intros (_ & Hall & Hprod). rewrite <- dict_product_expand. split; [|done].
  apply Forall_forall. intros k (c & Hin & _)%elem_of_expand.
  by apply (proj1 (Forall_forall _ _) Hall (k, c)).
Qed.

(** A number has one table of prime powers. *)
Lemma prime_power_table_unique (n : Z) (d1 d2 : dict) :
  prime_power_table n d1 -> prime_power_table n d2 -> d1 = d2.
Proof.
  intros H1 H2. destruct (expand_primes n d1 H1) as [Hp1 Hn1].
  destruct (expand_primes n d2 H2) as [Hp2 Hn2].
  destruct H1 as (Hs1 & Hall1 & _), H2 as (Hs2 & Hall2 & _).
  rewrite <- (to_dict_list_expand d1), <- (to_dict_list_expand d2);
    [|done|by eapply Forall_impl; [exact Hall2|naive_solver]
     |done|by eapply Forall_impl; [exact Hall1|naive_solver]].
  apply to_dict_list_Permutation, prime_factors_unique; congruence.
Qed.

(** ** The script *)

Section ScriptFacts.
Context {R : Type} `{RandomSource R} `{PrimeOracle}.

(** What the script prints is [to_dict] of a list of primes whose product
    is N. *)
Lemma main_Some_inv (fuel : nat) (N0 : Z) (r r' : R) (d : dict) :
  main fuel N0 r = Ret (Some d, r') ->
  exists l, factors_of N0 (VList l) /\ d = to_dict_list l.
Proof.
  unfold main. destruct (isprime N0) eqn:Hp; cbn [negb]; [done|].
  intros (v & r1 & Hrun & Hd)%bind_inv_Ret.
  pose proof (factorization_outcome fuel N0 r) as Ho. rewrite Hrun, Hp in Ho.
  destruct Ho as (l & -> & Hl). exists l. split; [by exists l|].
  cbn in Hd. by injection Hd as <- _.
Qed.

(** C34. [to_dict] on a list returns the dict of its distinct elements in
    strictly ascending order, each with the number of its occurrences;
    expanding the dict gives back the list up to order.  The state is
    untouched. *)
Theorem to_dict_spec {S : Type} (data : list Z) (s s' : S) (d : dict) :
  to_dict (VList data) s = Ret (d, s') ->
  s' = s /\ StronglySorted Z.lt d.*1 /\
  (forall k n, (k, n) ∈ d <-> k ∈ data /\ n = list_count data k) /\
  expand d ≡ₚ data.
Proof.
  intros [= <- <-]. split_and!; [done| | |].
  - apply to_dict_list_keys_sorted.
  - apply elem_of_to_dict_list.
  - apply expand_to_dict_list.
Qed.

(** The order in which [set(data)] enumerates its elements does not
    matter: every enumeration without repetition gives the same dict. *)
Theorem to_dict_set_order_irrelevant (keys data : list Z) :
  NoDup keys -> (forall v, v ∈ keys <-> v ∈ data) ->
  to_dict_from keys data = to_dict_list data.
Proof.
  intros Hnd Hkeys. apply to_dict_from_Permutation; [done|].
  apply NoDup_Permutation; [done|apply NoDup_py_set|].
  intros v. by rewrite elem_of_py_set.
Qed.

(** C16. What the script prints for N is the table of the prime powers of
    N: the keys are primes in strictly ascending order, the counts are at
    least 1, and the product of key ^ count is N.  There is one such
    table, so the dict printed is determined by N alone. *)
Theorem main_prints_prime_powers (fuel : nat) (N0 : Z) (r r' : R) (d : dict) :
  main fuel N0 r = Ret (Some d, r') ->
  prime_power_table N0 d /\ forall d', prime_power_table N0 d' -> d' = d.
Proof.
  intros (l & Hl & ->)%main_Some_inv.
  pose proof (to_dict_list_table N0 l Hl) as Hd.
  split; [done|]. intros d' Hd'. by apply (prime_power_table_unique N0).
Qed.

(** What the script prints does not depend on the random draws, nor
    on the fuel: two runs on the same N that print, print the same dict. *)
Theorem main_deterministic (fuel1 fuel2 : nat) (N0 : Z) (r1 r1' r2 r2' : R)
  (d1 d2 : dict) :
  main fuel1 N0 r1 = Ret (Some d1, r1') ->
  main fuel2 N0 r2 = Ret (Some d2, r2') -> d1 = d2.
Proof.
  intros (l1 & (? & [= <-] & Hp1 & Hl1) & ->)%main_Some_inv.
  intros (l2 & (? & [= <-] & Hp2 & Hl2) & ->)%main_Some_inv.
  apply to_dict_list_Permutation, prime_factors_unique; congruence.
Qed.

(** C30. The exceptions of the script body: it raises exactly when
    N < 1 (and the fuel lets the driver start), and then the ValueError
    of the first draw.  On every other input nothing raises: the test
    [if not isprime(N)] keeps the integer that [factorization] returns
    on a prime away from [set], and on a composite the driver returns a
    list. *)
Theorem main_raises_iff (fuel : nat) (N0 : Z) (r : R) (e : exn) :
  main fuel N0 r = Raise e <-> fuel <> 0%nat /\ N0 < 1 /\ e = ValueError.
Proof.
  unfold main. destruct (isprime N0) eqn:Hp; cbn [negb].
  { apply isprime_ge_2 in Hp. split; [done|lia]. }
  pose proof (factorization_outcome fuel N0 r) as Ho. rewrite Hp in Ho.
  unfold bind at 1. destruct (factorization fuel N0 r) as [[v r1]| |] eqn:Hrun.
  - destruct Ho as (l & -> & _). split; [done|]. intros (Hf & HN & _).
    destruct fuel as [|fuel]; [done|]. by rewrite factorization_below_1 in Hrun.
  - split; [intros [= <-]; by destruct fuel|naive_solver].
  - split; [done|]. intros (Hf & HN & _).
    destruct fuel as [|fuel]; [done|]. by rewrite factorization_below_1 in Hrun.
Qed.

(** [to_dict(factorization(N))] on a prime N raises TypeError: the
    integer that [factorization] returns on a prime is not iterable.  The
    test [if not isprime(N)] of the script is what keeps this from
    happening. *)
Theorem to_dict_of_prime_raises (fuel : nat) (N0 : Z) (r : R) :
  Z.prime N0 ->
  (v <- factorization (S fuel) N0 ;; to_dict v) r = Raise TypeError.
Proof.
  intros Hp%isprime_spec.
  by rewrite (bind_returns _ _ _ _ _ (factorization_prime fuel N0 r Hp)).
Qed.

End ScriptFacts.

(** ** Runs *)

Lemma main_script_91 : main 9 91 [1; 2; 4] = Ret (Some [(7, 1%nat); (13, 1%nat)], []).
Proof. vm_compute. reflexivity. Qed.

Lemma to_dict_spec_witness :
  expand [(2, 3%nat); (3, 2%nat); (7, 1%nat)] ≡ₚ [3; 2; 3; 2; 2; 7].
Proof.
  apply (to_dict_spec (S := unit) [3; 2; 3; 2; 2; 7] tt tt). vm_compute. reflexivity.
Defined.

Lemma to_dict_set_order_irrelevant_witness :
  to_dict_from [7; 2; 3] [3; 2; 3; 2; 2; 7] = to_dict_list [3; 2; 3; 2; 2; 7].
Proof.
  apply to_dict_set_order_irrelevant;
    [apply (bool_decide_unpack _); vm_compute; exact I|].
  intros v. rewrite !elem_of_cons, !elem_of_nil. lia.
Defined.

Lemma main_prints_prime_powers_witness :
  prime_power_table 91 [(7, 1%nat); (13, 1%nat)] /\
  forall d', prime_power_table 91 d' -> d' = [(7, 1%nat); (13, 1%nat)].
Proof. exact (main_prints_prime_powers 9 91 [1; 2; 4] [] _ main_script_91). Defined.

Lemma main_deterministic_witness :
  [(7, 1%nat); (13, 1%nat)] = [(7, 1%nat); (13, 1%nat)] :> dict.
Proof.
  apply (main_deterministic 9 25 91 [1; 2; 4] [] [0; 0; 0] []);
    vm_compute; reflexivity.
Defined.

Lemma to_dict_of_prime_raises_witness :
  (v <- factorization 1 17 ;; to_dict v) ([] : list Z) = Raise TypeError.
Proof. exact (to_dict_of_prime_raises 0 17 [] prime_17). Defined.
