(* ===== verification/Output.v ===== *)
(** * Output: the text the script prints

    [dict_repr] is the text of a dict ([repr], which an f-string field
    and [print] apply): the items as "key: value", separated by ", ",
    between braces.  [print] appends the newline.  [script] is the script
    body for a given N as a command that returns what it writes to the
    standard output.  [dict_of_repr] reads the text of a dict back; that
    it inverts [dict_repr] shows that the printed line determines the
    factorisation. *)

From Stdlib Require Import ZArith String Ascii Lia.
From stdpp Require Import base tactics option list strings.
From S2P Require Import Prelude Text Oracles Factor Dict Report.

Local Open Scope Z_scope.
Local Open Scope py_scope.

(** ** Definitions *)

(** The text of one item: [f"{k!r}: {v!r}"]. *)
Definition item_repr (kv : Z * nat) : string :=
  int_str kv.1 +:+ ": " +:+ int_str (Z.of_nat kv.2).

(** [repr(d)] of a dict. *)
Definition dict_repr (d : dict) : string :=
  "{" +:+ join ", " (item_repr <$> d) +:+ "}".

Definition newline : string := String "010"%char EmptyString.

(** What [print(s)] writes. *)
Definition print (s : string) : string := s +:+ newline.

(** Reads "key: value". *)
Definition item_of_repr (s : string) : option (Z * nat) :=
  '(sk, s1) ← split_at ":" s;
  sv ← strip_prefix " " s1;
  k ← int_of_str sk;
  v ← int_of_str sv;
  if decide (0 <= v) then Some (k, Z.to_nat v) else None.

(** Reads the text of a dict: the braces, then the pieces between commas,
    each after one space (one is put before the first piece). *)
Definition dict_of_repr (s : string) : option dict :=
  s1 ← strip_prefix "{" s;
  '(body, s2) ← split_at "}" s1;
  if decide (s2 = EmptyString) then
    if decide (body = EmptyString) then Some []
    else mapM (fun piece => strip_prefix " " piece ≫= item_of_repr)
              (split_all "," (" " +:+ body))
  else None.

Section Script.
Context {R : Type} `{RandomSource R} `{PrimeOracle}.

(** Lines 198-201 for a given N: the text written to the standard
    output. *)
Definition script (fuel : nat) (N0 : Z) : cmd R string :=
  o <- main fuel N0 ;;
  ret (match o with
       | Some d => print (dict_repr d)
       | None => EmptyString
       end).

End Script.

(** ** The text of an item *)

Lemma item_repr_absent (c : ascii) (kv : Z * nat) :
  ~ int_char c -> c <> ":"%char -> c <> " "%char -> absent c (item_repr kv).
Proof.
  intros Hc H1 H2. unfold item_repr. rewrite !absent_app.
  split_and!; [by apply int_str_absent| |by apply int_str_absent].
  cbn. naive_solver.
Qed.

Lemma item_of_repr_repr (kv : Z * nat) : item_of_repr (item_repr kv) = Some kv.
Proof.
  unfold item_of_repr, item_repr.
  rewrite split_at_app_sep by (apply int_str_absent; solve_char).
  cbn [mbind option_bind]. rewrite strip_prefix_app. cbn [mbind option_bind].
  rewrite !int_of_str_int_str. cbn [mbind option_bind].
  rewrite decide_True by lia. rewrite Nat2Z.id. by destruct kv.
Qed.

Lemma item_repr_nonempty (kv : Z * nat) : item_repr kv <> EmptyString.
Proof.
  unfold item_repr. pose proof (int_str_nonempty kv.1) as Hne.
  by destruct (int_str kv.1).
Qed.

(** ** The text of a dict *)

Lemma join_item_absent (c : ascii) (d : dict) :
  ~ int_char c -> c <> ":"%char -> c <> " "%char -> c <> ","%char ->
  absent c (join ", " (item_repr <$> d)).
Proof.
  intros Hc H1 H2 H3. induction d as [|kv [|kv' d] IH]; [done| |].
  - by apply item_repr_absent.
  - rewrite fmap_cons, (fmap_cons _ kv'), join_cons, !absent_app.
    split_and!; [by apply item_repr_absent| |done]. cbn. naive_solver.
Qed.

Lemma join_item_nonempty (kv : Z * nat) (d : dict) :
  join ", " (item_repr <$> kv :: d) <> EmptyString.
Proof.
  pose proof (item_repr_nonempty kv) as Hne.
  destruct d; cbn [fmap list_fmap join]; [done|]. by destruct (item_repr kv).
Qed.

Lemma split_all_join (kv : Z * nat) (d : dict) :
  split_all "," (" " +:+ join ", " (item_repr <$> kv :: d)) =
    (fun kv => " " +:+ item_repr kv) <$> kv :: d.
Proof.
  revert kv. induction d as [|kv' d IH]; intros kv.
  { apply split_all_absent, absent_app. split; [cbn; naive_solver|].
    apply item_repr_absent; solve_char. }
  rewrite fmap_cons, (fmap_cons _ kv'), join_cons, <- append_assoc.
  rewrite (append_cons ","), split_all_app, <- (fmap_cons item_repr), IH; [done|].
  apply absent_app. split; [cbn; naive_solver|apply item_repr_absent; solve_char].
Qed.

(** Reading the text of a dict gives the dict back: the printed line
    determines the keys, their order and their counts. *)
Theorem dict_repr_roundtrip (d : dict) : dict_of_repr (dict_repr d) = Some d.
Proof.
  unfold dict_of_repr, dict_repr. rewrite strip_prefix_app. cbn [mbind option_bind].
  rewrite split_at_app by (apply join_item_absent; solve_char).
  cbn [mbind option_bind]. rewrite decide_True by done.
  destruct d as [|kv d]; [done|].
  rewrite decide_False by apply join_item_nonempty.
  rewrite split_all_join. apply mapM_fmap_Some. intros kv'.
  rewrite strip_prefix_app. apply item_of_repr_repr.
Qed.

(** ** The script *)

Section ScriptFacts.
Context {R : Type} `{RandomSource R} `{PrimeOracle}.

Lemma main_fuel_mono (N0 : Z) : fuel_mono (fun fuel => main fuel N0).
Proof.
  unfold main. destruct (isprime N0); cbn [negb]; [apply fuel_mono_const|].
  apply (fuel_mono_bind (fun fuel => factorization fuel N0));
    [apply factorization_fuel_le|intros v; apply fuel_mono_const].
Qed.

Lemma script_fuel_mono (N0 : Z) : fuel_mono (fun fuel => script fuel N0).
Proof.
  apply (fuel_mono_bind (fun fuel => main fuel N0));
    [apply main_fuel_mono|intros o; apply fuel_mono_const].
Qed.

(** On a prime the script writes nothing, whatever the fuel: [main] tests
    [isprime(N)] before it factors. *)
Lemma script_prime (fuel : nat) (N0 : Z) (r : R) :
  Z.prime N0 -> script fuel N0 r = Ret (EmptyString, r).
Proof.
  intros Hp%isprime_spec. unfold script, main, bind. by rewrite Hp.
Qed.

(** On any other number, what it writes is one line: the text of a table
    of prime powers. *)
Lemma script_composite_inv (fuel : nat) (N0 : Z) (r r' : R) (t : string) :
  ~ Z.prime N0 -> script fuel N0 r = Ret (t, r') ->
  exists d, prime_power_table N0 d /\ t = print (dict_repr d).
Proof.
  intros Hp%isprime_false (o & r1 & Hmain & Hret)%bind_inv_Ret.
  injection Hret as <- <-. destruct o as [d|].
  - destruct (main_Some_inv _ _ _ _ _ Hmain) as (l & Hl & ->).
    eauto using to_dict_list_table.
  - unfold main in Hmain. rewrite Hp in Hmain. cbn [negb] in Hmain.
    apply bind_inv_Ret in Hmain as (v & r2 & _ & (d & r3 & _ & [=])%bind_inv_Ret).
Qed.

(** When [factorization] returns a list, the script writes the text of
    its dict. *)
Lemma script_of_factorization (fuel : nat) (N0 : Z) (r r' : R) (l : list Z) :
  ~ Z.prime N0 -> factorization fuel N0 r = Ret (VList l, r') ->
  script fuel N0 r = Ret (print (dict_repr (to_dict_list l)), r').
Proof.
  intros Hp%isprime_false Hrun. unfold script, main. rewrite Hp. cbn [negb].
  unfold bind. by rewrite Hrun.
Qed.

(** What the script writes: nothing when N is prime; otherwise one
    line, the text of the table of the prime powers of N. *)
Theorem script_prints (fuel : nat) (N0 : Z) (r r' : R) (t : string) :
  script fuel N0 r = Ret (t, r') ->
  (Z.prime N0 /\ t = EmptyString /\ r' = r) \/
  (~ Z.prime N0 /\ exists d, prime_power_table N0 d /\ t = print (dict_repr d)).
Proof.
  intros Hrun. destruct (isprime N0) eqn:Hp.
  - left. apply isprime_spec in Hp. rewrite script_prime in Hrun by done.
    by injection Hrun as <- <-.
  - right. apply isprime_false in Hp. split; [done|].
    by eapply script_composite_inv.
Qed.

End ScriptFacts.

(** Two exact oracles give the same runs of the script. *)
Lemma script_oracle {R : Type} `{RandomSource R} (O1 O2 : PrimeOracle)
  (fuel : nat) (N0 : Z) (r : R) :
  script (H0 := O1) fuel N0 r = script (H0 := O2) fuel N0 r.
Proof.
  unfold script, main. rewrite (isprime_unique O1 O2 N0).
  destruct (isprime N0); [done|]. cbn [negb]. unfold bind.
  by rewrite (factorization_oracle O1 O2).
Qed.

(** ** Runs *)

Lemma script_script_91 :
  script 9 91 [1; 2; 4] = Ret ("{7: 1, 13: 1}" +:+ newline, []).
Proof. vm_compute. reflexivity. Qed.

Lemma script_prints_witness :
  (Z.prime 91 /\ "{7: 1, 13: 1}" +:+ newline = EmptyString /\ [] = [1; 2; 4]) \/
  (~ Z.prime 91 /\
   exists d, prime_power_table 91 d /\ "{7: 1, 13: 1}" +:+ newline = print (dict_repr d)).
Proof. exact (script_prints 9 91 [1; 2; 4] [] _ script_script_91). Defined.

(** The run of the specification, to the last character: with the
    draws a = 2, b = 3, A = 5 the script writes the line "{7: 1, 13: 1}"
    for 91, with any fuel from 9 on. *)
Theorem script_91 (fuel : nat) :
  (9 <= fuel)%nat ->
  script fuel 91 [1; 2; 4] = Ret ("{7: 1, 13: 1}" +:+ newline, []).
Proof.
  intros Hle. exact (script_fuel_mono 91 9%nat fuel _ _ _ Hle script_script_91).
Qed.

Lemma script_91_witness :
  script 9 91 [1; 2; 4] = Ret ("{7: 1, 13: 1}" +:+ newline, []).
Proof. apply script_91. lia. Defined.

(** The other run of the specification: 4 is printed as 2 to the power 2,
    here with the draws a = b = A = 1, with any fuel from 3 on. *)
Lemma script_script_4 : script 3 4 [0; 0; 0] = Ret ("{2: 2}" +:+ newline, []).
Proof. vm_compute. reflexivity. Qed.

Lemma script_4 (fuel : nat) :
  (3 <= fuel)%nat -> script fuel 4 [0; 0; 0] = Ret ("{2: 2}" +:+ newline, []).
Proof.
  intros Hle. exact (script_fuel_mono 4 3%nat fuel _ _ _ Hle script_script_4).
Qed.
