(* ===== verification/Run.v ===== *)
(** * Run: the script as it stands

    Line 199 of src/main.py fixes the number: N =
    1234569454241865415611952418521.  [script_N] is that number and
    [script_run] is the script body applied to it.  N is the product of
    six distinct primes, the largest of fifteen digits ([Primes] checks
    them), so the table of its prime powers is known and, being unique,
    is the only thing the script can print:

    - whatever the random source draws, whichever exact oracle is used
      and whatever the fuel, if the script writes anything it writes
      [script_line] ([script_run_prints]);
    - there are draws on which it does: with the five draws
      [script_draws], one for each split, each search fails in its first
      doubling on the factor chosen, and the script writes the line with
      any fuel from 7 on ([script_run_lucky]);
    - and draws on which it does so by the arithmetic of the curves: on
      [curve_draws] the first search splits off the largest prime and
      the other four find 13, 43, 167 and 383 on four curves, the loop of
      [lenstra] reaching the multiplier 29; [factorization] returns the
      primes in the order [curve_factors], which is the list src/main.py
      returns under CPython when [random.randint] reads the same script,
      and the script writes the line with any fuel from 34 on
      ([script_run_curves]). *)

From Stdlib Require Import ZArith Zdivisibility String Ascii Lia.
From stdpp Require Import base tactics option list strings sorting.
From S2P Require Import Prelude Text Oracles Primes Lenstra Factor Termination.
From S2P Require Import Dict Report Output.

Local Open Scope Z_scope.

(** ** Definitions *)

(** Line 199: [N = 1234569454241865415611952418521]. *)
Definition script_N : Z := 1234569454241865415611952418521.

Section Script.
Context {R : Type} `{RandomSource R} `{PrimeOracle}.

(** Lines 198-201, as they stand. *)
Definition script_run (fuel : nat) : cmd R string := script fuel script_N.

End Script.

(** The prime powers of N. *)
Definition script_table : dict :=
  [(13, 1%nat); (43, 1%nat); (167, 1%nat); (383, 1%nat);
   (121188227, 1%nat); (284923350497477, 1%nat)].

(** The line that stands for them. *)
Definition script_line : string :=
  "{13: 1, 43: 1, 167: 1, 383: 1, 121188227: 1, 284923350497477: 1}" +:+ newline.

(** The second draw of each search of a run that splits N: the factor to
    split off. *)
Definition script_draws : list Z := [284923350497477; 121188227; 383; 167; 43].

(** The numbers drawn in a run of five searches (three draws each): the
    first search fails in its first doubling on the largest prime, the
    others run the loop on the curves y^2 = x^3 + A x + B through (a, b)
    with (a, b, A) = (51, 99, 55), (7, 35, 67), (64, 53, 40) and
    (63, 47, 76). *)
Definition curve_draws : list Z :=
  [0; 284923350497476; 0; 50; 98; 54; 6; 34; 66; 63; 52; 39; 62; 46; 75].

(** What [factorization] returns on them. *)
Definition curve_factors : list Z :=
  [284923350497477; 13; 43; 167; 383; 121188227].

(** ** The number *)

Lemma script_table_primes : Forall (fun kv => Z.prime kv.1 /\ (1 <= kv.2)%nat) script_table.
Proof.
  repeat apply Forall_cons_2; try apply Forall_nil_2;
    (split; [apply prime_by_test; vm_compute; reflexivity|cbn; lia]).
Qed.

Lemma script_table_spec : prime_power_table script_N script_table.
Proof.
  split_and!; [|apply script_table_primes|reflexivity].
  cbn. repeat (apply SSorted_cons; [|repeat constructor; lia]). constructor.
Qed.

Lemma script_N_not_prime : ~ Z.prime script_N.
Proof.
  apply (divisor_not_prime _ 13); [unfold script_N; lia|].
  exists 94966881095528108893227109117. reflexivity.
Qed.

(** The only table of prime powers of N. *)
Lemma script_N_table (d : dict) : prime_power_table script_N d -> d = script_table.
Proof. intros Hd. apply (prime_power_table_unique script_N); [done|apply script_table_spec]. Qed.

Lemma script_line_spec : print (dict_repr script_table) = script_line.
Proof. vm_compute. reflexivity. Qed.

(** The run on the draws that split N, with the fast oracle. *)
Lemma script_run_fast :
  script_run (H0 := fast_oracle) 7 (lucky_script script_draws) = Ret (script_line, []).
Proof. vm_compute. reflexivity. Qed.

(** The run on the curves, with the fast oracle: 34 is the least fuel. *)
Lemma factorization_curves_fast :
  factorization (H0 := fast_oracle) 34 script_N curve_draws =
    Ret (VList curve_factors, []) /\
  factorization (H0 := fast_oracle) 33 script_N curve_draws = OutOfFuel.
Proof. split; vm_compute; reflexivity. Qed.

Lemma script_run_curves_fast :
  script_run (H0 := fast_oracle) 34 curve_draws = Ret (script_line, []).
Proof. vm_compute. reflexivity. Qed.

Lemma script_run_fuel_mono {R : Type} `{RandomSource R} `{PrimeOracle} :
  fuel_mono (fun fuel => script_run (R := R) fuel).
Proof. exact (script_fuel_mono script_N). Qed.

Lemma script_run_oracle {R : Type} `{RandomSource R} (O1 O2 : PrimeOracle)
  (fuel : nat) (r : R) :
  script_run (H0 := O1) fuel r = script_run (H0 := O2) fuel r.
Proof. exact (script_oracle O1 O2 fuel script_N r). Qed.

(** ** Theorems *)

Section RunTheorems.
Context `{PrimeOracle}.

(** C17. What the script prints, as it stands: for every random source,
    every exact primality oracle and every fuel, if the script returns it
    has written exactly the line
    "{13: 1, 43: 1, 167: 1, 383: 1, 121188227: 1, 284923350497477: 1}". *)
Theorem script_run_prints {R : Type} `{RandomSource R} (fuel : nat) (r r' : R)
  (t : string) :
  script_run fuel r = Ret (t, r') -> t = script_line.
Proof.
  intros Hrun.
  destruct (script_composite_inv fuel script_N r r' t script_N_not_prime Hrun)
    as (d & Hd & ->).
  by rewrite (script_N_table d Hd), script_line_spec.
Qed.

(** The script can print: on the five draws of [script_draws], one
    search for each of the five splits of N, it returns the line and uses
    up the draws, with any fuel from 7 on and any exact oracle. *)
Theorem script_run_lucky (fuel : nat) :
  (7 <= fuel)%nat ->
  script_run fuel (lucky_script script_draws) = Ret (script_line, []).
Proof.
  intros Hle. rewrite (script_run_oracle _ fast_oracle).
  exact (script_run_fuel_mono 7%nat fuel _ _ _ Hle script_run_fast).
Qed.

(** The driver on the curves: [factorization] returns the six primes in
    the order in which the program finds them, with any fuel from 34 on
    and any exact oracle, and with fuel 33 it does not return. *)
Theorem factorization_curves (fuel : nat) :
  (34 <= fuel)%nat ->
  factorization fuel script_N curve_draws = Ret (VList curve_factors, []) /\
  factorization 33 script_N curve_draws = OutOfFuel.
Proof.
  intros Hle. rewrite (factorization_oracle _ fast_oracle fuel).
  rewrite (factorization_oracle _ fast_oracle 33).
  destruct factorization_curves_fast as [H34 H33]. split; [|exact H33].
  exact (factorization_fuel_le script_N 34%nat fuel _ _ _ Hle H34).
Qed.

(** One run of the script that is not decided by first doublings: on
    the fifteen numbers of [curve_draws] it writes the line of the six
    prime factors and uses up the draws, with any fuel from 34 on and
    any exact oracle.  The statement is a test of the model against the
    program (CPython returns the same list on these draws); that
    searches of this run take more than thirty iterations is what the
    least fuel of [factorization_curves] records. *)
Theorem script_run_curves (fuel : nat) :
  (34 <= fuel)%nat ->
  script_run fuel curve_draws = Ret (script_line, []).
Proof.
  intros Hle. rewrite (script_run_oracle _ fast_oracle).
  exact (script_run_fuel_mono 34%nat fuel _ _ _ Hle script_run_curves_fast).
Qed.

End RunTheorems.

Lemma script_run_prints_witness : script_line = script_line.
Proof.
  exact (script_run_prints (H := fast_oracle) 7 (lucky_script script_draws) []
           script_line script_run_fast).
Defined.

Lemma script_run_lucky_witness :
  script_run (H0 := trial_division_oracle) 7 (lucky_script script_draws)
  = Ret (script_line, []).
Proof. apply script_run_lucky. lia. Defined.

Lemma script_run_curves_witness :
  script_run (H0 := trial_division_oracle) 34 curve_draws = Ret (script_line, []).
Proof. apply script_run_curves. lia. Defined.
